(** * Rate-limited fetch layer and ETL pipeline: a shallow embedding

    The development follows the three modules of
    [src/services/data_ingestion] and the script [src/health_check.py]:

    - [rate_limiter.py]: the token bucket, [Module RateLimiter];
    - [fetcher.py]: the retrying request loop, [Module Fetcher];
    - [pipeline.py]: transform, load and the batch run, [Module Pipeline];
    - [health_check.py]: the two connection checks, [Module HealthCheck].

    Seconds (the values of [time.time()] and the arguments of
    [time.sleep]) and the balance of the bucket are rationals: the
    bucket arithmetic of the source is on Python floats, and the model
    keeps its order structure and drops the rounding; rates that are
    infinite or not a number have no counterpart.  The statements about
    the bucket are those that the rounding leaves as they are: bounds,
    and counts of whole tokens below [2 ^ 53]; where a count of polls is
    given, it leaves room for the rounding.

    Strings are sequences of code points below 256. *)

From Stdlib Require Import ZArith QArith Qminmax Lqa Lia Ascii String.
From stdpp Require Import gmap strings list pretty.

#[local] Set Warnings "-register-all".
#[local] Open Scope Z_scope.

(** * The token bucket ([rate_limiter.py]) *)

Module RateLimiter.

(** The four attributes of a [TokenBucketRateLimiter] object. *)
Record TokenBucketRateLimiter : Type := mkLimiter {
  max_tokens : Z;
  refill_rate : Q;
  tokens : Q;
  last_refill_time : Q
}.

(** [__init__(max_tokens, refill_rate)], with [now] the reading of
    [time.time()]: the jar starts full. *)
Definition __init__ (now : Q) (max_tokens : Z) (refill_rate : Q)
  : TokenBucketRateLimiter :=
  {| max_tokens := max_tokens;
     refill_rate := refill_rate;
     tokens := inject_Z max_tokens;
     last_refill_time := now |}.

(** [_refill()]: add [elapsed * rate], clamp to the capacity, remember
    the reading of the clock. *)
Definition _refill (now : Q) (self : TokenBucketRateLimiter)
  : TokenBucketRateLimiter :=
  let time_elapsed := (now - last_refill_time self)%Q in
  let new_tokens := (time_elapsed * refill_rate self)%Q in
  {| max_tokens := max_tokens self;
     refill_rate := refill_rate self;
     tokens := Qmin (inject_Z (max_tokens self)) (tokens self + new_tokens)%Q;
     last_refill_time := now |}.

(** [acquire(tokens=1)]: refill, then take the tokens when there are
    enough of them.  The source has one comparison and no [raise]. *)
Definition acquire (now : Q) (n : Z) (self : TokenBucketRateLimiter)
  : bool * TokenBucketRateLimiter :=
  let self := _refill now self in
  if Qle_bool (inject_Z n) (tokens self) then
    (true,
     {| max_tokens := max_tokens self;
        refill_rate := refill_rate self;
        tokens := (tokens self - inject_Z n)%Q;
        last_refill_time := last_refill_time self |})
  else (false, self).

(** The states an observer can look at while a list of calls
    [(now, n)] is replayed: the bucket after the refill of each call
    and the bucket after the call. *)
Fixpoint observations (self : TokenBucketRateLimiter) (calls : list (Q * Z))
  : list TokenBucketRateLimiter :=
  match calls with
  | [] => []
  | (now, n) :: rest =>
      let after_call := snd (acquire now n self) in
      _refill now self :: after_call :: observations after_call rest
  end.

(** The clock readings of the calls never go back, starting from [t]. *)
Fixpoint nondecreasing_from (t : Q) (calls : list (Q * Z)) : Prop :=
  match calls with
  | [] => True
  | (now, _) :: rest => (t <= now)%Q /\ nondecreasing_from now rest
  end.

Definition in_bounds (self : TokenBucketRateLimiter) : Prop :=
  (0 <= tokens self)%Q /\ (tokens self <= inject_Z (max_tokens self))%Q.

(** What every reachable bucket satisfies besides the bounds. *)
Record bucket_ok (t : Q) (self : TokenBucketRateLimiter) : Prop := {
  ok_capacity : 0 <= max_tokens self;
  ok_rate : (0 <= refill_rate self)%Q;
  ok_clock : (last_refill_time self <= t)%Q;
  ok_bounds : in_bounds self
}.

End RateLimiter.

(** * Python values, exceptions and the builtin [int] *)

Module Py.

(** The values a decoded JSON document is made of (numbers with a
    fraction and arrays do not occur in the payloads read here). *)
Inductive pyval : Type :=
| PNone
| PBool (b : bool)
| PInt (z : Z)
| PStr (s : string)
| PDict (d : gmap string pyval).

(** The exception classes the source raises, catches or lets through.
    All of them derive from [Exception]. *)
Inductive exn : Type :=
| Timeout              (* requests.exceptions.Timeout *)
| RequestException     (* any other requests.exceptions.RequestException *)
| ValueError
| TypeError
| AttributeError
| StorageError         (* what [session.commit()] raises *)
| OtherException (name : string).

Inductive result (A : Type) : Type :=
| Ok (a : A)
| Err (e : exn).
Arguments Ok {A} a.
Arguments Err {A} e.

(** [bool(v)], the test of [if v], [not v], [v or w]. *)
Definition truthy (v : pyval) : bool :=
  match v with
  | PNone => false
  | PBool b => b
  | PInt z => negb (z =? 0)
  | PStr s => negb (String.eqb s "")
  | PDict d => negb (bool_decide (size d = 0%nat))
  end.

(** [d.get(k, default)] and [k in d]. *)
Definition get (d : gmap string pyval) (k : string) (default : pyval) : pyval :=
  match d !! k with
  | Some v => v
  | None => default
  end.

Definition contains (d : gmap string pyval) (k : string) : bool :=
  bool_decide (is_Some (d !! k)).

(** [v != "None"]. *)
Definition is_str (v : pyval) (s : string) : bool :=
  match v with
  | PStr s' => String.eqb s' s
  | _ => false
  end.

(** [int(s)] for a string, base 10.  A string of the model is the
    sequence of the code points of the [str], each of them below 256;
    text with other code points is not part of the model.  Blanks are
    stripped on both sides: the ASCII ones, 9 to 13 and 32, and, of the
    others, the next line (133) and the no-break space (160); the
    separators 28 to 31, blanks for [str.strip], are none for [int].
    One sign is allowed, the digits are those of ASCII and may be
    separated by single underscores, and there are at most
    [max_str_digits] of them, leading zeros counted: the limit of
    CPython since 3.11, which the program leaves at its default. *)
Definition is_space (c : Ascii.ascii) : bool :=
  let n := Ascii.N_of_ascii c in
  ((9 <=? n) && (n <=? 13) || (n =? 32) || (n =? 133) || (n =? 160))%N.

Fixpoint lstrip (s : string) : string :=
  match s with
  | EmptyString => EmptyString
  | String c s' => if is_space c then lstrip s' else s
  end.

Definition strip (s : string) : string :=
  String.rev (lstrip (String.rev (lstrip s))).

Definition digit_of (c : Ascii.ascii) : option Z :=
  let n := Z.of_N (Ascii.N_of_ascii c) in
  if (48 <=? n) && (n <=? 57) then Some (n - 48) else None.

Fixpoint digits (acc : Z) (after_digit : bool) (s : string) : option Z :=
  match s with
  | EmptyString => if after_digit then Some acc else None
  | String c s' =>
      match digit_of c with
      | Some d => digits (10 * acc + d) true s'
      | None =>
          if Ascii.eqb c "_"%char && after_digit then digits acc false s' else None
      end
  end.

Definition max_str_digits : Z := 4300.

Fixpoint count_digits (s : string) : Z :=
  match s with
  | EmptyString => 0
  | String c s' =>
      (if digit_of c is Some _ then 1 else 0) + count_digits s'
  end.

Definition int_of_str (s : string) : option Z :=
  let s := strip s in
  if max_str_digits <? count_digits s then None
  else
    match s with
    | String "+"%char s' => digits 0 false s'
    | String "-"%char s' => Z.opp <$> digits 0 false s'
    | s' => digits 0 false s'
    end.

(** [int(v)]. *)
Definition int (v : pyval) : result Z :=
  match v with
  | PInt z => Ok z
  | PBool b => Ok (if b then 1 else 0)
  | PStr s =>
      match int_of_str s with
      | Some z => Ok z
      | None => Err ValueError
      end
  | PNone | PDict _ => Err TypeError
  end.

(** [s.upper()] for a string of ASCII text, as the ticker symbols are:
    the letters [a] to [z] go to [A] to [Z] and nothing else changes. *)
Definition upper_char (c : Ascii.ascii) : Ascii.ascii :=
  let n := Ascii.N_of_ascii c in
  if ((97 <=? n) && (n <=? 122))%N then Ascii.ascii_of_N (n - 32) else c.

Fixpoint upper (s : string) : string :=
  match s with
  | EmptyString => EmptyString
  | String c s' => String (upper_char c) (upper s')
  end.

End Py.

(** * Effects: the clock, standard output, raising and catching *)

Module Eff.
Import Py.

(** What a [print] interpolates into its line. *)
Inductive logarg : Type :=
| AStr (s : string)
| AInt (z : Z)
| AVal (v : pyval)
| AExn (e : exn).

(** The three [time.sleep] calls of [_make_request]: in the wait for a
    token, after a throttle notice, and before the next attempt. *)
Inductive wait : Type := Poll | Cooldown | Backoff.

(** What a run does to the outside: it sleeps, sends a GET, prints a
    line.  A line is kept as the literal of the source, escapes as
    written and a hole [{}] for each interpolated value, with the
    values put in the holes. *)
Inductive event : Type :=
| Sleep (why : wait) (seconds : Q)
| Get (url : string) (params : gmap string pyval) (timeout : Z)
| Print (text : string) (args : list logarg).

(** How a call ends.  [OutOfFuel] is for the loops of the source that
    have no bound of their own: the bound of the model was too small. *)
Inductive res (A : Type) : Type :=
| Ret (a : A)
| Raise (e : exn)
| OutOfFuel.
Arguments Ret {A} a.
Arguments Raise {A} e.
Arguments OutOfFuel {A}.

(** A statement: from a state to how it ends, the state it leaves and
    what it did, in order. *)
Definition M (S A : Type) : Type := S -> res A * S * list event.

Definition ret {S A} (a : A) : M S A := fun s => (Ret a, s, []).

Definition bind {S A B} (m : M S A) (k : A -> M S B) : M S B :=
  fun s =>
    match m s with
    | (Ret a, s1, t1) =>
        match k a s1 with
        | (r, s2, t2) => (r, s2, t1 ++ t2)
        end
    | (Raise e, s1, t1) => (Raise e, s1, t1)
    | (OutOfFuel, s1, t1) => (OutOfFuel, s1, t1)
    end.

Definition raise {S A} (e : exn) : M S A := fun s => (Raise e, s, []).

Definition out_of_fuel {S A} : M S A := fun s => (OutOfFuel, s, []).

Definition emit {S} (e : event) : M S unit := fun s => (Ret tt, s, [e]).

Definition print {S} (text : string) (args : list logarg) : M S unit :=
  emit (Print text args).

Definition read {S} : M S S := fun s => (Ret s, s, []).

(** [try: m  except Exception as e: handler(e)]. *)
Definition try_except {S A} (m : M S A) (handler : exn -> M S A) : M S A :=
  fun s =>
    match m s with
    | (Raise e, s1, t1) =>
        match handler e s1 with
        | (r, s2, t2) => (r, s2, t1 ++ t2)
        end
    | other => other
    end.

(** A statement on a part of the state. *)
Definition zoom {S T A} (project : T -> S) (inject : S -> T -> T)
    (m : M S A) : M T A :=
  fun t =>
    match m (project t) with
    | (r, s, evs) => (r, inject s t, evs)
    end.

Definition of_result {S A} (r : result A) : M S A :=
  match r with
  | Ok a => ret a
  | Err e => raise e
  end.

(** The three parts of a finished run, and a run told after the events
    [evs]. *)
Definition result_of {S A} (x : res A * S * list event) : res A := x.1.1.
Definition state_of {S A} (x : res A * S * list event) : S := x.1.2.
Definition events_of {S A} (x : res A * S * list event) : list event := x.2.

Definition preceded_by {S A} (evs : list event) (x : res A * S * list event)
  : res A * S * list event :=
  (result_of x, state_of x, evs ++ events_of x).

(** [m] keeps [I] and does not stop for lack of fuel. *)
Definition safe {S A} (I : S -> Prop) (m : M S A) : Prop :=
  forall s, I s -> result_of (m s) <> OutOfFuel /\ I (state_of (m s)).

(** [l] dealt into [a] and [b], each element to one of them, in order. *)
Inductive dealt {A : Type} : list A -> list A -> list A -> Prop :=
| dealt_nil : dealt [] [] []
| dealt_left x l a b : dealt l a b -> dealt (x :: l) (x :: a) b
| dealt_right x l a b : dealt l a b -> dealt (x :: l) a (x :: b).

End Eff.

Notation "'let*' x ':=' m 'in' k" := (Eff.bind m (fun x => k))
  (at level 10, x name, m at level 100, k at level 200).
Notation "m '>>' k" := (Eff.bind m (fun _ => k))
  (at level 100, k at level 200, right associativity).

(** * The fetcher ([fetcher.py]) *)

Module Fetcher.
Import Py Eff.

(** What [requests.get] hands back: a status and, read only when the
    status is 200, the decoded body [response.json()]. *)
Record response : Type := mkResponse {
  status_code : Z;
  json : gmap string pyval
}.

(** What the remote side does with one request.  A body that does not
    decode is one of the failures. *)
Inductive reply : Type :=
| Fails (e : exn)
| Responds (r : response).

(** The two attributes of a [StockFetcher]. *)
Record StockFetcher : Type := mkFetcher {
  api_key : pyval;
  rate_limiter : RateLimiter.TokenBucketRateLimiter
}.

(** What a request can see and change: the clock, the fetcher object,
    the dictionaries that callers pass by reference, and the remote
    side, which answers the [k]-th request with [network k] after
    [elapsed k] microseconds.  The clock moves when the program sleeps
    and while it waits for a reply. *)
Record world : Type := mkWorld {
  clock : Q;
  fetcher : StockFetcher;
  heap : gmap positive (gmap string pyval);
  network : nat -> reply;
  elapsed : nat -> N;
  sent : nat
}.

Definition BASE_URL : string := "https://www.alphavantage.co/query".

(** [StockFetcher(api_key)]: five tokens, five more per minute. *)
Definition __init__ (now : Q) (api_key : pyval) : StockFetcher :=
  {| api_key := api_key;
     rate_limiter := RateLimiter.__init__ now 5 (5 # 60) |}.

(** The world [seconds] later, and the world after one more request. *)
Definition later (seconds : Q) (w : world) : world :=
  {| clock := (clock w + seconds)%Q; fetcher := fetcher w;
     heap := heap w; network := network w; elapsed := elapsed w;
     sent := sent w |}.

Definition one_more_sent (w : world) : world :=
  {| clock := (clock w + (Z.of_N (elapsed w (sent w)) # 1000000))%Q;
     fetcher := fetcher w; heap := heap w;
     network := network w; elapsed := elapsed w; sent := S (sent w) |}.

(** [time.sleep(seconds)]. *)
Definition sleep (why : wait) (seconds : Q) : M world unit :=
  fun w => (Ret tt, later seconds w, [Sleep why seconds]).

(** The world with [bucket] as the rate limiter of the fetcher. *)
Definition with_bucket (bucket : RateLimiter.TokenBucketRateLimiter)
    (w : world) : world :=
  {| clock := clock w;
     fetcher := {| api_key := api_key (fetcher w); rate_limiter := bucket |};
     heap := heap w; network := network w; elapsed := elapsed w;
     sent := sent w |}.

(** [self.rate_limiter.acquire()], at the present reading of the clock. *)
Definition rate_limiter_acquire : M world bool :=
  fun w =>
    let granted_bucket :=
      RateLimiter.acquire (clock w) 1 (rate_limiter (fetcher w)) in
    (Ret (fst granted_bucket), with_bucket (snd granted_bucket) w, []).

(** The world after [params[key] = value] on the dictionary at [params]. *)
Definition with_item (params : positive) (key : string) (value : pyval)
    (w : world) : world :=
  {| clock := clock w; fetcher := fetcher w;
     heap := <[params := <[key := value]> (default ∅ (heap w !! params))]>
               (heap w);
     network := network w; elapsed := elapsed w; sent := sent w |}.

Definition setitem (params : positive) (key : string) (value : pyval)
  : M world unit :=
  fun w => (Ret tt, with_item params key value w, []).

(** A new dictionary, as a dict display allocates one. *)
Definition alloc (d : gmap string pyval) : M world positive :=
  fun w =>
    let p := fresh (dom (heap w)) in
    (Ret p,
     {| clock := clock w; fetcher := fetcher w;
        heap := <[p := d]> (heap w);
        network := network w; elapsed := elapsed w; sent := sent w |},
     []).

(** [requests.get(self.BASE_URL, params=params, timeout=10)]: the
    dictionary is read as it is at that moment. *)
Definition sent_request (params : positive) (w : world) : event :=
  Get BASE_URL (default ∅ (heap w !! params)) 10.

Definition requests_get (params : positive) : M world response :=
  fun w =>
    match network w (sent w) with
    | Fails e => (Raise e, one_more_sent w, [sent_request params w])
    | Responds r => (Ret r, one_more_sent w, [sent_request params w])
    end.

Definition max_retries : Z := 5.
Definition base_delay : Z := 1.

(** [range(n)]. *)
Definition range (n : Z) : list Z := Z.of_nat <$> seq 0 (Z.to_nat n).

(** [while not self.rate_limiter.acquire(): time.sleep(0.5)], with at
    most [fuel] calls of [acquire]. *)
Fixpoint wait_for_token (fuel : nat) : M world unit :=
  match fuel with
  | O => out_of_fuel
  | S fuel' =>
      let* granted := rate_limiter_acquire in
      if granted then ret tt
      else sleep Poll (1 # 2) >> wait_for_token fuel'
  end.

(** How the [try] statement of one attempt is left: by [return], by
    [continue], or at its end, which is where the backoff is. *)
Inductive flow : Type :=
| Return (data : option (gmap string pyval))
| Continue
| Fallthrough.

(** The [try] statement of attempt number [attempt]. *)
Definition request_once (params : positive) (attempt : Z) : M world flow :=
  try_except
    (let* response := requests_get params in
     if status_code response =? 200 then
       let data := json response in
       if contains data "Error Message" then
         print "API Error: {}" [AVal (get data "Error Message" PNone)] >>
         ret (Return None)
       else if contains data "Note" then
         print "Rate limit warning: {}" [AVal (get data "Note" PNone)] >>
         sleep Cooldown 60 >>
         ret Continue
       else ret (Return (Some data))
     else if status_code response =? 429 then
       print "Rate limited by API (429)" [] >> ret Fallthrough
     else
       print "HTTP Error: {}" [AInt (status_code response)] >> ret Fallthrough)
    (fun e =>
       match e with
       | Timeout =>
           print "Request timeout (attempt {})" [AInt (attempt + 1)] >>
           ret Fallthrough
       | RequestException =>
           print "Request failed: {}" [AExn e] >> ret Fallthrough
       | _ => raise e
       end).

(** The [for attempt in range(max_retries)] loop, standing before the
    attempts [todo], and the two lines after it. *)
Fixpoint attempts (fuel : nat) (params : positive) (todo : list Z)
  : M world (option (gmap string pyval)) :=
  match todo with
  | [] => print "All retries failed" [] >> ret None
  | attempt :: todo' =>
      wait_for_token fuel >>
      let* how := request_once params attempt in
      match how with
      | Return data => ret data
      | Continue => attempts fuel params todo'
      | Fallthrough =>
          let delay := base_delay * 2 ^ attempt in
          print "Retrying in {} seconds... (attempt {}/{})"
                [AInt delay; AInt (attempt + 1); AInt max_retries] >>
          sleep Backoff (inject_Z delay) >>
          attempts fuel params todo'
      end
  end.

(** [_make_request(params)]; [params] is the caller's dictionary. *)
Definition _make_request (fuel : nat) (params : positive)
  : M world (option (gmap string pyval)) :=
  let* w := read in
  setitem params "apikey" (api_key (fetcher w)) >>
  attempts fuel params (range max_retries).

Definition get_stock_price (fuel : nat) (symbol : string)
  : M world (option (gmap string pyval)) :=
  let* params :=
    alloc (<["function" := PStr "GLOBAL_QUOTE"]>
             (<["symbol" := PStr symbol]> ∅)) in
  _make_request fuel params.

Definition get_daily_prices (fuel : nat) (symbol outputsize : string)
  : M world (option (gmap string pyval)) :=
  let* params :=
    alloc (<["function" := PStr "TIME_SERIES_DAILY"]>
             (<["symbol" := PStr symbol]>
                (<["outputsize" := PStr outputsize]> ∅))) in
  _make_request fuel params.

Definition get_company_overview (fuel : nat) (symbol : string)
  : M world (option (gmap string pyval)) :=
  let* params :=
    alloc (<["function" := PStr "OVERVIEW"]>
             (<["symbol" := PStr symbol]> ∅)) in
  _make_request fuel params.

(** The parts of a run that statements are about. *)
Fixpoint remote_calls (evs : list event) : list (gmap string pyval) :=
  match evs with
  | [] => []
  | Get _ params _ :: evs' => params :: remote_calls evs'
  | _ :: evs' => remote_calls evs'
  end.

Fixpoint sleeps (why : wait) (evs : list event) : list Q :=
  match evs with
  | [] => []
  | Sleep Poll d :: evs' =>
      match why with Poll => d :: sleeps why evs' | _ => sleeps why evs' end
  | Sleep Cooldown d :: evs' =>
      match why with Cooldown => d :: sleeps why evs' | _ => sleeps why evs' end
  | Sleep Backoff d :: evs' =>
      match why with Backoff => d :: sleeps why evs' | _ => sleeps why evs' end
  | _ :: evs' => sleeps why evs'
  end.

(** The replies by the branch of [request_once] they take: the error
    payload, the throttle notice, and the failures that end in the
    exponential backoff. *)
Definition error_reply (r : reply) : bool :=
  match r with
  | Responds r => (status_code r =? 200) && contains (json r) "Error Message"
  | Fails _ => false
  end.

Definition notice_reply (r : reply) : bool :=
  match r with
  | Responds r =>
      (status_code r =? 200) && negb (contains (json r) "Error Message")
      && contains (json r) "Note"
  | Fails _ => false
  end.

Definition backoff_reply (r : reply) : bool :=
  match r with
  | Fails Timeout | Fails RequestException => true
  | Fails _ => false
  | Responds r => negb (status_code r =? 200)
  end.

(** The line a failed attempt prints before it falls through. *)
Definition failure_line (attempt : Z) (r : reply) : event :=
  match r with
  | Fails Timeout => Print "Request timeout (attempt {})" [AInt (attempt + 1)]
  | Fails e => Print "Request failed: {}" [AExn e]
  | Responds r =>
      if status_code r =? 429 then Print "Rate limited by API (429)" []
      else Print "HTTP Error: {}" [AInt (status_code r)]
  end.

(** The replies after which the loop goes on to its next attempt. *)
Definition retry_reply (r : reply) : bool := backoff_reply r || notice_reply r.

(** The sleeps of a run other than the polls of the bucket, in order,
    each with the place of the source it is slept at. *)
Fixpoint pauses (evs : list event) : list (wait * Q) :=
  match evs with
  | [] => []
  | Sleep Poll _ :: evs' => pauses evs'
  | Sleep why d :: evs' => (why, d) :: pauses evs'
  | _ :: evs' => pauses evs'
  end.

(** The pause that follows attempt number [attempt] when its reply is
    [r], one of those after which the loop goes on: the cooldown after a
    throttle notice, the exponential delay after the other failures. *)
Definition pause_after (attempt : Z) (r : reply) : wait * Q :=
  if notice_reply r then (Cooldown, 60%Q)
  else (Backoff, inject_Z (base_delay * 2 ^ attempt)).

(** The pauses of the attempts [todo], the first of which is answered
    by the reply number [k]. *)
Fixpoint schedule (network : nat -> reply) (k : nat) (todo : list Z)
  : list (wait * Q) :=
  match todo with
  | [] => []
  | attempt :: todo' =>
      pause_after attempt (network k) :: schedule network (S k) todo'
  end.

(** Nothing but polls of the bucket. *)
Definition polling (evs : list event) : Prop :=
  Forall (fun e => e = Sleep Poll (1 # 2)) evs.

(** What a wait or a request leaves alone. *)
Definition same_outside (w w' : world) : Prop :=
  heap w' = heap w /\ network w' = network w /\
  api_key (fetcher w') = api_key (fetcher w).

(** The fetcher as [__init__] makes it and as time treats it: the
    bucket of five tokens with five more per minute, never read at a
    clock behind its last refill. *)
Record fetcher_ok (w : world) : Prop := {
  ok_bucket : RateLimiter.bucket_ok (clock w) (rate_limiter (fetcher w));
  ok_max : RateLimiter.max_tokens (rate_limiter (fetcher w)) = 5;
  ok_refill : RateLimiter.refill_rate (rate_limiter (fetcher w)) = (5 # 60)%Q
}.

End Fetcher.

(** Worlds for the examples: a fetcher just made, with the key ["KEY"],
    one dictionary of parameters at address 1, and a remote side that
    answers at once by the list [replies] and then times out. *)
Module Samples.
Import Py Eff Fetcher.

Definition overview_params : gmap string pyval :=
  <["function" := PStr "OVERVIEW"]> (<["symbol" := PStr "AAPL"]> ∅).

(** The dictionary of the samples, once the key is in. *)
Definition keyed_params : gmap string pyval :=
  <["apikey" := PStr "KEY"]> overview_params.

Definition world_of (replies : list reply) : world :=
  {| clock := 0;
     fetcher := __init__ 0 (PStr "KEY");
     heap := <[1%positive := overview_params]> ∅;
     network := fun k => nth k replies (Fails Timeout);
     elapsed := fun _ => 0%N;
     sent := 0 |}.

Definition status (code : Z) : reply :=
  Responds {| status_code := code; json := ∅ |}.

Definition body (data : gmap string pyval) : reply :=
  Responds {| status_code := 200; json := data |}.

Definition error_body : reply :=
  body (<["Error Message" := PStr "Invalid API call."]> ∅).

Definition notice_body : reply :=
  body (<["Note" := PStr "Thank you for using Alpha Vantage!"]> ∅).

End Samples.

(** * The tables ([models.py]) *)

(** A row of [stocks]; [id] is [None] until the row is inserted. *)
Module Stock.
Record t : Type := mk {
  id : option Z;
  ticker : string;
  name : Py.pyval;
  sector : Py.pyval;
  market_cap : option Z
}.
End Stock.

(** [datetime.now()] and its [.date()]. *)
Record datetime : Type := mkDatetime {
  year : Z;
  month : Z;
  day : Z;
  time_of_day : Q
}.

Definition date_of (d : datetime) : Z * Z * Z := (year d, month d, day d).

(** A row of [prices], over the type of the floats. *)
Module Price.
Record t (float : Type) : Type := mk {
  id : option Z;
  stock_id : Z;
  date : Z * Z * Z;
  open : float;
  high : float;
  low : float;
  close : float;
  volume : Z
}.
Arguments mk {float}.
Arguments id {float}.
Arguments stock_id {float}.
Arguments date {float}.
Arguments open {float}.
Arguments high {float}.
Arguments low {float}.
Arguments close {float}.
Arguments volume {float}.
End Price.

(** A row of [fundamentals]. *)
Module Fundamental.
Record t (float : Type) : Type := mk {
  id : option Z;
  stock_id : Z;
  quarter : string;
  revenue : Z;
  net_income : Z;
  eps : option float;
  pe_ratio : option float;
  debt_to_equity : option float;
  reported_at : datetime
}.
Arguments mk {float}.
Arguments id {float}.
Arguments stock_id {float}.
Arguments quarter {float}.
Arguments revenue {float}.
Arguments net_income {float}.
Arguments eps {float}.
Arguments pe_ratio {float}.
Arguments debt_to_equity {float}.
Arguments reported_at {float}.
End Fundamental.

(** The committed content of the three tables the pipeline writes, each
    with the next value of its [id] sequence. *)
Record database (float : Type) : Type := mkDatabase {
  stocks : list Stock.t;
  prices : list (Price.t float);
  fundamentals : list (Fundamental.t float);
  next_stock_id : Z;
  next_price_id : Z;
  next_fundamental_id : Z
}.
Arguments mkDatabase {float}.
Arguments stocks {float}.
Arguments prices {float}.
Arguments fundamentals {float}.
Arguments next_stock_id {float}.
Arguments next_price_id {float}.
Arguments next_fundamental_id {float}.

(** The table [stocks] replaced, with the next value of its sequence. *)
Definition with_stocks {float} (table : list Stock.t) (next : Z)
    (d : database float) : database float :=
  {| stocks := table;
     prices := prices d;
     fundamentals := fundamentals d;
     next_stock_id := next;
     next_price_id := next_price_id d;
     next_fundamental_id := next_fundamental_id d |}.

(** [existing] with the name, the sector and the market cap of [stock],
    and [stock] with the [id] the insert gives it. *)
Definition overwritten (existing stock : Stock.t) : Stock.t :=
  {| Stock.id := Stock.id existing;
     Stock.ticker := Stock.ticker existing;
     Stock.name := Stock.name stock;
     Stock.sector := Stock.sector stock;
     Stock.market_cap := Stock.market_cap stock |}.

Definition with_id (id : Z) (stock : Stock.t) : Stock.t :=
  {| Stock.id := Some id;
     Stock.ticker := Stock.ticker stock;
     Stock.name := Stock.name stock;
     Stock.sector := Stock.sector stock;
     Stock.market_cap := Stock.market_cap stock |}.

(** * The pipeline ([pipeline.py]) *)

Module Pipeline.
Import Py Eff.

(** The state of a run: what the fetcher works on, and the database. *)
Record state (float : Type) : Type := mkState {
  env : Fetcher.world;
  db : database float
}.
Arguments mkState {float}.
Arguments env {float}.
Arguments db {float}.

(** The dictionary [results] of [run]. *)
Record results : Type := mkResults {
  success : list string;
  failed : list string
}.

(** The part of the state that decides whether a run goes on. *)
Definition env_ok {float} (s : state float) : Prop :=
  Fetcher.fetcher_ok (env s).

(** [s * n] on strings. *)
Fixpoint str_mul (s : string) (n : nat) : string :=
  match n with
  | O => ""
  | S n' => s ++ str_mul s n'
  end.

Section WithEnvironment.

(** Three things are taken from outside: the builtin [float], with the
    type of its values; the calendar, [now_ c k] being what the call of
    [datetime.now()] number [k] returns in a transform entered at the
    clock [c], so that two readings of one transform need not agree; and
    the verdict of the storage on a commit, given the content the commit
    would leave. *)
Context {float : Type}.
Variable float_ : pyval -> result float.
Variable now_ : Q -> nat -> datetime.
Variable storage_accepts : database float -> bool.

Definition in_fetcher {A} (m : M Fetcher.world A) : M (state float) A :=
  zoom env (fun w s => {| env := w; db := db s |}) m.

(** ** Extract *)

Definition extract_stock_quote (fuel : nat) (symbol : string)
  : M (state float) (option (gmap string pyval)) :=
  print "  [EXTRACT] Fetching quote for {}..." [AStr symbol] >>
  in_fetcher (Fetcher.get_stock_price fuel symbol).

Definition extract_company_info (fuel : nat) (symbol : string)
  : M (state float) (option (gmap string pyval)) :=
  print "  [EXTRACT] Fetching company info for {}..." [AStr symbol] >>
  in_fetcher (Fetcher.get_company_overview fuel symbol).

(** ** Transform *)

(** [not company_data] for what [extract_company_info] returned. *)
Definition falsy_payload (company_data : option (gmap string pyval)) : bool :=
  match company_data with
  | None => true
  | Some d => negb (truthy (PDict d))
  end.

Definition transform_stock {S} (symbol : string)
    (company_data : option (gmap string pyval)) : M S (option Stock.t) :=
  print "  [TRANSFORM] Processing stock data for {}..." [AStr symbol] >>
  match company_data with
  | None => ret None
  | Some data =>
      if negb (truthy (PDict data)) then ret None
      else
        try_except
          (let market_cap_str := get data "MarketCapitalization" (PStr "0") in
           let* market_cap :=
             if truthy market_cap_str
             then let* z := of_result (int market_cap_str) in ret (Some z)
             else ret None in
           ret (Some {| Stock.id := None;
                        Stock.ticker := symbol;
                        Stock.name := get data "Name" (PStr symbol);
                        Stock.sector := get data "Sector" PNone;
                        Stock.market_cap := market_cap |}))
          (fun e =>
             print "  [ERROR] Transform failed for {}: {}" [AStr symbol; AExn e] >>
             ret None)
  end.

(** [quote.get(key, 0)] on whatever [quote_data["Global Quote"]] is. *)
Definition quote_get {S} (quote : pyval) (key : string) : M S pyval :=
  match quote with
  | PDict q => ret (get q key (PInt 0))
  | _ => raise AttributeError
  end.

Definition transform_price (stock_id : Z)
    (quote_data : option (gmap string pyval))
  : M (state float) (option (Price.t float)) :=
  match quote_data with
  | None => ret None
  | Some data =>
      if negb (truthy (PDict data)) || negb (contains data "Global Quote")
      then ret None
      else
        try_except
          (let quote := get data "Global Quote" PNone in
           let* s := read in
           let today := date_of (now_ (Fetcher.clock (env s)) 0%nat) in
           let* v := quote_get quote "02. open" in
           let* open := of_result (float_ v) in
           let* v := quote_get quote "03. high" in
           let* high := of_result (float_ v) in
           let* v := quote_get quote "04. low" in
           let* low := of_result (float_ v) in
           let* v := quote_get quote "05. price" in
           let* close := of_result (float_ v) in
           let* v := quote_get quote "06. volume" in
           let* volume := of_result (int v) in
           ret (Some {| Price.id := None;
                        Price.stock_id := stock_id;
                        Price.date := today;
                        Price.open := open;
                        Price.high := high;
                        Price.low := low;
                        Price.close := close;
                        Price.volume := volume |}))
          (fun e =>
             print "  [ERROR] Transform price failed: {}" [AExn e] >> ret None)
  end.

(** The helper [safe_float(value, default=None)] of
    [transform_fundamental]; its bare [except] swallows whatever [float]
    raises. *)
Definition safe_float (value : pyval) : option float :=
  if truthy value && negb (is_str value "None") then
    match float_ value with
    | Ok f => Some f
    | Err _ => None
    end
  else None.

(** [company_data.get(key, 0) or 0]. *)
Definition get_or_0 (data : gmap string pyval) (key : string) : pyval :=
  let v := get data key (PInt 0) in
  if truthy v then v else PInt 0.

Definition transform_fundamental (stock_id : Z)
    (company_data : option (gmap string pyval))
  : M (state float) (option (Fundamental.t float)) :=
  match company_data with
  | None => ret None
  | Some data =>
      if negb (truthy (PDict data)) then ret None
      else
        try_except
          (let* s := read in
           let now := now_ (Fetcher.clock (env s)) in
           let quarter :=
             (pretty (year (now 0%nat)) ++ "-Q"
              ++ pretty ((month (now 1%nat) - 1) / 3 + 1))%string in
           let* revenue := of_result (int (get_or_0 data "RevenueTTM")) in
           let* net_income := of_result (int (get_or_0 data "GrossProfitTTM")) in
           ret (Some {| Fundamental.id := None;
                        Fundamental.stock_id := stock_id;
                        Fundamental.quarter := quarter;
                        Fundamental.revenue := revenue;
                        Fundamental.net_income := net_income;
                        Fundamental.eps := safe_float (get data "EPS" PNone);
                        Fundamental.pe_ratio := safe_float (get data "PERatio" PNone);
                        Fundamental.debt_to_equity :=
                          safe_float (get data "DebtToEquityRatio" PNone);
                        Fundamental.reported_at := now 2%nat |}))
          (fun e =>
             print "  [ERROR] Transform fundamental failed: {}" [AExn e] >>
             ret None)
  end.

(** ** Load *)

(** [session.commit()] of the changes that would leave [pending]: the
    storage takes them or raises. *)
Definition commit (pending : database float) : M (state float) unit :=
  fun s =>
    if storage_accepts pending
    then (Ret tt, {| env := env s; db := pending |}, [])
    else (Raise StorageError, s, []).

(** [session.rollback()]: the pending changes were never part of the
    state. *)
Definition rollback : M (state float) unit := ret tt.

(** [session.query(Stock).filter_by(ticker=...).first()], with the
    position of the row. *)
Definition query_stock (ticker : string) (table : list Stock.t)
  : option (nat * Stock.t) :=
  list_find (fun row => Stock.ticker row = ticker) table.

Definition load_stock (stock : Stock.t) : M (state float) (option Z) :=
  print "  [LOAD] Saving stock {}..." [AStr (Stock.ticker stock)] >>
  try_except
    (let* s := read in
     let d := db s in
     match query_stock (Stock.ticker stock) (stocks d) with
     | Some (i, existing) =>
         let existing := overwritten existing stock in
         commit (with_stocks (<[i := existing]> (stocks d)) (next_stock_id d) d) >>
         ret (Stock.id existing)
     | None =>
         let stock := with_id (next_stock_id d) stock in
         commit (with_stocks (stocks d ++ [stock]) (next_stock_id d + 1) d) >>
         ret (Stock.id stock)
     end)
    (fun e =>
       print "  [ERROR] Load stock failed: {}" [AExn e] >>
       rollback >>
       ret None).

Definition load_price (price : Price.t float) : M (state float) bool :=
  print "  [LOAD] Saving price data..." [] >>
  try_except
    (let* s := read in
     let d := db s in
     let price :=
       {| Price.id := Some (next_price_id d);
          Price.stock_id := Price.stock_id price;
          Price.date := Price.date price;
          Price.open := Price.open price;
          Price.high := Price.high price;
          Price.low := Price.low price;
          Price.close := Price.close price;
          Price.volume := Price.volume price |} in
     commit {| stocks := stocks d;
               prices := prices d ++ [price];
               fundamentals := fundamentals d;
               next_stock_id := next_stock_id d;
               next_price_id := next_price_id d + 1;
               next_fundamental_id := next_fundamental_id d |} >>
     ret true)
    (fun e =>
       print "  [ERROR] Load price failed: {}" [AExn e] >>
       rollback >>
       ret false).

Definition load_fundamental (fundamental : Fundamental.t float)
  : M (state float) bool :=
  print "  [LOAD] Saving fundamental data..." [] >>
  try_except
    (let* s := read in
     let d := db s in
     let fundamental :=
       {| Fundamental.id := Some (next_fundamental_id d);
          Fundamental.stock_id := Fundamental.stock_id fundamental;
          Fundamental.quarter := Fundamental.quarter fundamental;
          Fundamental.revenue := Fundamental.revenue fundamental;
          Fundamental.net_income := Fundamental.net_income fundamental;
          Fundamental.eps := Fundamental.eps fundamental;
          Fundamental.pe_ratio := Fundamental.pe_ratio fundamental;
          Fundamental.debt_to_equity := Fundamental.debt_to_equity fundamental;
          Fundamental.reported_at := Fundamental.reported_at fundamental |} in
     commit {| stocks := stocks d;
               prices := prices d;
               fundamentals := fundamentals d ++ [fundamental];
               next_stock_id := next_stock_id d;
               next_price_id := next_price_id d;
               next_fundamental_id := next_fundamental_id d + 1 |} >>
     ret true)
    (fun e =>
       print "  [ERROR] Load fundamental failed: {}" [AExn e] >>
       rollback >>
       ret false).

(** ** Run *)

(** [not stock_id] for what [load_stock] returned. *)
Definition falsy_id (stock_id : option Z) : bool :=
  match stock_id with
  | None => true
  | Some z => negb (truthy (PInt z))
  end.

Definition process_single_stock (fuel : nat) (symbol : string)
  : M (state float) bool :=
  print "\nProcessing {}..." [AStr symbol] >>
  print (str_mul "-" 40) [] >>
  let* company_data := extract_company_info fuel symbol in
  let* quote_data := extract_stock_quote fuel symbol in
  let* stock := transform_stock symbol company_data in
  match stock with
  | None =>
      print "  [SKIP] Could not transform stock data for {}" [AStr symbol] >>
      ret false
  | Some stock =>
      let* stock_id := load_stock stock in
      match stock_id with
      | None => ret false
      | Some id =>
          if falsy_id stock_id then ret false
          else
            let* price := transform_price id quote_data in
            (match price with
             | Some price => load_price price >> ret tt
             | None => ret tt
             end) >>
            let* fundamental := transform_fundamental id company_data in
            (match fundamental with
             | Some fundamental => load_fundamental fundamental >> ret tt
             | None => ret tt
             end) >>
            print "  [DONE] {} processed successfully!" [AStr symbol] >>
            ret true
      end
  end.

(** The body of the [for symbol in symbols] loop of [run]. *)
Definition run_symbol (fuel : nat) (symbol : string) (r : results)
  : M (state float) results :=
  try_except
    (let* ok := process_single_stock fuel (upper symbol) in
     if ok
     then ret {| success := success r ++ [symbol]; failed := failed r |}
     else ret {| success := success r; failed := failed r ++ [symbol] |})
    (fun e =>
       print "  [ERROR] Pipeline failed for {}: {}" [AStr symbol; AExn e] >>
       ret {| success := success r; failed := failed r ++ [symbol] |}).

Fixpoint run_loop (fuel : nat) (symbols : list string) (r : results)
  : M (state float) results :=
  match symbols with
  | [] => ret r
  | symbol :: rest =>
      let* r' := run_symbol fuel symbol r in
      run_loop fuel rest r'
  end.

Definition run (fuel : nat) (symbols : list string)
  : M (state float) results :=
  print (str_mul "=" 50) [] >>
  print "STOCK DATA PIPELINE - Starting" [] >>
  print (str_mul "=" 50) [] >>
  let* r := run_loop fuel symbols {| success := []; failed := [] |} in
  print ("\n" ++ str_mul "=" 50) [] >>
  print "PIPELINE COMPLETE" [] >>
  print "  Success: {} stocks" [AInt (Z.of_nat (length (success r)))] >>
  print "  Failed: {} stocks" [AInt (Z.of_nat (length (failed r)))] >>
  print (str_mul "=" 50) [] >>
  ret r.

End WithEnvironment.

End Pipeline.

(** An environment for the examples of the pipeline: a [float] that
    reads what [int] reads (enough for payloads with whole numbers), a
    calendar stopped on 5 November 2024, and a storage that enforces
    the [nullable=False] of [Stock.name]. *)
Module PipelineSamples.
Import Py Eff Pipeline.

Definition whole_float (v : pyval) : result Q :=
  match int v with
  | Ok z => Ok (inject_Z z)
  | Err e => Err e
  end.

Definition fixed_now (clock : Q) (reading : nat) : datetime :=
  {| year := 2024; month := 11; day := 5; time_of_day := clock |}.

Definition names_not_null (d : database Q) : bool :=
  forallb (fun row => match Stock.name row with PNone => false | _ => true end)
          (stocks d).

Definition empty_database : database Q :=
  {| stocks := []; prices := []; fundamentals := [];
     next_stock_id := 1; next_price_id := 1; next_fundamental_id := 1 |}.

Definition state_of_replies (replies : list Fetcher.reply) : state Q :=
  {| env := Samples.world_of replies; db := empty_database |}.

Definition apple (name : string) (market_cap : Z) : Stock.t :=
  {| Stock.id := None;
     Stock.ticker := "AAPL";
     Stock.name := PStr name;
     Stock.sector := PStr "Technology";
     Stock.market_cap := Some market_cap |}.

Definition overview : gmap string pyval :=
  <["Name" := PStr "Apple Inc."]>
    (<["Sector" := PStr "Technology"]>
       (<["MarketCapitalization" := PStr "3000000000000"]> ∅)).

Definition quote : gmap string pyval :=
  <["Global Quote" :=
      PDict (<["05. price" := PStr "150"]> (<["06. volume" := PStr "1000000"]> ∅))]> ∅.

End PipelineSamples.

(** * Vocabulary of the further properties *)

(** The answers of [acquire] to a list of calls [(now, n)] replayed on
    a bucket. *)
Module Replay.
Import RateLimiter.

Fixpoint answers (self : TokenBucketRateLimiter) (calls : list (Q * Z))
  : list bool :=
  match calls with
  | [] => []
  | (now, n) :: rest =>
      fst (acquire now n self) :: answers (snd (acquire now n self)) rest
  end.

End Replay.

(** Statements with a condition before and a condition after. *)
Module Hoare.
Import Py Eff.

(** From a state in [P], [m] ends in a state and with a result in [Q]. *)
Definition hoare {S A} (P : S -> Prop) (m : M S A)
    (Q : res A -> S -> Prop) : Prop :=
  forall s, P s -> Q (result_of (m s)) (state_of (m s)).

(** [m] changes no state and has fuel enough; [m] changes no state and
    returns. *)
Definition quiet {S A} (m : M S A) : Prop :=
  forall s, state_of (m s) = s /\ result_of (m s) <> OutOfFuel.

Definition returns {S A} (m : M S A) : Prop :=
  forall s, state_of (m s) = s /\ exists a, result_of (m s) = Ret a.

End Hoare.

(** The replies of the fourth branch of [request_once]: status 200 and a
    body with neither of the two fields. *)
Module Replies.
Import Py Eff Fetcher.

Definition plain_reply (r : reply) : bool :=
  match r with
  | Responds r =>
      (status_code r =? 200) && negb (contains (json r) "Error Message")
      && negb (contains (json r) "Note")
  | Fails _ => false
  end.

(** The exceptions that neither [except] clause of [_make_request]
    names. *)
Definition unhandled (e : exn) : bool :=
  match e with
  | Timeout | RequestException => false
  | _ => true
  end.

End Replies.

(** What the schema of [models.py] asks of the tables, and what a run
    may do to them. *)
Module Integrity.

Definition id_ticker (row : Stock.t) : option Z * string :=
  (Stock.id row, Stock.ticker row).

(** The unique constraint on [ticker], and ids drawn from the sequence. *)
Definition stocks_wf {float} (d : database float) : Prop :=
  NoDup (Stock.ticker <$> stocks d) /\
  Forall (fun row => exists i, Stock.id row = Some i /\ i < next_stock_id d)
         (stocks d).

(** The foreign keys [prices.stock_id] and [fundamentals.stock_id]. *)
Definition has_stock {float} (d : database float) (id : Z) : Prop :=
  Some id ∈ (Stock.id <$> stocks d).

Definition refs_ok {float} (d : database float) : Prop :=
  Forall (fun p => has_stock d (Price.stock_id p)) (prices d) /\
  Forall (fun f => has_stock d (Fundamental.stock_id f)) (fundamentals d).

(** [d'] has every row of [d] in its place, with the id and the ticker
    it had for a row of [stocks], unchanged for the other two tables. *)
Definition grows {float} (d d' : database float) : Prop :=
  (id_ticker <$> stocks d) `prefix_of` (id_ticker <$> stocks d') /\
  prices d `prefix_of` prices d' /\
  fundamentals d `prefix_of` fundamentals d'.

(** What a run keeps, seen from the database [d0] it started on: the
    rows of [d0] are still there, and the constraints hold if they held
    on [d0]. *)
Definition kept {float} (d0 d : database float) : Prop :=
  grows d0 d /\ (stocks_wf d0 /\ refs_ok d0 -> stocks_wf d /\ refs_ok d).

End Integrity.

(** What the steps of [process_single_stock] keep, on a state reached
    from the database [d0]: the tables, and after the load of the
    entity also the row it went into. *)
Module Keeps.
Import Integrity.

Definition tables_kept {float} (d0 : database float)
    (s : Pipeline.state float) : Prop :=
  kept d0 (Pipeline.db s).

Definition row_kept {float} (d0 : database float) (symbol : string) (id : Z)
    (s : Pipeline.state float) : Prop :=
  kept d0 (Pipeline.db s) /\
  has_stock (Pipeline.db s) id /\
  symbol ∈ (Stock.ticker <$> stocks (Pipeline.db s)).

End Keeps.

(** * The connectivity check ([health_check.py]) *)

Module HealthCheck.
Import Py Eff.

(** The two settings the script reads. *)
Record settings : Type := mkSettings {
  database_url : string;
  redis_url : string
}.

(** What the two servers do: [psycopg2.connect] and [conn.close] for
    the first, [redis.from_url] followed by [ping] for the second. *)
Record backends : Type := mkBackends {
  connect : result unit;
  close : result unit;
  ping : result unit
}.

Definition check_postgres_connection (cfg : settings) : M backends bool :=
  try_except
    (let* b := read in
     of_result (connect b) >>
     print "PostgreSQL connected: {}" [AStr (database_url cfg)] >>
     of_result (close b) >>
     ret true)
    (fun e => print "PostgreSQL failed: {}" [AExn e] >> ret false).

Definition check_redis_connection (cfg : settings) : M backends bool :=
  try_except
    (let* b := read in
     of_result (ping b) >>
     print "Redis connected: {}" [AStr (redis_url cfg)] >>
     ret true)
    (fun e => print "Redis failed: {}" [AExn e] >> ret false).

(** The script.  [sys.exit(n)] raises [SystemExit], which is no
    [Exception] and passes the [except] clause: leaving by it is the
    value [Some n], reaching the end of the script is [None]. *)
Definition main (cfg : settings) : M backends (option Z) :=
  print "Running System check for external services connection" [] >>
  try_except
    (let* postgres := check_postgres_connection cfg in
     let* both :=
       if postgres then check_redis_connection cfg else ret false in
     if both then print "Run complete" [] >> ret (Some 0)
     else ret (Some 1))
    (fun e => print "{}" [AExn e] >> ret None).

(** The lines about Redis among the events. *)
Fixpoint redis_lines (evs : list event) : list event :=
  match evs with
  | [] => []
  | Print text args :: evs' =>
      if String.prefix "Redis" text
      then Print text args :: redis_lines evs'
      else redis_lines evs'
  | _ :: evs' => redis_lines evs'
  end.

Definition all_up (b : backends) : bool :=
  match connect b, close b, ping b with
  | Ok _, Ok _, Ok _ => true
  | _, _, _ => false
  end.

End HealthCheck.

(** * Part two: the properties *)

Module RateLimiterFacts.
Import RateLimiter.

Lemma inject_Z_nonneg (z : Z) : 0 <= z -> (0 <= inject_Z z)%Q.
Proof. intros H. unfold Qle; simpl. lia. Qed.

Lemma inject_Z_pos (z : Z) : 0 < z -> (0 < inject_Z z)%Q.
Proof. intros H. unfold Qlt; simpl. lia. Qed.

Lemma inject_Z_nonpos (z : Z) : z <= 0 -> (inject_Z z <= 0)%Q.
Proof. intros H. unfold Qle; simpl. lia. Qed.

Lemma refill_ok (t now : Q) (self : TokenBucketRateLimiter) :
  bucket_ok t self -> (t <= now)%Q -> bucket_ok now (_refill now self).
Proof.
  intros [Hc Hr Ht [Hlo Hhi]] Hnow.
  assert (0 <= (now - last_refill_time self) * refill_rate self)%Q as Hadd.
  { apply Qmult_le_0_compat; [lra | exact Hr]. }
  split; simpl; try done; try lra.
  split; simpl.
  - apply Q.min_glb; [now apply inject_Z_nonneg | lra].
  - apply Q.le_min_l.
Qed.

Lemma acquire_ok (t now : Q) (n : Z) (self : TokenBucketRateLimiter) :
  bucket_ok t self -> (t <= now)%Q -> 0 < n ->
  bucket_ok now (snd (acquire now n self)).
Proof.
  intros Hok Hnow Hn.
  pose proof (refill_ok t now self Hok Hnow) as [Hc Hr Ht [Hlo Hhi]].
  pose proof (inject_Z_pos n Hn) as Hpos.
  unfold acquire.
  destruct (Qle_bool (inject_Z n) (tokens (_refill now self))) eqn:Hle.
  - apply Qle_bool_iff in Hle.
    split; [exact Hc | exact Hr | exact Ht |].
    split; cbn [snd tokens max_tokens] in *; lra.
  - split; [exact Hc | exact Hr | exact Ht |]. split; assumption.
Qed.

Lemma observations_ok (calls : list (Q * Z)) :
  forall (t : Q) (self : TokenBucketRateLimiter),
    bucket_ok t self ->
    nondecreasing_from t calls ->
    Forall (fun c => 0 < snd c) calls ->
    Forall (fun b => in_bounds b /\ max_tokens b = max_tokens self)
           (observations self calls).
Proof.
  induction calls as [|[now n] rest IH]; intros t self Hok Hmono Hpos.
  - constructor.
  - destruct Hmono as [Hnow Hrest].
    inversion Hpos as [|? ? Hn Hpos']; subst. simpl in Hn.
    pose proof (acquire_ok t now n self Hok Hnow Hn) as Hafter.
    assert (max_tokens (snd (acquire now n self)) = max_tokens self) as Hcap.
    { unfold acquire. now destruct (Qle_bool _ _). }
    cbn [observations].
    constructor; [|constructor].
    + split; [apply (refill_ok t now self Hok Hnow) | reflexivity].
    + split; [apply Hafter | exact Hcap].
    + specialize (IH now _ Hafter Hrest Hpos').
      eapply Forall_impl; [exact IH|].
      intros b [Hb Hb']. split; [exact Hb | congruence].
Qed.

(** C4.  A bucket created with capacity [C > 0] and refill rate
    [r >= 0] and then driven by any list of [acquire(n)] calls with
    [n > 0] at clock readings that never go back holds between [0] and
    [C] tokens at every observation point: at creation, after the refill
    of every call and after every call. *)
Theorem bucket_bounds_at_every_observation
    (C : Z) (r t0 : Q) (calls : list (Q * Z)) :
  0 < C ->
  (0 <= r)%Q ->
  nondecreasing_from t0 calls ->
  Forall (fun c => 0 < snd c) calls ->
  Forall (fun b => (0 <= tokens b)%Q /\ (tokens b <= inject_Z C)%Q)
         (__init__ t0 C r :: observations (__init__ t0 C r) calls).
Proof.
  intros HC Hr Hmono Hpos.
  assert (bucket_ok t0 (__init__ t0 C r)) as Hinit.
  { split; simpl; [lia | exact Hr | lra |].
    split; simpl; [apply inject_Z_nonneg; lia | lra]. }
  constructor.
  - destruct Hinit as [_ _ _ [Hlo Hhi]]. split; [exact Hlo | exact Hhi].
  - eapply Forall_impl; [exact (observations_ok calls t0 _ Hinit Hmono Hpos)|].
    intros b [[Hlo Hhi] Hcap]. simpl in Hcap. rewrite Hcap in Hhi. now split.
Qed.


End RateLimiterFacts.

(** * Facts on statements *)

Module EffFacts.
Import Py Eff.

Section Laws.
Context {S A B : Type}.
Implicit Types (m : M S A) (k : A -> M S B) (s : S).

Lemma bind_ret_eq m k s a s1 t1 :
  m s = (Ret a, s1, t1) -> bind m k s = preceded_by t1 (k a s1).
Proof.
  intros H. unfold bind, preceded_by, result_of, state_of, events_of.
  rewrite H. now destruct (k a s1) as [[r s2] t2].
Qed.

Lemma bind_raise_eq m k s e s1 t1 :
  m s = (Raise e, s1, t1) -> bind m k s = (Raise e, s1, t1).
Proof. intros H. unfold bind. now rewrite H. Qed.

Lemma bind_fuel_eq m k s s1 t1 :
  m s = (OutOfFuel, s1, t1) -> bind m k s = (OutOfFuel, s1, t1).
Proof. intros H. unfold bind. now rewrite H. Qed.

Lemma try_ret_eq m (h : exn -> M S A) s a s1 t1 :
  m s = (Ret a, s1, t1) -> try_except m h s = (Ret a, s1, t1).
Proof. intros H. unfold try_except. now rewrite H. Qed.

Lemma try_raise_eq m (h : exn -> M S A) s e s1 t1 :
  m s = (Raise e, s1, t1) -> try_except m h s = preceded_by t1 (h e s1).
Proof.
  intros H. unfold try_except, preceded_by, result_of, state_of, events_of.
  rewrite H. now destruct (h e s1) as [[r s2] t2].
Qed.

Lemma try_fuel_eq m (h : exn -> M S A) s s1 t1 :
  m s = (OutOfFuel, s1, t1) -> try_except m h s = (OutOfFuel, s1, t1).
Proof. intros H. unfold try_except. now rewrite H. Qed.

End Laws.

Lemma preceded_by_twice {S A} e1 e2 (x : res A * S * list event) :
  preceded_by e1 (preceded_by e2 x) = preceded_by (e1 ++ e2) x.
Proof.
  destruct x as [[r s] t]. unfold preceded_by; simpl. now rewrite app_assoc.
Qed.

(** ** Composing [safe] statements *)

Section Safe.
Context {S : Type} (I : S -> Prop).

Lemma safe_ret {A} (a : A) : safe I (ret a).
Proof. intros s Hs. split; [discriminate | exact Hs]. Qed.

Lemma safe_raise {A} (e : exn) : safe I (@raise S A e).
Proof. intros s Hs. split; [discriminate | exact Hs]. Qed.

Lemma safe_print text args : safe I (@print S text args).
Proof. intros s Hs. split; [discriminate | exact Hs]. Qed.

Lemma safe_read : safe I (@read S).
Proof. intros s Hs. split; [discriminate | exact Hs]. Qed.

Lemma safe_of_result {A} (r : result A) : safe I (@of_result S A r).
Proof. destruct r; [apply safe_ret | apply safe_raise]. Qed.

Lemma safe_bind {A B} (m : M S A) (k : A -> M S B) :
  safe I m -> (forall a, safe I (k a)) -> safe I (bind m k).
Proof.
  intros Hm Hk s Hs. destruct (Hm s Hs) as [Hr Hi].
  destruct (m s) as [[[a|e|] s1] t1] eqn:E; cbn in Hr, Hi.
  - rewrite (bind_ret_eq _ _ _ _ _ _ E).
    destruct (Hk a s1 Hi) as [Hr' Hi'].
    destruct (k a s1) as [[r2 s2] t2]. now split.
  - rewrite (bind_raise_eq _ _ _ _ _ _ E). now split.
  - now contradiction Hr.
Qed.

Lemma safe_try {A} (m : M S A) (h : exn -> M S A) :
  safe I m -> (forall e, safe I (h e)) -> safe I (try_except m h).
Proof.
  intros Hm Hh s Hs. destruct (Hm s Hs) as [Hr Hi].
  destruct (m s) as [[[a|e|] s1] t1] eqn:E; cbn in Hr, Hi.
  - rewrite (try_ret_eq _ _ _ _ _ _ E). now split.
  - rewrite (try_raise_eq _ _ _ _ _ _ E).
    destruct (Hh e s1 Hi) as [Hr' Hi'].
    destruct (h e s1) as [[r2 s2] t2]. now split.
  - now contradiction Hr.
Qed.

End Safe.

Lemma safe_zoom {S T A} (I : T -> Prop) (J : S -> Prop)
    (project : T -> S) (inject : S -> T -> T) (m : M S A) :
  safe J m ->
  (forall t, I t -> J (project t)) ->
  (forall s t, I t -> J s -> I (inject s t)) ->
  safe I (zoom project inject m).
Proof.
  intros Hm Hp Hi t Ht. destruct (Hm (project t) (Hp t Ht)) as [Hr Hj].
  unfold zoom. destruct (m (project t)) as [[r s] evs]; cbn in *.
  split; [exact Hr | now apply Hi].
Qed.

Lemma dealt_snoc_left {A} (x : A) l a b :
  dealt l a b -> dealt (l ++ [x]) (a ++ [x]) b.
Proof.
  induction 1; simpl; [repeat constructor | now constructor ..].
Qed.

Lemma dealt_snoc_right {A} (x : A) l a b :
  dealt l a b -> dealt (l ++ [x]) a (b ++ [x]).
Proof.
  induction 1; simpl; [repeat constructor | now constructor ..].
Qed.

Lemma dealt_Permutation {A} (l a b : list A) :
  dealt l a b -> a ++ b ≡ₚ l.
Proof.
  induction 1; simpl.
  - reflexivity.
  - now constructor.
  - rewrite <- Permutation_middle. now constructor.
Qed.

End EffFacts.

(** * Facts on the fetcher *)

Module FetcherFacts.
Import Py Eff Fetcher EffFacts.

Lemma later_ok (w : world) (d : Q) :
  fetcher_ok w -> (0 <= d)%Q -> fetcher_ok (later d w).
Proof.
  intros [[Hc Hr Ht Hb] Hm Hf] Hd.
  split; [split|..]; cbn; try assumption. lra.
Qed.

Lemma one_more_sent_ok (w : world) : fetcher_ok w -> fetcher_ok (one_more_sent w).
Proof.
  intros [[Hc Hr Ht Hb] Hm Hf].
  assert (0 <= Z.of_N (elapsed w (sent w)) # 1000000)%Q.
  { unfold Qle; cbn. lia. }
  split; [split|..]; cbn; try assumption. lra.
Qed.

Lemma acquire_keeps_settings now n b :
  RateLimiter.max_tokens (snd (RateLimiter.acquire now n b)) = RateLimiter.max_tokens b /\
  RateLimiter.refill_rate (snd (RateLimiter.acquire now n b)) = RateLimiter.refill_rate b.
Proof. unfold RateLimiter.acquire. now destruct (Qle_bool _ _). Qed.

Lemma acquire_denied now n b :
  fst (RateLimiter.acquire now n b) = false ->
  snd (RateLimiter.acquire now n b) = RateLimiter._refill now b /\
  (RateLimiter.tokens (RateLimiter._refill now b) < inject_Z n)%Q.
Proof.
  unfold RateLimiter.acquire.
  destruct (Qle_bool _ _) eqn:E; [discriminate|]. intros _. split; [reflexivity|].
  apply Qnot_le_lt. intros H. apply Qle_bool_iff in H. congruence.
Qed.

Lemma with_bucket_ok (w : world) :
  fetcher_ok w ->
  fetcher_ok
    (with_bucket (snd (RateLimiter.acquire (clock w) 1 (rate_limiter (fetcher w)))) w).
Proof.
  intros [Hb Hm Hf].
  destruct (acquire_keeps_settings (clock w) 1 (rate_limiter (fetcher w))) as [E1 E2].
  split; cbn.
  - apply (RateLimiterFacts.acquire_ok (clock w)); [exact Hb | lra | lia].
  - congruence.
  - congruence.
Qed.

(** One turn of the wait loop. *)
Lemma wait_unfold (fuel : nat) (w : world) :
  let granted_bucket := RateLimiter.acquire (clock w) 1 (rate_limiter (fetcher w)) in
  wait_for_token (S fuel) w =
  if fst granted_bucket
  then (Ret tt, with_bucket (snd granted_bucket) w, [])
  else preceded_by [Sleep Poll (1 # 2)]
         (wait_for_token fuel (later (1 # 2) (with_bucket (snd granted_bucket) w))).
Proof.
  cbn zeta. cbn [wait_for_token]. unfold bind at 1. unfold rate_limiter_acquire.
  destruct (fst (RateLimiter.acquire _ _ _)).
  - reflexivity.
  - unfold bind, sleep, preceded_by, result_of, state_of, events_of.
    now destruct (wait_for_token fuel _) as [[[a|e|] s2] t2].
Qed.

(** Whatever the bucket and the fuel, a wait only polls, and touches
    nothing but the clock and the bucket. *)
Lemma wait_frame (fuel : nat) :
  forall w : world,
    same_outside w (state_of (wait_for_token fuel w)) /\
    sent (state_of (wait_for_token fuel w)) = sent w /\
    polling (events_of (wait_for_token fuel w)) /\
    (result_of (wait_for_token fuel w) = Ret tt \/
     result_of (wait_for_token fuel w) = OutOfFuel).
Proof.
  induction fuel as [|fuel IH]; intros w.
  - cbn. repeat split; [constructor | now right].
  - rewrite wait_unfold.
    destruct (fst (RateLimiter.acquire _ _ _)).
    + cbn. repeat split; [constructor | now left].
    + specialize (IH (later (1 # 2) (with_bucket
        (snd (RateLimiter.acquire (clock w) 1 (rate_limiter (fetcher w)))) w))).
      destruct (wait_for_token fuel _) as [[r s] t].
      destruct IH as [[H1 [H2 H3]] [H4 [H5 H6]]]. cbn in *.
      repeat split; try assumption. now constructor.
Qed.

Lemma refill_again (t1 t2 : Q) (b : RateLimiter.TokenBucketRateLimiter) :
  RateLimiter.tokens (RateLimiter._refill t2 (RateLimiter._refill t1 b))
  = Qmin (inject_Z (RateLimiter.max_tokens b))
         (RateLimiter.tokens (RateLimiter._refill t1 b)
          + (t2 - t1) * RateLimiter.refill_rate b)%Q.
Proof. reflexivity. Qed.

Lemma inject_nat_succ (k : nat) :
  (inject_Z (Z.of_nat (S k)) == inject_Z (Z.of_nat k) + 1)%Q.
Proof. rewrite Nat2Z.inj_succ. unfold Z.succ. now rewrite inject_Z_plus. Qed.

(** The bucket of the fetcher gains a token every twelve seconds, a
    twenty-fourth of one every poll: with [k] polls to go the wait ends
    once [k / 24] covers what is missing. *)
Lemma wait_succeeds (k : nat) :
  forall (w : world) (fuel : nat),
    fetcher_ok w ->
    (1 <= RateLimiter.tokens
            (RateLimiter._refill (clock w) (rate_limiter (fetcher w)))
          + inject_Z (Z.of_nat k) * (1 # 24))%Q ->
    (k < fuel)%nat ->
    result_of (wait_for_token fuel w) = Ret tt /\
    fetcher_ok (state_of (wait_for_token fuel w)).
Proof.
  induction k as [|k IH]; intros w fuel Hok Hneed Hfuel;
    (destruct fuel as [|fuel]; [lia|]); rewrite wait_unfold;
    destruct (fst (RateLimiter.acquire _ _ _)) eqn:Hacq;
    try (split; [reflexivity | now apply with_bucket_ok]).
  - exfalso. apply acquire_denied in Hacq as [_ Hlt].
    change (inject_Z 1) with 1%Q in Hlt.
    change (inject_Z (Z.of_nat 0)) with 0%Q in Hneed. lra.
  - pose proof Hacq as Hden. apply acquire_denied in Hden as [Hsnd Hlt].
    change (inject_Z 1) with 1%Q in Hlt.
    set (w1 := later (1 # 2) (with_bucket
       (snd (RateLimiter.acquire (clock w) 1 (rate_limiter (fetcher w)))) w)).
    assert (fetcher_ok w1) as Hok1.
    { apply later_ok; [now apply with_bucket_ok | lra]. }
    specialize (IH w1 fuel Hok1).
    destruct Hok as [Hb Hm Hf].
    assert (0 <= RateLimiter.tokens
                   (RateLimiter._refill (clock w) (rate_limiter (fetcher w))))%Q as Hnonneg.
    { apply (RateLimiterFacts.refill_ok (clock w)); [exact Hb | lra]. }
    destruct IH as [Hr Hi]; [| lia |].
    + subst w1. cbn [clock later with_bucket fetcher rate_limiter]. rewrite Hsnd.
      rewrite refill_again, Hm, Hf. rewrite inject_nat_succ in Hneed.
      assert (0 <= inject_Z (Z.of_nat k))%Q as Hk.
      { apply RateLimiterFacts.inject_Z_nonneg. lia. }
      change (inject_Z 5) with 5%Q.
      set (T := RateLimiter.tokens _) in *.
      destruct (Q.min_spec 5 (T + (clock w + (1 # 2) - clock w) * (5 # 60)))
        as [[_ ->]|[_ ->]]; lra.
    + destruct (wait_for_token fuel w1) as [[r s] t]. cbn in *. now split.
Qed.

(** With twenty-five polls at hand, the wait for a token ends. *)
Lemma wait_returns (fuel : nat) (w : world) :
  fetcher_ok w -> (25 <= fuel)%nat ->
  exists w1 polls,
    wait_for_token fuel w = (Ret tt, w1, polls) /\
    fetcher_ok w1 /\ same_outside w w1 /\ sent w1 = sent w /\ polling polls.
Proof.
  intros Hok Hfuel.
  destruct (wait_succeeds 24 w fuel Hok) as [Hr Hi]; [|lia|].
  - destruct Hok as [Hb Hm Hf].
    assert (0 <= RateLimiter.tokens
                   (RateLimiter._refill (clock w) (rate_limiter (fetcher w))))%Q.
    { apply (RateLimiterFacts.refill_ok (clock w)); [exact Hb | lra]. }
    change (inject_Z (Z.of_nat 24)) with 24%Q. lra.
  - destruct (wait_frame fuel w) as [Hs [Hn [Hp _]]].
    destruct (wait_for_token fuel w) as [[r s] t]. cbn in *. subst r.
    now exists s, t.
Qed.

(** ** One request *)

Lemma contains_get (data : gmap string pyval) (key : string) :
  contains data key = true ->
  exists v, data !! key = Some v /\ get data key PNone = v.
Proof.
  unfold contains, get. intros H. apply bool_decide_eq_true in H as [v Hv].
  exists v. now rewrite Hv.
Qed.

(** The error payload: one line, and the [return None]. *)
Lemma request_once_error (params : positive) (attempt : Z) (w : world) :
  error_reply (network w (sent w)) = true ->
  exists r msg,
    network w (sent w) = Responds r /\
    json r !! "Error Message" = Some msg /\
    request_once params attempt w
    = (Ret (Return None), one_more_sent w,
       [sent_request params w; Print "API Error: {}" [AVal msg]]).
Proof.
  unfold error_reply. destruct (network w (sent w)) as [e|r] eqn:Hnet; [discriminate|].
  intros H. apply andb_prop in H as [Hst Herr].
  destruct (contains_get _ _ Herr) as [msg [Hmsg Hget]].
  exists r, msg. repeat split; [exact Hmsg|].
  unfold request_once, try_except, bind, requests_get. rewrite Hnet, Hst, Herr.
  cbn. now rewrite Hget.
Qed.

(** The throttle notice: one line, sixty seconds, and the [continue]. *)
Lemma request_once_notice (params : positive) (attempt : Z) (w : world) :
  notice_reply (network w (sent w)) = true ->
  exists r note,
    network w (sent w) = Responds r /\
    json r !! "Note" = Some note /\
    request_once params attempt w
    = (Ret Continue, later 60 (one_more_sent w),
       [sent_request params w;
        Print "Rate limit warning: {}" [AVal note];
        Sleep Cooldown 60]).
Proof.
  unfold notice_reply. destruct (network w (sent w)) as [e|r] eqn:Hnet; [discriminate|].
  intros H. apply andb_prop in H as [H Hnote]. apply andb_prop in H as [Hst Herr].
  apply negb_true_iff in Herr.
  destruct (contains_get _ _ Hnote) as [note [Hn Hget]].
  exists r, note. repeat split; [exact Hn|].
  unfold request_once, try_except, bind, requests_get. rewrite Hnet, Hst, Herr, Hnote.
  cbn. now rewrite Hget.
Qed.

(** A time-out, a request error or a status other than 200: one line,
    and on to the backoff. *)
Lemma request_once_backoff (params : positive) (attempt : Z) (w : world) :
  backoff_reply (network w (sent w)) = true ->
  request_once params attempt w
  = (Ret Fallthrough, one_more_sent w,
     [sent_request params w; failure_line attempt (network w (sent w))]).
Proof.
  unfold backoff_reply, failure_line.
  destruct (network w (sent w)) as [e|r] eqn:Hnet.
  - destruct e; try discriminate; intros _;
      unfold request_once, try_except, bind, requests_get; now rewrite Hnet.
  - intros H. apply negb_true_iff in H.
    unfold request_once, try_except, bind, requests_get. rewrite Hnet, H.
    now destruct (status_code r =? 429).
Qed.

#[local] Ltac split_any :=
  split; [done|]; split; [done|]; split; [done|];
  split; [|split; [done|]; split; done].

(** Whatever the reply, an attempt sends one request with the
    dictionary as it stands, sleeps outside the cooldown never, and
    changes the clock and the count of requests only. *)
Lemma request_once_any (params : positive) (attempt : Z) (w : world) :
  let x := request_once params attempt w in
  result_of x <> OutOfFuel /\
  same_outside w (state_of x) /\
  sent (state_of x) = S (sent w) /\
  (fetcher_ok w -> fetcher_ok (state_of x)) /\
  remote_calls (events_of x) = [default ∅ (heap w !! params)] /\
  sleeps Backoff (events_of x) = [] /\
  sleeps Poll (events_of x) = [].
Proof.
  cbn zeta.
  destruct (error_reply (network w (sent w))) eqn:Herr.
  { destruct (request_once_error params attempt w Herr) as [r [msg [_ [_ ->]]]].
    cbn. split_any. apply one_more_sent_ok. }
  destruct (notice_reply (network w (sent w))) eqn:Hnote.
  { destruct (request_once_notice params attempt w Hnote) as [r [note [_ [_ ->]]]].
    cbn. split_any. intros H. apply later_ok; [now apply one_more_sent_ok | lra]. }
  destruct (backoff_reply (network w (sent w))) eqn:Hback.
  { rewrite (request_once_backoff params attempt w Hback).
    assert (exists text args, failure_line attempt (network w (sent w)) = Print text args)
      as [text [args ->]].
    { unfold failure_line. destruct (network w (sent w)) as [[]|r]; eauto.
      destruct (status_code r =? 429); eauto. }
    cbn. split_any. apply one_more_sent_ok. }
  unfold error_reply, notice_reply, backoff_reply in *.
  unfold request_once, try_except, bind, requests_get.
  destruct (network w (sent w)) as [e|r].
  - destruct e; try discriminate; cbn; split_any; apply one_more_sent_ok.
  - apply negb_false_iff in Hback. rewrite Hback in *. cbn in Herr, Hnote.
    rewrite Herr in *. cbn in Hnote. rewrite Hnote.
    cbn. split_any. apply one_more_sent_ok.
Qed.

(** ** The loop *)

Lemma sleeps_app (why : wait) (e1 e2 : list event) :
  sleeps why (e1 ++ e2) = sleeps why e1 ++ sleeps why e2.
Proof.
  induction e1 as [|[[] d| |] e1 IH]; cbn; try exact IH;
    destruct why; cbn; now rewrite ?IH.
Qed.

Lemma remote_calls_app (e1 e2 : list event) :
  remote_calls (e1 ++ e2) = remote_calls e1 ++ remote_calls e2.
Proof. induction e1 as [|[] e1 IH]; cbn; now rewrite ?IH. Qed.

Lemma polling_quiet (polls : list event) :
  polling polls ->
  remote_calls polls = [] /\ sleeps Backoff polls = [] /\ sleeps Cooldown polls = [].
Proof. induction 1 as [|e l He _ IH]; [done|]. subst e. exact IH. Qed.

(** One turn of the [for] loop, by how the wait and the [try] end. *)
Lemma attempts_cons (fuel : nat) (params : positive) (attempt : Z)
    (todo : list Z) (w : world) :
  attempts fuel params (attempt :: todo) w =
  match wait_for_token fuel w with
  | (Ret _, w1, polls) =>
      preceded_by polls
        match request_once params attempt w1 with
        | (Ret (Return data), w2, evs) => (Ret data, w2, evs)
        | (Ret Continue, w2, evs) =>
            preceded_by evs (attempts fuel params todo w2)
        | (Ret Fallthrough, w2, evs) =>
            let delay := base_delay * 2 ^ attempt in
            preceded_by
              (evs ++ [Print "Retrying in {} seconds... (attempt {}/{})"
                         [AInt delay; AInt (attempt + 1); AInt max_retries];
                       Sleep Backoff (inject_Z delay)])
              (attempts fuel params todo (later (inject_Z delay) w2))
        | (Raise e, w2, evs) => (Raise e, w2, evs)
        | (OutOfFuel, w2, evs) => (OutOfFuel, w2, evs)
        end
  | (Raise e, w1, polls) => (Raise e, w1, polls)
  | (OutOfFuel, w1, polls) => (OutOfFuel, w1, polls)
  end.
Proof.
  cbn [attempts]. unfold bind at 1.
  destruct (wait_for_token fuel w) as [[[[]|e|] w1] polls]; try reflexivity.
  unfold bind at 1.
  destruct (request_once params attempt w1) as [[[[data| |]|e|] w2] evs];
    try reflexivity.
  - cbn. now rewrite app_nil_r.
  - unfold preceded_by, result_of, state_of, events_of.
    destruct (attempts fuel params todo w2) as [[r w3] t3]. reflexivity.
  - cbn zeta. unfold bind, print, emit, sleep.
    unfold preceded_by, result_of, state_of, events_of.
    destruct (attempts fuel params todo (later _ w2)) as [[r w3] t3].
    cbn. now rewrite <- !app_assoc.
Qed.

(** Whatever the replies, the bucket and the fuel: the loop leaves the
    dictionaries alone, sends every request with the dictionary of the
    caller as it found it, and sends at most one per attempt. *)
Lemma attempts_frame (fuel : nat) (params : positive) (todo : list Z) :
  forall w : world,
    let x := attempts fuel params todo w in
    same_outside w (state_of x) /\
    Forall (fun q => q = default ∅ (heap w !! params)) (remote_calls (events_of x)) /\
    (length (remote_calls (events_of x)) <= length todo)%nat.
Proof.
  induction todo as [|attempt todo IH]; intros w; cbn zeta.
  - cbn. repeat split; [constructor | lia].
  - rewrite attempts_cons.
    destruct (wait_frame fuel w) as [[Hh [Hn Hk]] [Hs [Hp _]]].
    destruct (wait_for_token fuel w) as [[r w1] polls]. cbn in Hh, Hn, Hk, Hs, Hp.
    destruct (polling_quiet polls Hp) as [Hq _].
    destruct r as [[]|e|];
      [| cbn; rewrite Hq; (split; [done|split; [constructor | cbn; lia]]) ..].
    destruct (request_once_any params attempt w1) as [_ [[Hh2 [Hn2 Hk2]] [Hs2 [_ [Hc _]]]]].
    destruct (request_once params attempt w1) as [[r2 w2] evs].
    cbn in Hh2, Hn2, Hk2, Hs2, Hc. rewrite Hh in Hc.
    assert (same_outside w w2) as Hout by (repeat split; congruence).
    destruct r2 as [[data| |]|e|]; cbn zeta.
    + cbn. rewrite remote_calls_app, Hq, Hc. cbn. repeat split; try apply Hout.
      * now repeat constructor.
      * lia.
    + specialize (IH w2). cbn zeta in IH.
      destruct (attempts fuel params todo w2) as [[r3 w3] t3].
      destruct IH as [[Hh3 [Hn3 Hk3]] [Hf3 Hl3]]. cbn in *.
      rewrite !remote_calls_app, Hq, Hc. cbn.
      repeat split; try congruence.
      * constructor; [done|]. eapply Forall_impl; [exact Hf3|]. cbn. congruence.
      * lia.
    + specialize (IH (later (inject_Z (base_delay * 2 ^ attempt)) w2)). cbn zeta in IH.
      destruct (attempts fuel params todo _) as [[r3 w3] t3].
      destruct IH as [[Hh3 [Hn3 Hk3]] [Hf3 Hl3]]. cbn in *.
      rewrite !remote_calls_app, Hq, Hc. cbn.
      repeat split; try congruence.
      * constructor; [done|]. eapply Forall_impl; [exact Hf3|]. cbn. congruence.
      * lia.
    + cbn. rewrite remote_calls_app, Hq, Hc. cbn. repeat split; try apply Hout.
      * now repeat constructor.
      * lia.
    + cbn. rewrite remote_calls_app, Hq, Hc. cbn. repeat split; try apply Hout.
      * now repeat constructor.
      * lia.
Qed.

Lemma backoff_delay_nonneg (attempt : Z) :
  (0 <= inject_Z (base_delay * 2 ^ attempt))%Q.
Proof.
  apply RateLimiterFacts.inject_Z_nonneg. unfold base_delay.
  pose proof (Z.pow_nonneg 2 attempt). lia.
Qed.

(** With the bucket of the fetcher and twenty-five polls per wait, the
    loop ends by itself, and leaves the bucket as it should be. *)
Lemma attempts_safe (fuel : nat) (params : positive) (todo : list Z) :
  (25 <= fuel)%nat -> safe fetcher_ok (attempts fuel params todo).
Proof.
  intros Hfuel. induction todo as [|attempt todo IH]; intros w Hok.
  - cbn. now split.
  - rewrite attempts_cons.
    destruct (wait_returns fuel w Hok Hfuel) as [w1 [polls [-> [Hok1 _]]]].
    destruct (request_once_any params attempt w1) as [Hr [_ [_ [Hok2 _]]]].
    specialize (Hok2 Hok1).
    destruct (request_once params attempt w1) as [[r2 w2] evs]. cbn in Hr, Hok2.
    destruct r2 as [[data| |]|e|]; cbn zeta; try (cbn; now split).
    + destruct (IH w2 Hok2) as [H1 H2].
      destruct (attempts fuel params todo w2) as [[r3 w3] t3]. now split.
    + assert (fetcher_ok (later (inject_Z (base_delay * 2 ^ attempt)) w2)) as Hok3.
      { apply later_ok; [exact Hok2 | apply backoff_delay_nonneg]. }
      destruct (IH _ Hok3) as [H1 H2].
      destruct (attempts fuel params todo _) as [[r3 w3] t3]. now split.
Qed.

(** When every reply is a failure of the backoff kind, the loop goes
    through all its attempts: one request and one delay for each. *)
Lemma attempts_all_backoff (fuel : nat) (params : positive) (todo : list Z) :
  (25 <= fuel)%nat ->
  forall w : world,
    fetcher_ok w ->
    (forall k, (k < length todo)%nat ->
               backoff_reply (network w (sent w + k)%nat) = true) ->
    let x := attempts fuel params todo w in
    result_of x = Ret None /\
    sleeps Backoff (events_of x)
    = (fun attempt => inject_Z (base_delay * 2 ^ attempt)) <$> todo /\
    sleeps Cooldown (events_of x) = [] /\
    length (remote_calls (events_of x)) = length todo.
Proof.
  intros Hfuel. induction todo as [|attempt todo IH]; intros w Hok Hnet; cbn zeta.
  - cbn. now repeat split.
  - rewrite attempts_cons.
    destruct (wait_returns fuel w Hok Hfuel)
      as [w1 [polls [-> [Hok1 [[Hh [Hn Hk]] [Hs Hp]]]]]].
    destruct (polling_quiet polls Hp) as [Hq1 [Hq2 Hq3]].
    assert (backoff_reply (network w1 (sent w1)) = true) as Hb.
    { rewrite Hn, Hs. specialize (Hnet 0%nat). rewrite Nat.add_0_r in Hnet.
      apply Hnet. cbn. lia. }
    rewrite (request_once_backoff params attempt w1 Hb). cbn zeta.
    set (w2 := later (inject_Z (base_delay * 2 ^ attempt)) (one_more_sent w1)).
    assert (fetcher_ok w2) as Hok2.
    { apply later_ok; [now apply one_more_sent_ok | apply backoff_delay_nonneg]. }
    specialize (IH w2 Hok2). cbn zeta in IH.
    assert (exists text args,
               failure_line attempt (network w1 (sent w1)) = Print text args)
      as [text [args ->]].
    { unfold failure_line. destruct (network w1 (sent w1)) as [[]|r]; eauto.
      destruct (status_code r =? 429); eauto. }
    destruct (attempts fuel params todo w2) as [[r3 w3] t3].
    destruct IH as [H1 [H2 [H3 H4]]].
    { intros k Hlt. subst w2. cbn. rewrite Hn, Hs.
      rewrite <- Nat.add_succ_r.
      apply Hnet. cbn. lia. }
    cbn in *.
    rewrite !sleeps_app, !remote_calls_app, Hq1, Hq2, Hq3. cbn.
    repeat split; (congruence || lia).
Qed.

(** ** The claims on [_make_request] *)

Lemma make_request_eq (fuel : nat) (params : positive) (w : world) :
  _make_request fuel params w
  = attempts fuel params (range max_retries)
      (with_item params "apikey" (api_key (fetcher w)) w).
Proof.
  unfold _make_request, bind, read, setitem.
  destruct (attempts fuel params (range max_retries) _) as [[r w1] evs].
  reflexivity.
Qed.

Lemma with_item_ok (params : positive) (key : string) (value : pyval) (w : world) :
  fetcher_ok w -> fetcher_ok (with_item params key value w).
Proof. intros [Hb Hm Hf]. now split. Qed.

Lemma make_request_safe (fuel : nat) (params : positive) :
  (25 <= fuel)%nat -> safe fetcher_ok (_make_request fuel params).
Proof.
  intros Hfuel w Hok. rewrite make_request_eq.
  apply attempts_safe; [exact Hfuel | now apply with_item_ok].
Qed.

(** C1 (as the code behaves).  The loop stands before attempt number
    [attempt], with the attempts [todo] after it; the wait for a token
    ends in a world [w1] after the polls [polls].  If the reply has
    status 200 and a body with the field ["Note"] and without the field
    ["Error Message"], the attempt prints the notice, sleeps the fixed 60
    seconds and goes straight on to the next attempt, with no
    exponential delay.  If the reply has status 429, the attempt prints
    two lines, sleeps the exponential delay [base_delay * 2 ^ attempt]
    and goes on to the next attempt, with no cooldown. *)
Theorem notice_cools_down_and_429_backs_off
    (fuel : nat) (params : positive) (attempt : Z) (todo : list Z) (w : world) :
  fetcher_ok w ->
  (25 <= fuel)%nat ->
  exists w1 polls,
    wait_for_token fuel w = (Ret tt, w1, polls) /\
    polling polls /\
    (notice_reply (network w (sent w)) = true ->
     exists note,
       attempts fuel params (attempt :: todo) w
       = preceded_by
           (polls ++ [sent_request params w;
                      Print "Rate limit warning: {}" [AVal note];
                      Sleep Cooldown 60])
           (attempts fuel params todo (later 60 (one_more_sent w1)))) /\
    (forall r,
       network w (sent w) = Responds r ->
       status_code r = 429 ->
       attempts fuel params (attempt :: todo) w
       = preceded_by
           (polls ++ [sent_request params w;
                      Print "Rate limited by API (429)" [];
                      Print "Retrying in {} seconds... (attempt {}/{})"
                            [AInt (base_delay * 2 ^ attempt);
                             AInt (attempt + 1); AInt max_retries];
                      Sleep Backoff (inject_Z (base_delay * 2 ^ attempt))])
           (attempts fuel params todo
              (later (inject_Z (base_delay * 2 ^ attempt)) (one_more_sent w1)))).
Proof.
  intros Hok Hfuel.
  destruct (wait_returns fuel w Hok Hfuel)
    as [w1 [polls [Hwait [Hok1 [[Hh [Hn Hk]] [Hs Hp]]]]]].
  assert (sent_request params w1 = sent_request params w) as Hreq.
  { unfold sent_request. now rewrite Hh. }
  exists w1, polls. split; [exact Hwait|]. split; [exact Hp|]. split.
  - intros Hnote. rewrite <- Hn, <- Hs in Hnote.
    destruct (request_once_notice params attempt w1 Hnote) as [r [note [_ [_ Hreq1]]]].
    exists note. rewrite attempts_cons, Hwait, Hreq1, Hreq.
    now rewrite preceded_by_twice.
  - intros r Hr H429.
    assert (backoff_reply (network w1 (sent w1)) = true) as Hb.
    { rewrite Hn, Hs, Hr. cbn. now rewrite H429. }
    rewrite attempts_cons, Hwait, (request_once_backoff params attempt w1 Hb).
    cbn zeta. rewrite preceded_by_twice, Hn, Hs, Hr, Hreq.
    unfold failure_line. rewrite H429. reflexivity.
Qed.

Lemma pauses_app (e1 e2 : list event) :
  pauses (e1 ++ e2) = pauses e1 ++ pauses e2.
Proof.
  induction e1 as [|[[] d| |] e1 IH]; cbn; congruence.
Qed.

Lemma polling_no_pause (polls : list event) : polling polls -> pauses polls = [].
Proof. induction 1 as [|e polls -> _ IH]; [reflexivity | exact IH]. Qed.

Lemma backoff_not_notice (r : reply) :
  backoff_reply r = true -> notice_reply r = false.
Proof.
  destruct r as [e|r]; [reflexivity|]. cbn.
  now destruct (status_code r =? 200).
Qed.

(** One turn of the loop on a reply that makes it go on: the request,
    the pause of that reply, and the attempts left, in a world where
    one more request has been sent. *)
Lemma attempts_retry_step (fuel : nat) (params : positive) (attempt : Z)
    (todo : list Z) (w : world) :
  (25 <= fuel)%nat ->
  fetcher_ok w ->
  retry_reply (network w (sent w)) = true ->
  exists w2 evs,
    attempts fuel params (attempt :: todo) w
    = preceded_by evs (attempts fuel params todo w2) /\
    fetcher_ok w2 /\ same_outside w w2 /\ sent w2 = S (sent w) /\
    pauses evs = [pause_after attempt (network w (sent w))] /\
    length (remote_calls evs) = 1%nat.
Proof.
  intros Hfuel Hok Hretry.
  destruct (wait_returns fuel w Hok Hfuel)
    as [w1 [polls [Hwait [Hok1 [[Hh [Hn Hk]] [Hs Hp]]]]]].
  destruct (polling_quiet polls Hp) as [Hq1 _].
  pose proof (polling_no_pause polls Hp) as Hq2.
  rewrite <- Hn, <- Hs in Hretry |- *.
  rewrite attempts_cons, Hwait.
  apply orb_prop in Hretry as [Hb|Hb].
  - rewrite (request_once_backoff params attempt w1 Hb). cbn zeta.
    rewrite preceded_by_twice.
    eexists _, _. split; [reflexivity|].
    split; [apply later_ok; [now apply one_more_sent_ok | apply backoff_delay_nonneg]|].
    split; [repeat split; cbn; assumption|].
    split; [cbn; now rewrite Hs|].
    assert (exists text args,
               failure_line attempt (network w1 (sent w1)) = Print text args)
      as [text [args ->]].
    { unfold failure_line. destruct (network w1 (sent w1)) as [[]|r]; eauto.
      destruct (status_code r =? 429); eauto. }
    unfold pause_after. rewrite (backoff_not_notice _ Hb).
    rewrite pauses_app, remote_calls_app, Hq1, Hq2. split; reflexivity.
  - destruct (request_once_notice params attempt w1 Hb) as [r [note [_ [_ ->]]]].
    rewrite preceded_by_twice.
    eexists _, _. split; [reflexivity|].
    split; [apply later_ok; [now apply one_more_sent_ok | lra]|].
    split; [repeat split; cbn; assumption|].
    split; [cbn; now rewrite Hs|].
    unfold pause_after. rewrite Hb.
    rewrite pauses_app, remote_calls_app, Hq1, Hq2. split; reflexivity.
Qed.

(** When every reply makes the loop go on, it goes through all its
    attempts: one request and one pause for each. *)
Lemma attempts_all_retried (fuel : nat) (params : positive) (todo : list Z) :
  (25 <= fuel)%nat ->
  forall w : world,
    fetcher_ok w ->
    (forall k, (k < length todo)%nat ->
               retry_reply (network w (sent w + k)%nat) = true) ->
    let x := attempts fuel params todo w in
    result_of x = Ret None /\
    pauses (events_of x) = schedule (network w) (sent w) todo /\
    length (remote_calls (events_of x)) = length todo.
Proof.
  intros Hfuel. induction todo as [|attempt todo IH]; intros w Hok Hnet; cbn zeta.
  - cbn. now repeat split.
  - assert (retry_reply (network w (sent w)) = true) as Hhead.
    { specialize (Hnet 0%nat). rewrite Nat.add_0_r in Hnet. apply Hnet. cbn. lia. }
    destruct (attempts_retry_step fuel params attempt todo w Hfuel Hok Hhead)
      as [w2 [evs [-> [Hok2 [[Hh [Hn Hk]] [Hs [Hpause Hcalls]]]]]]].
    specialize (IH w2 Hok2). cbn zeta in IH.
    destruct IH as [H1 [H2 H3]].
    { intros k Hlt. rewrite Hn, Hs. cbn. rewrite <- Nat.add_succ_r.
      apply Hnet. cbn. lia. }
    unfold preceded_by at 1 2 3. cbn [result_of state_of events_of fst snd].
    rewrite pauses_app, remote_calls_app, length_app, Hpause, Hcalls, H2, H3, Hn, Hs.
    split; [exact H1|]. split; reflexivity.
Qed.

(** The loop up to an error payload: the attempts [before] it go on,
    the attempt that meets it is the last. *)
Lemma attempts_until_error (fuel : nat) (params : positive) (before : list Z) :
  (25 <= fuel)%nat ->
  forall (attempt : Z) (after : list Z) (w : world),
    fetcher_ok w ->
    (forall k, (k < length before)%nat ->
               retry_reply (network w (sent w + k)%nat) = true) ->
    error_reply (network w (sent w + length before)%nat) = true ->
    exists r msg evs,
      network w (sent w + length before)%nat = Responds r /\
      json r !! "Error Message" = Some msg /\
      let x := attempts fuel params (before ++ attempt :: after) w in
      result_of x = Ret None /\
      events_of x
      = evs ++ [sent_request params w; Print "API Error: {}" [AVal msg]] /\
      length (remote_calls evs) = length before /\
      sent (state_of x) = S (sent w + length before).
Proof.
  intros Hfuel. induction before as [|first before IH];
    intros attempt after w Hok Hnet Herr.
  - cbn [length] in Herr |- *. rewrite Nat.add_0_r in Herr |- *.
    destruct (wait_returns fuel w Hok Hfuel)
      as [w1 [polls [Hwait [Hok1 [[Hh [Hn Hk]] [Hs Hp]]]]]].
    destruct (polling_quiet polls Hp) as [Hq1 _].
    assert (sent_request params w1 = sent_request params w) as Hreq.
    { unfold sent_request. now rewrite Hh. }
    rewrite <- Hn, <- Hs in Herr.
    destruct (request_once_error params attempt w1 Herr) as [r [msg [Hr [Hmsg Hreq1]]]].
    exists r, msg, polls. rewrite <- Hn, <- Hs.
    split; [exact Hr|]. split; [exact Hmsg|]. cbn zeta. cbn [app].
    rewrite attempts_cons, Hwait, Hreq1, Hreq. cbn.
    now rewrite Hq1.
  - assert (retry_reply (network w (sent w)) = true) as Hhead.
    { specialize (Hnet 0%nat). rewrite Nat.add_0_r in Hnet. apply Hnet. cbn. lia. }
    cbn [app].
    destruct (attempts_retry_step fuel params first (before ++ attempt :: after) w
                Hfuel Hok Hhead)
      as [w2 [evs [-> [Hok2 [[Hh [Hn Hk]] [Hs [Hpause Hcalls]]]]]]].
    destruct (IH attempt after w2 Hok2) as [r [msg [evs' [Hr [Hmsg H]]]]].
    { intros k Hlt. rewrite Hn, Hs. cbn. rewrite <- Nat.add_succ_r.
      apply Hnet. cbn. lia. }
    { rewrite Hn, Hs. cbn. rewrite <- Nat.add_succ_r. exact Herr. }
    cbn zeta in H. destruct H as [H1 [H2 [H3 H4]]].
    rewrite Hn, Hs in Hr. cbn [Nat.add] in Hr. rewrite <- Nat.add_succ_r in Hr.
    exists r, msg, (evs ++ evs').
    split; [exact Hr|]. split; [exact Hmsg|]. cbn zeta.
    unfold preceded_by at 1 2 3. cbn [result_of state_of events_of fst snd].
    assert (sent_request params w2 = sent_request params w) as Hreq.
    { unfold sent_request. now rewrite Hh. }
    rewrite H2, Hreq, remote_calls_app, length_app, Hcalls, H3, H4, Hs.
    split; [exact H1|]. split; [now rewrite app_assoc|]. cbn [length]. split; lia.
Qed.


(** C3 (as the code behaves).  The body of a reply is read only under
    the status 200.  If attempt number [j] of a call meets a reply of
    status 200 whose body has the field ["Error Message"], the attempts
    before it having gone on, then [_make_request] sends the request of
    that attempt, prints ["API Error: "] with the message of the body and
    returns [None] there: these are its last two events, so that no
    sleep and no further request follow, and [j + 1] requests were sent
    in all.  The message is printed and not returned. *)
Theorem error_payload_is_terminal
    (fuel : nat) (params : positive) (w : world) (j : nat) :
  fetcher_ok w ->
  (25 <= fuel)%nat ->
  (j < 5)%nat ->
  (forall k, (k < j)%nat -> retry_reply (network w (sent w + k)%nat) = true) ->
  error_reply (network w (sent w + j)%nat) = true ->
  exists r msg evs,
    network w (sent w + j)%nat = Responds r /\
    status_code r = 200 /\
    json r !! "Error Message" = Some msg /\
    result_of (_make_request fuel params w) = Ret None /\
    events_of (_make_request fuel params w)
    = evs ++ [Get BASE_URL
                  (<["apikey" := api_key (fetcher w)]>
                     (default ∅ (heap w !! params))) 10;
              Print "API Error: {}" [AVal msg]] /\
    length (remote_calls evs) = j /\
    sent (state_of (_make_request fuel params w)) = S (sent w + j).
Proof.
  intros Hok Hfuel Hj Hnet Herr. rewrite make_request_eq.
  set (w0 := with_item params "apikey" (api_key (fetcher w)) w).
  pose proof (with_item_ok params "apikey" (api_key (fetcher w)) w Hok) as Hok0.
  assert (sent_request params w0
          = Get BASE_URL
              (<["apikey" := api_key (fetcher w)]> (default ∅ (heap w !! params))) 10)
    as Hreq.
  { unfold sent_request, w0. cbn. now rewrite lookup_insert_eq. }
  assert (forall before attempt after,
             range max_retries = before ++ attempt :: after ->
             length before = j ->
             exists r msg evs,
               network w (sent w + j)%nat = Responds r /\
               status_code r = 200 /\
               json r !! "Error Message" = Some msg /\
               result_of (attempts fuel params (range max_retries) w0) = Ret None /\
               events_of (attempts fuel params (range max_retries) w0)
               = evs ++ [sent_request params w0; Print "API Error: {}" [AVal msg]] /\
               length (remote_calls evs) = j /\
               sent (state_of (attempts fuel params (range max_retries) w0))
               = S (sent w + j)) as Hsplit.
  { intros before attempt after -> Hlen.
    destruct (attempts_until_error fuel params before Hfuel attempt after w0 Hok0)
      as [r [msg [evs [Hr [Hmsg H]]]]].
    - intros k Hk. apply Hnet. lia.
    - rewrite Hlen. exact Herr.
    - rewrite Hlen in Hr, H. cbn zeta in H. exists r, msg, evs.
      split; [exact Hr|]. split; [|split; [exact Hmsg | exact H]].
      change (network w0) with (network w) in Hr. change (sent w0) with (sent w) in Hr.
      rewrite Hr in Herr. cbn in Herr. apply andb_prop in Herr as [Hst _].
      now apply Z.eqb_eq. }
  rewrite <- Hreq.
  destruct j as [|[|[|[|[|j]]]]]; [| | | | |lia].
  - apply (Hsplit [] 0 [1; 2; 3; 4]); reflexivity.
  - apply (Hsplit [0] 1 [2; 3; 4]); reflexivity.
  - apply (Hsplit [0; 1] 2 [3; 4]); reflexivity.
  - apply (Hsplit [0; 1; 2] 3 [4]); reflexivity.
  - apply (Hsplit [0; 1; 2; 3] 4 []); reflexivity.
Qed.

(** C10.  [_make_request] writes the key of the fetcher into the
    dictionary of its caller, under ["apikey"]: every request it sends
    carries the dictionary with that entry, and when the call is over,
    however it ends, the dictionary of the caller holds the entry and the
    other dictionaries are as they were. *)
Theorem apikey_is_written_into_the_callers_dict
    (fuel : nat) (params : positive) (w : world) (d : gmap string pyval) :
  heap w !! params = Some d ->
  heap (state_of (_make_request fuel params w))
  = <[params := <["apikey" := api_key (fetcher w)]> d]> (heap w) /\
  Forall (fun q => q = <["apikey" := api_key (fetcher w)]> d)
         (remote_calls (events_of (_make_request fuel params w))) /\
  (length (remote_calls (events_of (_make_request fuel params w))) <= 5)%nat.
Proof.
  intros Hd. rewrite make_request_eq.
  pose proof (attempts_frame fuel params (range max_retries)
                (with_item params "apikey" (api_key (fetcher w)) w)) as H.
  cbn zeta in H. destruct H as [[Hh _] [Hf Hl]].
  cbn [with_item heap] in Hh, Hf. rewrite Hd in Hh, Hf. cbn [default] in Hh, Hf.
  rewrite lookup_insert_eq in Hf. cbn [default] in Hf.
  split; [exact Hh|]. split; [exact Hf | exact Hl].
Qed.

Lemma alloc_safe (d : gmap string pyval) : safe fetcher_ok (alloc d).
Proof. intros w [Hb Hm Hf]. split; [discriminate | now split]. Qed.

Lemma get_stock_price_safe (fuel : nat) (symbol : string) :
  (25 <= fuel)%nat -> safe fetcher_ok (get_stock_price fuel symbol).
Proof.
  intros Hfuel. apply safe_bind; [apply alloc_safe|].
  intros params. now apply make_request_safe.
Qed.

Lemma get_company_overview_safe (fuel : nat) (symbol : string) :
  (25 <= fuel)%nat -> safe fetcher_ok (get_company_overview fuel symbol).
Proof.
  intros Hfuel. apply safe_bind; [apply alloc_safe|].
  intros params. now apply make_request_safe.
Qed.

End FetcherFacts.

(** * Facts on the pipeline *)

Module PipelineFacts.
Import Py Eff Pipeline EffFacts.

Create HintDb safe.
#[local] Hint Resolve safe_ret safe_raise safe_print safe_read safe_of_result
  safe_bind safe_try : safe.

Section WithEnvironment.
Context {float : Type}.
Variable float_ : pyval -> result float.
Variable now_ : Q -> nat -> datetime.
Variable storage_accepts : database float -> bool.

(** ** Transform *)

Lemma transform_stock_some {S} (symbol : string) (data : gmap string pyval) (s : S) :
  truthy (PDict data) = true ->
  transform_stock symbol (Some data) s
  = preceded_by
      [Print "  [TRANSFORM] Processing stock data for {}..." [AStr symbol]]
      (let market_cap_str := get data "MarketCapitalization" (PStr "0") in
       let stock market_cap :=
         {| Stock.id := None;
            Stock.ticker := symbol;
            Stock.name := get data "Name" (PStr symbol);
            Stock.sector := get data "Sector" PNone;
            Stock.market_cap := market_cap |} in
       if truthy market_cap_str then
         match int market_cap_str with
         | Ok z => (Ret (Some (stock (Some z))), s, [])
         | Err e =>
             (Ret None, s,
              [Print "  [ERROR] Transform failed for {}: {}" [AStr symbol; AExn e]])
         end
       else (Ret (Some (stock None)), s, [])).
Proof.
  intros Hdata. unfold transform_stock. rewrite Hdata. cbn zeta.
  unfold bind at 1. cbn [print emit negb].
  destruct (truthy (get data "MarketCapitalization" (PStr "0"))); [|reflexivity].
  now destruct (int (get data "MarketCapitalization" (PStr "0"))).
Qed.

(** C7 (as the code behaves).  For a payload that is not empty:
    without the key ["MarketCapitalization"] the record has market cap
    [0], the default of the lookup being the string ["0"]; with the
    empty string under that key the record has market cap null.  A
    payload without the key ["Name"] is made into a record whose name is
    the symbol whenever the value of the market cap is absent, falsy or
    read by [int]; when [int] raises on it, no record is made, with or
    without a name: the error is printed and [None] returned. *)
Theorem transform_stock_defaults {S : Type}
    (symbol : string) (data : gmap string pyval) (s : S) :
  truthy (PDict data) = true ->
  let market_cap_str := get data "MarketCapitalization" (PStr "0") in
  (data !! "MarketCapitalization" = None ->
   exists stock,
     result_of (transform_stock symbol (Some data) s) = Ret (Some stock) /\
     Stock.market_cap stock = Some 0) /\
  (data !! "MarketCapitalization" = Some (PStr "") ->
   exists stock,
     result_of (transform_stock symbol (Some data) s) = Ret (Some stock) /\
     Stock.market_cap stock = None) /\
  (data !! "Name" = None ->
   truthy market_cap_str = false \/ (exists z, int market_cap_str = Ok z) ->
   exists stock,
     result_of (transform_stock symbol (Some data) s) = Ret (Some stock) /\
     Stock.ticker stock = symbol /\
     Stock.name stock = PStr symbol) /\
  (forall e,
     truthy market_cap_str = true ->
     int market_cap_str = Err e ->
     transform_stock symbol (Some data) s
     = (Ret None, s,
        [Print "  [TRANSFORM] Processing stock data for {}..." [AStr symbol];
         Print "  [ERROR] Transform failed for {}: {}" [AStr symbol; AExn e]])) /\
  (forall stock,
     result_of (transform_stock symbol (Some data) s) = Ret (Some stock) ->
     Stock.ticker stock = symbol /\
     (data !! "Name" = None -> Stock.name stock = PStr symbol)).
Proof.
  intros Hdata. rewrite (transform_stock_some symbol data s Hdata). cbn zeta.
  split; [|split; [|split; [|split]]].
  - intros Hcap. unfold get at 1 2. rewrite Hcap. cbn. eauto.
  - intros Hcap. unfold get at 1. rewrite Hcap. cbn. eauto.
  - intros Hname Hcap.
    assert (get data "Name" (PStr symbol) = PStr symbol) as Hget.
    { unfold get. now rewrite Hname. }
    destruct Hcap as [Hcap|[z Hcap]].
    + rewrite Hcap. cbn. rewrite Hget. eauto.
    + rewrite Hcap.
      destruct (truthy (get data "MarketCapitalization" (PStr "0")));
        cbn; rewrite Hget; eauto.
  - intros e Hcap Hint. now rewrite Hcap, Hint.
  - intros stock.
    destruct (truthy (get data "MarketCapitalization" (PStr "0"))).
    + destruct (int (get data "MarketCapitalization" (PStr "0"))); cbn; [|discriminate].
      intros [= <-]. cbn. split; [reflexivity|]. intros Hname.
      unfold get. now rewrite Hname.
    + cbn. intros [= <-]. cbn. split; [reflexivity|]. intros Hname.
      unfold get. now rewrite Hname.
Qed.

Lemma safe_float_null (value : pyval) :
  value = PNone \/ value = PStr "" \/ value = PStr "None" \/
  (exists e, float_ value = Err e) ->
  safe_float float_ value = None.
Proof.
  unfold safe_float. intros [->|[->|[->|[e He]]]]; try reflexivity.
  rewrite He. now destruct (truthy value && negb (is_str value "None")).
Qed.

Lemma transform_fundamental_some (stock_id : Z) (data : gmap string pyval)
    (s : state float) :
  truthy (PDict data) = true ->
  transform_fundamental float_ now_ stock_id (Some data) s
  = let now := now_ (Fetcher.clock (env s)) in
    match int (get_or_0 data "RevenueTTM") with
    | Ok revenue =>
        match int (get_or_0 data "GrossProfitTTM") with
        | Ok net_income =>
            (Ret (Some
               {| Fundamental.id := None;
                  Fundamental.stock_id := stock_id;
                  Fundamental.quarter :=
                    (pretty (year (now 0%nat)) ++ "-Q"
                     ++ pretty ((month (now 1%nat) - 1) / 3 + 1))%string;
                  Fundamental.revenue := revenue;
                  Fundamental.net_income := net_income;
                  Fundamental.eps := safe_float float_ (get data "EPS" PNone);
                  Fundamental.pe_ratio :=
                    safe_float float_ (get data "PERatio" PNone);
                  Fundamental.debt_to_equity :=
                    safe_float float_ (get data "DebtToEquityRatio" PNone);
                  Fundamental.reported_at := now 2%nat |}), s, [])
        | Err e =>
            (Ret None, s,
             [Print "  [ERROR] Transform fundamental failed: {}" [AExn e]])
        end
    | Err e =>
        (Ret None, s,
         [Print "  [ERROR] Transform fundamental failed: {}" [AExn e]])
    end.
Proof.
  intros Hdata. unfold transform_fundamental. rewrite Hdata. cbn zeta.
  unfold try_except, bind, read. cbn [negb].
  destruct (int (get_or_0 data "RevenueTTM")); [|reflexivity].
  now destruct (int (get_or_0 data "GrossProfitTTM")).
Qed.

(** C8 (as the code behaves).  For a payload that is not empty and
    whose ["RevenueTTM"] and ["GrossProfitTTM"] are read by [int] (each
    absent, empty or an integer literal), [transform_fundamental] makes
    a record.  In it each of [eps], [pe_ratio] and [debt_to_equity] is
    null when its source value is absent, the empty string, the string
    ["None"] or a literal that [float] rejects; and the revenue and the
    net income are those integers, each of them [0] for an absent or
    empty value. *)
Theorem transform_fundamental_nulls
    (stock_id : Z) (data : gmap string pyval) (s : state float)
    (revenue net_income : Z) :
  truthy (PDict data) = true ->
  int (get_or_0 data "RevenueTTM") = Ok revenue ->
  int (get_or_0 data "GrossProfitTTM") = Ok net_income ->
  let null_source key :=
    data !! key = None \/ data !! key = Some (PStr "") \/
    data !! key = Some (PStr "None") \/
    (exists v e, data !! key = Some v /\ float_ v = Err e) in
  exists f,
    result_of (transform_fundamental float_ now_ stock_id (Some data) s)
    = Ret (Some f) /\
    Fundamental.revenue f = revenue /\
    Fundamental.net_income f = net_income /\
    (null_source "EPS" -> Fundamental.eps f = None) /\
    (null_source "PERatio" -> Fundamental.pe_ratio f = None) /\
    (null_source "DebtToEquityRatio" -> Fundamental.debt_to_equity f = None) /\
    (data !! "RevenueTTM" = None \/ data !! "RevenueTTM" = Some (PStr "") ->
     revenue = 0) /\
    (data !! "GrossProfitTTM" = None \/ data !! "GrossProfitTTM" = Some (PStr "") ->
     net_income = 0).
Proof.
  intros Hdata Hrev Hnet null_source.
  rewrite (transform_fundamental_some stock_id data s Hdata). cbn zeta.
  rewrite Hrev, Hnet. eexists. split; [reflexivity|]. cbn.
  assert (forall key, null_source key -> safe_float float_ (get data key PNone) = None)
    as Hnull.
  { intros key [H|[H|[H|[v [e [H He]]]]]]; unfold get; rewrite H;
      apply safe_float_null; eauto. }
  repeat split; try (now apply Hnull).
  - intros [H|H]; unfold get_or_0, get in Hrev; rewrite H in Hrev; cbn in Hrev;
      congruence.
  - intros [H|H]; unfold get_or_0, get in Hnet; rewrite H in Hnet; cbn in Hnet;
      congruence.
Qed.

(** ** Load *)

Lemma filter_nothing {A} (P : A -> Prop) `{!forall x, Decision (P x)} (l : list A) :
  Forall (fun x => ~ P x) l -> filter P l = [].
Proof.
  induction 1 as [|x l Hx _ IH]; [reflexivity|].
  now rewrite filter_cons_False.
Qed.

Lemma query_stock_none (ticker : string) (table : list Stock.t) :
  query_stock ticker table = None ->
  Forall (fun row => Stock.ticker row <> ticker) table.
Proof. intros H. now apply list_find_None in H. Qed.

Lemma query_stock_inserted (ticker : string) (table : list Stock.t) (row : Stock.t) :
  query_stock ticker table = None ->
  Stock.ticker row = ticker ->
  query_stock ticker (table ++ [row]) = Some (length table, row).
Proof.
  intros Hnone Hrow. apply query_stock_none in Hnone.
  apply list_find_Some. split; [|split; [exact Hrow|]].
  - rewrite lookup_app_r by lia. now rewrite Nat.sub_diag.
  - intros j y Hj Hlt. rewrite lookup_app_l in Hj by exact Hlt.
    eapply Forall_lookup_1 in Hnone; eauto.
Qed.

Lemma query_stock_overwritten (ticker : string) (table : list Stock.t)
    (i : nat) (existing row : Stock.t) :
  query_stock ticker table = Some (i, existing) ->
  Stock.ticker row = ticker ->
  query_stock ticker (<[i := row]> table) = Some (i, row).
Proof.
  intros Hsome Hrow. apply list_find_Some in Hsome as [Hi [_ Hbefore]].
  apply list_find_Some. split; [|split; [exact Hrow|]].
  - apply list_lookup_insert_eq. now apply lookup_lt_Some in Hi.
  - intros j y Hj Hlt. rewrite list_lookup_insert_ne in Hj by lia.
    now apply (Hbefore j y).
Qed.

(** Under the unique constraint on [ticker], the rows of a ticker after
    its row was overwritten. *)
Lemma rows_after_overwrite (ticker : string) (table : list Stock.t)
    (i : nat) (existing row : Stock.t) :
  NoDup (Stock.ticker <$> table) ->
  table !! i = Some existing ->
  Stock.ticker existing = ticker ->
  Stock.ticker row = ticker ->
  filter (fun r => Stock.ticker r = ticker) (<[i := row]> table) = [row].
Proof.
  intros Hnodup Hi Hex Hrow.
  pose proof (lookup_lt_Some _ _ _ Hi) as Hlt.
  rewrite insert_take_drop by exact Hlt.
  rewrite <- (take_drop_middle table i existing Hi) in Hnodup.
  rewrite fmap_app, fmap_cons in Hnodup.
  apply NoDup_app in Hnodup as [_ [Hleft Hright]].
  apply NoDup_cons in Hright as [Hright _].
  rewrite filter_app, filter_cons_True by exact Hrow.
  rewrite !filter_nothing; [reflexivity | |].
  - apply Forall_forall. intros r Hr Heq. apply Hright.
    rewrite Hex, <- Heq. apply list_elem_of_fmap. eauto.
  - apply Forall_forall. intros r Hr Heq. apply (Hleft ticker).
    + rewrite <- Heq. apply list_elem_of_fmap. eauto.
    + rewrite Hex. left.
Qed.

(** [load_stock], by what the lookup finds and what the storage says. *)
Lemma load_stock_eq (stock : Stock.t) (s : state float) :
  load_stock storage_accepts stock s
  = preceded_by
      [Print "  [LOAD] Saving stock {}..." [AStr (Stock.ticker stock)]]
      (let d := db s in
       let refused :=
         (Ret None, s,
          [Print "  [ERROR] Load stock failed: {}" [AExn StorageError]]) in
       match query_stock (Stock.ticker stock) (stocks d) with
       | Some (i, existing) =>
           let pending :=
             with_stocks (<[i := overwritten existing stock]> (stocks d))
                         (next_stock_id d) d in
           if storage_accepts pending
           then (Ret (Stock.id existing), {| env := env s; db := pending |}, [])
           else refused
       | None =>
           let pending :=
             with_stocks (stocks d ++ [with_id (next_stock_id d) stock])
                         (next_stock_id d + 1) d in
           if storage_accepts pending
           then (Ret (Some (next_stock_id d)), {| env := env s; db := pending |}, [])
           else refused
       end).
Proof.
  unfold load_stock. unfold bind at 1. cbn [print emit].
  unfold try_except, bind, read, commit. cbn zeta.
  destruct (query_stock _ _) as [[i existing]|].
  - now destruct (storage_accepts _).
  - now destruct (storage_accepts _).
Qed.

(** C6.  On a table that satisfies its unique constraint on [ticker],
    two calls of [load_stock] for the same ticker that both return an id
    leave exactly one row with that ticker: it has the name, the sector
    and the market cap of the second call and the id that the first call
    returned, which the second call returns again; when the ticker was
    not in the table before, that id is the one the first call drew from
    the sequence. *)
Theorem load_stock_twice_keeps_one_row
    (first second : Stock.t) (s s1 s2 : state float)
    (id1 id2 : Z) (evs1 evs2 : list event) :
  NoDup (Stock.ticker <$> stocks (db s)) ->
  Stock.ticker second = Stock.ticker first ->
  load_stock storage_accepts first s = (Ret (Some id1), s1, evs1) ->
  load_stock storage_accepts second s1 = (Ret (Some id2), s2, evs2) ->
  filter (fun row => Stock.ticker row = Stock.ticker first) (stocks (db s2))
  = [ {| Stock.id := Some id1;
         Stock.ticker := Stock.ticker first;
         Stock.name := Stock.name second;
         Stock.sector := Stock.sector second;
         Stock.market_cap := Stock.market_cap second |} ] /\
  id2 = id1 /\
  (query_stock (Stock.ticker first) (stocks (db s)) = None ->
   id1 = next_stock_id (db s)).
Proof.
  intros Hnodup Hticker H1 H2.
  rewrite load_stock_eq in H1. rewrite load_stock_eq, Hticker in H2.
  unfold preceded_by, result_of, state_of, events_of in H1, H2.
  cbn zeta in H1, H2.
  destruct (query_stock (Stock.ticker first) (stocks (db s)))
    as [[i existing]|] eqn:Hq.
  - destruct (storage_accepts _); [|discriminate].
    cbn [fst snd] in H1. injection H1 as Hid <- _.
    pose proof Hq as Hfound. apply list_find_Some in Hfound as [Hi [Hex _]].
    cbn [db stocks with_stocks] in H2.
    rewrite (query_stock_overwritten _ _ i existing (overwritten existing first) Hq)
      in H2 by exact Hex.
    destruct (storage_accepts _); [|discriminate].
    cbn [fst snd] in H2. injection H2 as Hid2 <- _.
    cbn [db stocks with_stocks overwritten Stock.id] in *.
    rewrite list_insert_insert_eq.
    rewrite (rows_after_overwrite _ _ i existing) by (cbn; done).
    unfold overwritten. cbn. rewrite Hid, Hex.
    repeat split; [congruence | discriminate].
  - destruct (storage_accepts _); [|discriminate].
    cbn [fst snd] in H1. injection H1 as <- <- _.
    cbn [db stocks with_stocks] in H2.
    rewrite (query_stock_inserted _ _ (with_id (next_stock_id (db s)) first) Hq)
      in H2 by reflexivity.
    destruct (storage_accepts _); [|discriminate].
    cbn [fst snd] in H2. injection H2 as Hid2 <- _.
    cbn [db stocks with_stocks overwritten with_id Stock.id] in *.
    replace (length (stocks (db s))) with (length (stocks (db s)) + 0)%nat by lia.
    rewrite insert_app_r. cbn [insert list_insert].
    rewrite filter_app, (filter_nothing _ _ (query_stock_none _ _ Hq)).
    rewrite filter_cons_True by reflexivity. rewrite filter_nil.
    cbn. repeat split; congruence.
Qed.

(** ** Run *)

Lemma in_fetcher_safe {A} (m : M Fetcher.world A) :
  safe Fetcher.fetcher_ok m -> safe env_ok (@in_fetcher float A m).
Proof.
  intros Hm. apply (safe_zoom env_ok Fetcher.fetcher_ok); [exact Hm | done | done].
Qed.

Lemma extract_company_info_safe (fuel : nat) (symbol : string) :
  (25 <= fuel)%nat -> safe env_ok (@extract_company_info float fuel symbol).
Proof.
  intros Hfuel. apply safe_bind; [apply safe_print|]. intros _.
  apply in_fetcher_safe. now apply FetcherFacts.get_company_overview_safe.
Qed.

Lemma extract_stock_quote_safe (fuel : nat) (symbol : string) :
  (25 <= fuel)%nat -> safe env_ok (@extract_stock_quote float fuel symbol).
Proof.
  intros Hfuel. apply safe_bind; [apply safe_print|]. intros _.
  apply in_fetcher_safe. now apply FetcherFacts.get_stock_price_safe.
Qed.

Lemma transform_stock_safe {S} (I : S -> Prop) (symbol : string)
    (company_data : option (gmap string pyval)) :
  safe I (transform_stock symbol company_data).
Proof.
  unfold transform_stock. apply safe_bind; [apply safe_print|]. intros _.
  destruct company_data as [data|]; [|apply safe_ret].
  destruct (negb _); [apply safe_ret|].
  apply safe_try; [|auto with safe].
  apply safe_bind; [|auto with safe].
  destruct (truthy _); auto with safe.
Qed.

Lemma quote_get_safe {S} (I : S -> Prop) (quote : pyval) (key : string) :
  safe I (quote_get quote key).
Proof. destruct quote; cbn; auto with safe. Qed.

Lemma transform_price_safe (I : state float -> Prop) (stock_id : Z)
    (quote_data : option (gmap string pyval)) :
  safe I (transform_price float_ now_ stock_id quote_data).
Proof.
  pose proof (@quote_get_safe (state float) I).
  unfold transform_price.
  destruct quote_data as [data|]; [|apply safe_ret].
  destruct (_ || _); [apply safe_ret|].
  apply safe_try; [|auto with safe].
  repeat (apply safe_bind; [now auto with safe|]; intros ?).
  apply safe_ret.
Qed.

Lemma transform_fundamental_safe (I : state float -> Prop) (stock_id : Z)
    (company_data : option (gmap string pyval)) :
  safe I (transform_fundamental float_ now_ stock_id company_data).
Proof.
  unfold transform_fundamental.
  destruct company_data as [data|]; [|apply safe_ret].
  destruct (negb _); [apply safe_ret|].
  apply safe_try; [|auto with safe].
  repeat (apply safe_bind; [now auto with safe|]; intros ?).
  apply safe_ret.
Qed.

Lemma commit_safe (pending : database float) :
  safe env_ok (commit storage_accepts pending).
Proof.
  intros s Hs. unfold commit. destruct (storage_accepts pending); now split.
Qed.

Lemma rollback_safe : safe env_ok (@rollback float).
Proof. apply safe_ret. Qed.

#[local] Hint Resolve commit_safe rollback_safe : safe.

Lemma load_stock_safe (stock : Stock.t) :
  safe env_ok (load_stock storage_accepts stock).
Proof.
  unfold load_stock. apply safe_bind; [apply safe_print|]. intros _.
  apply safe_try; [|auto 6 with safe].
  apply safe_bind; [apply safe_read|]. intros s.
  cbn zeta. destruct (query_stock _ _) as [[i existing]|]; auto with safe.
Qed.

Lemma load_price_safe (price : Price.t float) :
  safe env_ok (load_price storage_accepts price).
Proof.
  unfold load_price. apply safe_bind; [apply safe_print|]. intros _.
  apply safe_try; auto 6 with safe.
Qed.

Lemma load_fundamental_safe (fundamental : Fundamental.t float) :
  safe env_ok (load_fundamental storage_accepts fundamental).
Proof.
  unfold load_fundamental. apply safe_bind; [apply safe_print|]. intros _.
  apply safe_try; auto 6 with safe.
Qed.

Lemma process_single_stock_safe (fuel : nat) (symbol : string) :
  (25 <= fuel)%nat ->
  safe env_ok (process_single_stock float_ now_ storage_accepts fuel symbol).
Proof.
  intros Hfuel. unfold process_single_stock.
  apply safe_bind; [apply safe_print|]; intros _.
  apply safe_bind; [apply safe_print|]; intros _.
  apply safe_bind; [now apply extract_company_info_safe|]; intros company_data.
  apply safe_bind; [now apply extract_stock_quote_safe|]; intros quote_data.
  apply safe_bind; [apply transform_stock_safe|]; intros [stock|];
    [|auto with safe].
  apply safe_bind; [apply load_stock_safe|]; intros [id|]; [|apply safe_ret].
  destruct (falsy_id _); [apply safe_ret|].
  apply safe_bind; [apply transform_price_safe|]; intros price.
  apply safe_bind.
  { destruct price; [|apply safe_ret].
    apply safe_bind; [apply load_price_safe | auto with safe]. }
  intros _.
  apply safe_bind; [apply transform_fundamental_safe|]; intros fundamental.
  apply safe_bind.
  { destruct fundamental; [|apply safe_ret].
    apply safe_bind; [apply load_fundamental_safe | auto with safe]. }
  auto with safe.
Qed.

(** One turn of the loop of [run]: it returns, with the symbol added to
    one of the two lists. *)
Lemma run_symbol_returns (fuel : nat) (symbol : string) (r : results)
    (s : state float) :
  (25 <= fuel)%nat ->
  env_ok s ->
  exists r',
    result_of (run_symbol float_ now_ storage_accepts fuel symbol r s) = Ret r' /\
    env_ok (state_of (run_symbol float_ now_ storage_accepts fuel symbol r s)) /\
    (r' = {| success := success r ++ [symbol]; failed := failed r |} \/
     r' = {| success := success r; failed := failed r ++ [symbol] |}).
Proof.
  intros Hfuel Hs. unfold run_symbol.
  pose proof (process_single_stock_safe fuel (upper symbol) Hfuel s Hs) as [Hr Hi].
  unfold try_except, bind.
  destruct (process_single_stock _ _ _ _ _ s) as [[[[]|e|] s1] t1]; cbn in Hr, Hi.
  - eexists. cbn. split; [reflexivity|]. split; [exact Hi | now left].
  - eexists. cbn. split; [reflexivity|]. split; [exact Hi | now right].
  - eexists. cbn. split; [reflexivity|]. split; [exact Hi | now right].
  - now contradiction Hr.
Qed.

(** What [run_symbol] does with an exception. *)
Lemma run_symbol_catches (fuel : nat) (symbol : string) (r : results)
    (s s1 : state float) (e : exn) (evs : list event) :
  process_single_stock float_ now_ storage_accepts fuel (upper symbol) s
  = (Raise e, s1, evs) ->
  run_symbol float_ now_ storage_accepts fuel symbol r s
  = (Ret {| success := success r; failed := failed r ++ [symbol] |}, s1,
     evs ++ [Print "  [ERROR] Pipeline failed for {}: {}" [AStr symbol; AExn e]]).
Proof.
  intros H. unfold run_symbol, try_except, bind. now rewrite H.
Qed.

Lemma run_loop_returns (fuel : nat) (symbols : list string) :
  (25 <= fuel)%nat ->
  forall (done : list string) (r : results) (s : state float),
    env_ok s ->
    dealt done (success r) (failed r) ->
    exists r',
      result_of (run_loop float_ now_ storage_accepts fuel symbols r s) = Ret r' /\
      env_ok (state_of (run_loop float_ now_ storage_accepts fuel symbols r s)) /\
      dealt (done ++ symbols) (success r') (failed r').
Proof.
  intros Hfuel. induction symbols as [|symbol rest IH]; intros done r s Hs Hdealt.
  - exists r. cbn. rewrite app_nil_r. split; [reflexivity | split; assumption].
  - cbn [run_loop].
    destruct (run_symbol_returns fuel symbol r s Hfuel Hs) as [r1 [Hr [Hi Hcase]]].
    destruct (run_symbol _ _ _ _ _ _ s) as [[x s1] t1] eqn:E. cbn in Hr, Hi. subst x.
    rewrite (bind_ret_eq _ _ _ _ _ _ E).
    destruct (IH (done ++ [symbol]) r1 s1 Hi) as [r' [Hr' [Hi' Hd']]].
    { destruct Hcase as [->| ->]; cbn.
      - now apply dealt_snoc_left.
      - now apply dealt_snoc_right. }
    exists r'. rewrite <- app_assoc in Hd'. cbn in Hd'.
    destruct (run_loop _ _ _ _ _ _ s1) as [[x s2] t2]. cbn in *.
    split; [assumption | split; assumption].
Qed.


End WithEnvironment.

End PipelineFacts.

(** * The claims at concrete inputs *)

Module Examples.
Import Py Eff Pipeline Samples PipelineSamples.

#[local] Ltac bucket_facts :=
  repeat match goal with
         | |- RateLimiter.bucket_ok _ _ => split
         | |- RateLimiter.in_bounds _ => split
         | |- Fetcher.fetcher_ok _ => split
         | |- env_ok _ => split
         end;
  cbn; try reflexivity; try lia; unfold Qle; cbn; lia.

(** The session of the docstring of [rate_limiter.py]: five tokens, two
    more per second. *)
Lemma bucket_bounds_witness :
  Forall (fun b => (0 <= RateLimiter.tokens b)%Q /\
                   (RateLimiter.tokens b <= inject_Z 5)%Q)
         (RateLimiter.__init__ 0 5 2
          :: RateLimiter.observations (RateLimiter.__init__ 0 5 2)
               [(0%Q, 1); (0%Q, 3); (0%Q, 2); (1%Q, 2)]).
Proof.
  apply RateLimiterFacts.bucket_bounds_at_every_observation.
  - lia.
  - unfold Qle; cbn; lia.
  - cbn. repeat split; unfold Qle; cbn; lia.
  - repeat constructor.
Defined.



(** C1 fails on the code for the status 429: the attempt is followed by
    the exponential delay of one second and then by the next request;
    there is no cooldown of sixty seconds anywhere in the call. *)
Lemma status_429_is_not_cooled_down :
  events_of (Fetcher._make_request 25 1 (world_of [status 429; body overview]))
  = [Get Fetcher.BASE_URL keyed_params 10;
     Print "Rate limited by API (429)" [];
     Print "Retrying in {} seconds... (attempt {}/{})" [AInt 1; AInt 1; AInt 5];
     Sleep Backoff 1;
     Get Fetcher.BASE_URL keyed_params 10] /\
  Fetcher.sleeps Cooldown
    (events_of (Fetcher._make_request 25 1 (world_of [status 429; body overview])))
  = [].
Proof. split; vm_compute; reflexivity. Qed.

Lemma notice_cools_down_witness :
  Fetcher.notice_reply (Fetcher.network (world_of [notice_body]) 0) = true /\
  exists note,
    events_of (Fetcher.attempts 25 1 [0; 1; 2; 3; 4] (world_of [notice_body]))
    = [Fetcher.sent_request 1 (world_of [notice_body]);
       Print "Rate limit warning: {}" [AVal note];
       Sleep Cooldown 60]
      ++ events_of (Fetcher.attempts 25 1 [1; 2; 3; 4]
                      (Fetcher.later 60
                         (Fetcher.one_more_sent
                            (state_of (Fetcher.wait_for_token 25
                                         (world_of [notice_body])))))).
Proof.
  split; [reflexivity|].
  destruct (FetcherFacts.notice_cools_down_and_429_backs_off
              25 1 0 [1; 2; 3; 4] (world_of [notice_body]))
    as [w1 [polls [Hwait [_ [Hnotice _]]]]].
  - bucket_facts.
  - lia.
  - destruct (Hnotice eq_refl) as [note Heq]. exists note.
    rewrite Heq.
    assert (polls = [] /\ w1 = state_of (Fetcher.wait_for_token 25 (world_of [notice_body])))
      as [-> ->].
    { rewrite Hwait. split; [|reflexivity].
      assert (Fetcher.wait_for_token 25 (world_of [notice_body])
              = (Ret tt, state_of (Fetcher.wait_for_token 25 (world_of [notice_body])), []))
        as E by (vm_compute; reflexivity).
      rewrite E in Hwait. congruence. }
    reflexivity.
Defined.



(** The schedule of the source comments, when no reply is a notice. *)
Example delays_of_five_failures :
  Fetcher.sleeps Backoff
    (events_of (Fetcher._make_request 25 1
                  (world_of [status 500; Fetcher.Fails Timeout; status 429;
                             Fetcher.Fails RequestException; status 503])))
  = [1; 2; 4; 8; 16]%Q.
Proof. vm_compute. reflexivity. Qed.

(** C3 fails on the code in two ways.  The caller is not told: for an
    error payload [_make_request] returns [None], the value it returns
    after five failed attempts, and the message goes to the standard
    output only.  And the body is not looked at under another status:
    five replies of status 500 that carry the field are five attempts
    with the delays of the backoff, and no line about the error. *)
Lemma error_message_is_printed_not_returned :
  let refused :=
    Fetcher.Responds
      {| Fetcher.status_code := 500;
         Fetcher.json := <["Error Message" := PStr "Invalid API call."]> ∅ |} in
  let x := Fetcher._make_request 25 1
             (world_of [refused; refused; refused; refused; refused]) in
  result_of (Fetcher._make_request 25 1 (world_of [error_body]))
  = result_of (Fetcher._make_request 25 1
                 (world_of [status 500; status 500; status 500; status 500;
                            status 500])) /\
  length (Fetcher.remote_calls (events_of x)) = 5%nat /\
  Fetcher.sleeps Backoff (events_of x) = [1; 2; 4; 8; 16]%Q /\
  Print "API Error: {}" [AVal (PStr "Invalid API call.")] ∉ events_of x.
Proof.
  cbn zeta. split; [vm_compute; reflexivity|].
  split; [vm_compute; reflexivity|]. split; [vm_compute; reflexivity|].
  intros Hin. vm_compute in Hin.
  repeat (apply elem_of_cons in Hin as [Hin|Hin]; [discriminate Hin|]).
  now apply elem_of_nil in Hin.
Qed.

(** A server error first, then the error payload. *)
Lemma error_payload_witness :
  let x := Fetcher._make_request 25 1 (world_of [status 500; error_body]) in
  exists evs,
    result_of x = Ret None /\
    events_of x
    = evs ++ [Get Fetcher.BASE_URL keyed_params 10;
              Print "API Error: {}" [AVal (PStr "Invalid API call.")]] /\
    length (Fetcher.remote_calls evs) = 1%nat.
Proof.
  cbn zeta.
  destruct (FetcherFacts.error_payload_is_terminal
              25 1 (world_of [status 500; error_body]) 1)
    as [r [msg [evs [Hr [_ [Hmsg [Hres [Hev [Hlen _]]]]]]]]].
  - bucket_facts.
  - lia.
  - lia.
  - intros k Hk. destruct k as [|k]; [reflexivity | lia].
  - reflexivity.
  - exists evs. split; [exact Hres|]. split; [|exact Hlen].
    rewrite Hev. vm_compute in Hr. injection Hr as <-.
    vm_compute in Hmsg. injection Hmsg as <-. reflexivity.
Defined.

Lemma apikey_witness :
  Fetcher.heap
    (state_of (Fetcher._make_request 25 1 (world_of [status 500]))) !! 1%positive
  = Some keyed_params.
Proof.
  destruct (FetcherFacts.apikey_is_written_into_the_callers_dict
              25 1 (world_of [status 500]) overview_params) as [H _].
  - reflexivity.
  - rewrite H. reflexivity.
Defined.

(** C7 fails on the code for the market cap: a payload without the key
    ["MarketCapitalization"] gives a record with market cap [0]. *)
Lemma missing_market_cap_is_zero :
  result_of
    (transform_stock "AAPL" (Some (<["Sector" := PStr "Technology"]> ∅)) tt)
  = Ret (Some {| Stock.id := None;
                 Stock.ticker := "AAPL";
                 Stock.name := PStr "AAPL";
                 Stock.sector := PStr "Technology";
                 Stock.market_cap := Some 0 |}).
Proof. vm_compute. reflexivity. Qed.

Lemma transform_stock_witness :
  (exists stock,
     result_of
       (transform_stock "AAPL" (Some (<["Sector" := PStr "Technology"]> ∅)) tt)
     = Ret (Some stock) /\
     Stock.market_cap stock = Some 0) /\
  (exists stock,
     result_of
       (transform_stock "AAPL" (Some (<["Sector" := PStr "Technology"]> ∅)) tt)
     = Ret (Some stock) /\
     Stock.ticker stock = "AAPL" /\
     Stock.name stock = PStr "AAPL").
Proof.
  pose proof (PipelineFacts.transform_stock_defaults
                "AAPL" (<["Sector" := PStr "Technology"]> ∅) tt eq_refl) as H.
  cbn zeta in H. destruct H as [H1 [_ [H3 _]]].
  split.
  - apply H1. reflexivity.
  - apply H3; [reflexivity|]. right. exists 0. reflexivity.
Defined.

(** C8 fails on the code for the two integer fields: with the string
    ["None"] under ["RevenueTTM"], which is how the API writes a missing
    number, [int] raises and no record is made; with the empty string
    there, the revenue of the record is [0]. *)
Lemma revenue_none_fails_the_record :
  transform_fundamental whole_float fixed_now 1
    (Some (<["RevenueTTM" := PStr "None"]> ∅)) (state_of_replies [])
  = (Ret None, state_of_replies [],
     [Print "  [ERROR] Transform fundamental failed: {}" [AExn ValueError]]) /\
  Fundamental.revenue <$>
    (match result_of (transform_fundamental whole_float fixed_now 1
                        (Some (<["RevenueTTM" := PStr ""]> ∅))
                        (state_of_replies [])) with
     | Ret f => f
     | _ => None
     end)
  = Some 0.
Proof. split; vm_compute; reflexivity. Qed.

Lemma transform_fundamental_witness :
  exists f,
    result_of
      (transform_fundamental whole_float fixed_now 1
         (Some (<["EPS" := PStr "None"]>
                  (<["PERatio" := PStr ""]>
                     (<["DebtToEquityRatio" := PStr "n/a"]>
                        (<["RevenueTTM" := PStr "1000"]> ∅)))))
         (state_of_replies []))
    = Ret (Some f) /\
    Fundamental.revenue f = 1000 /\
    Fundamental.eps f = None /\
    Fundamental.pe_ratio f = None /\
    Fundamental.debt_to_equity f = None.
Proof.
  destruct (PipelineFacts.transform_fundamental_nulls whole_float fixed_now 1
              (<["EPS" := PStr "None"]>
                 (<["PERatio" := PStr ""]>
                    (<["DebtToEquityRatio" := PStr "n/a"]>
                       (<["RevenueTTM" := PStr "1000"]> ∅))))
              (state_of_replies []) 1000 0)
    as [f [Hf [Hrev [_ [Heps [Hpe [Hde _]]]]]]].
  - reflexivity.
  - reflexivity.
  - reflexivity.
  - exists f. split; [exact Hf|]. split; [exact Hrev|].
    split; [|split].
    + apply Heps. right; right; left. reflexivity.
    + apply Hpe. right; left. reflexivity.
    + apply Hde. right; right; right.
      exists (PStr "n/a"), ValueError. split; reflexivity.
Defined.

Lemma load_stock_twice_witness :
  filter (fun row => Stock.ticker row = "AAPL")
    (stocks (db (state_of
       (load_stock names_not_null (apple "Apple Inc." 3000000000000)
          (state_of (load_stock names_not_null (apple "Apple" 2900000000000)
                       (state_of_replies [])))))))
  = [ {| Stock.id := Some 1;
         Stock.ticker := "AAPL";
         Stock.name := PStr "Apple Inc.";
         Stock.sector := PStr "Technology";
         Stock.market_cap := Some 3000000000000 |} ].
Proof.
  refine (proj1 (PipelineFacts.load_stock_twice_keeps_one_row names_not_null
                   (apple "Apple" 2900000000000) (apple "Apple Inc." 3000000000000)
                   (state_of_replies []) _ _ 1 1 _ _ _ _ _ _)).
  - constructor.
  - reflexivity.
  - vm_compute. reflexivity.
  - vm_compute. reflexivity.
Defined.


(** The run of the samples: the first symbol goes through, the second
    meets the error payload and is skipped. *)
Example run_of_two_symbols :
  result_of (run whole_float fixed_now names_not_null 25 ["aapl"; "msft"]
               (state_of_replies [body overview; body quote; error_body]))
  = Ret {| success := ["aapl"]; failed := ["msft"] |}.
Proof. vm_compute. reflexivity. Qed.

End Examples.

(** * Further properties of the token bucket *)

Module RateLimiterMore.
Import RateLimiter Replay.

Lemma refill_at_most (now : Q) (self : TokenBucketRateLimiter) :
  (tokens (_refill now self)
   <= tokens self + (now - last_refill_time self) * refill_rate self)%Q.
Proof. cbn. apply Q.le_min_r. Qed.

(** The balance after [k] grants out of a full bucket read again at the
    instant of its last refill. *)
Lemma burst_from (k : nat) :
  forall self : TokenBucketRateLimiter,
    Z.of_nat k <= max_tokens self ->
    (tokens self == inject_Z (Z.of_nat k))%Q ->
    answers self (repeat (last_refill_time self, 1) (S k))
    = repeat true k ++ [false].
Proof.
  induction k as [|k IH]; intros self Hk Htok.
  - cbn [repeat answers app]. f_equal.
    unfold acquire.
    destruct (Qle_bool _ _) eqn:E; [|reflexivity].
    apply Qle_bool_iff in E. exfalso.
    pose proof (refill_at_most (last_refill_time self) self) as Hle.
    assert ((last_refill_time self - last_refill_time self) * refill_rate self == 0)%Q
      as H0 by ring.
    change (inject_Z (Z.of_nat 0)) with 0%Q in Htok.
    change (inject_Z 1) with 1%Q in E. lra.
  - change (repeat (last_refill_time self, 1) (S (S k)))
      with ((last_refill_time self, 1) :: repeat (last_refill_time self, 1) (S k)).
    cbn [answers repeat app].
    assert ((last_refill_time self - last_refill_time self) * refill_rate self == 0)%Q
      as H0 by ring.
    assert (inject_Z (Z.of_nat (S k)) <= inject_Z (max_tokens self))%Q as Hcap.
    { rewrite <- Zle_Qle. exact Hk. }
    assert (inject_Z (Z.of_nat (S k)) == inject_Z (Z.of_nat k) + 1)%Q as Hs.
    { rewrite Nat2Z.inj_succ. unfold Z.succ. now rewrite inject_Z_plus. }
    assert (0 <= inject_Z (Z.of_nat k))%Q as Hnn.
    { apply RateLimiterFacts.inject_Z_nonneg. lia. }
    assert (tokens (_refill (last_refill_time self) self)
            == inject_Z (Z.of_nat (S k)))%Q as Href.
    { cbn.
      destruct (Q.min_spec (inject_Z (max_tokens self))
                  (tokens self
                   + (last_refill_time self - last_refill_time self)
                     * refill_rate self)) as [[Hlt ->]|[Hle ->]]; lra. }
    unfold acquire.
    assert (Qle_bool (inject_Z 1) (tokens (_refill (last_refill_time self) self))
            = true) as ->.
    { apply Qle_bool_iff. change (inject_Z 1) with 1%Q. lra. }
    cbn [fst snd]. f_equal.
    set (self' := {| max_tokens := _ |}).
    change (last_refill_time self) with (last_refill_time self').
    apply IH.
    + subst self'. cbn. lia.
    + subst self'. cbn [tokens]. change (inject_Z 1) with 1%Q. lra.
Qed.

(** X1.  A new bucket of capacity [C], with [C] at most [2 ^ 53] so
    that the balance is counted exactly, grants [C] calls of [acquire()]
    made at the instant of its creation and denies the next one, for
    every finite refill rate: at that instant the refill adds nothing. *)
Theorem burst_of_capacity_then_denied (C : Z) (r t0 : Q) :
  0 <= C ->
  C <= 2 ^ 53 ->
  answers (__init__ t0 C r) (repeat (t0, 1) (S (Z.to_nat C)))
  = repeat true (Z.to_nat C) ++ [false].
Proof.
  intros HC _.
  apply (burst_from (Z.to_nat C) (__init__ t0 C r)).
  - cbn. lia.
  - cbn. now rewrite Z2Nat.id.
Qed.

(** X2.  A call for more tokens than the capacity is denied on every
    bucket within its bounds, and leaves the bucket as the refill left
    it. *)
Theorem acquire_above_capacity_is_denied
    (t now : Q) (n : Z) (self : TokenBucketRateLimiter) :
  bucket_ok t self ->
  (t <= now)%Q ->
  max_tokens self < n ->
  acquire now n self = (false, _refill now self).
Proof.
  intros Hok Hnow Hn.
  pose proof (RateLimiterFacts.refill_ok t now self Hok Hnow) as [_ _ _ [_ Hhi]].
  assert (inject_Z (max_tokens self) < inject_Z n)%Q as Hlt.
  { rewrite <- Zlt_Qlt. exact Hn. }
  cbn [max_tokens _refill] in Hhi.
  unfold acquire.
  destruct (Qle_bool _ _) eqn:E; [|reflexivity].
  apply Qle_bool_iff in E. exfalso.
  change (max_tokens (_refill now self)) with (max_tokens self) in Hhi. lra.
Qed.

(** X3.  On a bucket within its bounds, of a capacity of at most
    [2 ^ 53], read at a clock not behind its last refill, [_refill]
    never lowers the balance, stops at the capacity, and marks the
    reading as the last refill. *)
Theorem refill_never_lowers_the_balance
    (t now : Q) (self : TokenBucketRateLimiter) :
  bucket_ok t self ->
  max_tokens self <= 2 ^ 53 ->
  (t <= now)%Q ->
  (tokens self <= tokens (_refill now self))%Q /\
  (tokens (_refill now self) <= inject_Z (max_tokens self))%Q /\
  last_refill_time (_refill now self) = now.
Proof.
  intros [Hc Hr Ht [Hlo Hhi]] _ Hnow.
  assert (0 <= (now - last_refill_time self) * refill_rate self)%Q as Hadd.
  { apply Qmult_le_0_compat; [lra | exact Hr]. }
  split; [|split].
  - cbn. apply Q.min_glb; lra.
  - cbn. apply Q.le_min_l.
  - reflexivity.
Qed.


End RateLimiterMore.

(** * Further properties of the fetcher *)

Module FetcherMore.
Import Py Eff Fetcher Replies EffFacts FetcherFacts.

Lemma request_once_plain (params : positive) (attempt : Z) (w : world) :
  plain_reply (network w (sent w)) = true ->
  exists r,
    network w (sent w) = Responds r /\
    request_once params attempt w
    = (Ret (Return (Some (json r))), one_more_sent w, [sent_request params w]).
Proof.
  unfold plain_reply. destruct (network w (sent w)) as [e|r] eqn:Hnet; [discriminate|].
  intros H. apply andb_prop in H as [H Hnote]. apply andb_prop in H as [Hst Herr].
  apply negb_true_iff in Herr, Hnote.
  exists r. split; [reflexivity|].
  unfold request_once, try_except, bind, requests_get.
  now rewrite Hnet, Hst, Herr, Hnote.
Qed.

Lemma request_once_unhandled (params : positive) (attempt : Z) (w : world) (e : exn) :
  network w (sent w) = Fails e ->
  unhandled e = true ->
  request_once params attempt w = (Raise e, one_more_sent w, [sent_request params w]).
Proof.
  intros Hnet He. unfold request_once, try_except, bind, requests_get.
  rewrite Hnet. destruct e; try discriminate; reflexivity.
Qed.

(** The four kinds of reply leave nothing out but the exceptions let
    through. *)
Lemma reply_kinds (r : reply) :
  error_reply r = true \/ notice_reply r = true \/ backoff_reply r = true \/
  plain_reply r = true \/ exists e, r = Fails e /\ unhandled e = true.
Proof.
  destruct r as [e|r].
  - destruct e; cbn; eauto 10.
  - cbn. destruct (status_code r =? 200); cbn; [|auto].
    destruct (contains (json r) "Error Message"); cbn; [auto|].
    destruct (contains (json r) "Note"); cbn; auto.
Qed.

Lemma request_once_returned (params : positive) (attempt : Z) (w : world)
    (data : gmap string pyval) :
  result_of (request_once params attempt w) = Ret (Return (Some data)) ->
  exists r,
    network w (sent w) = Responds r /\ json r = data /\
    plain_reply (Responds r) = true.
Proof.
  destruct (reply_kinds (network w (sent w))) as [H|[H|[H|[H|[e [H He]]]]]].
  - destruct (request_once_error params attempt w H) as [r [msg [_ [_ ->]]]].
    discriminate.
  - destruct (request_once_notice params attempt w H) as [r [note [_ [_ ->]]]].
    discriminate.
  - rewrite (request_once_backoff params attempt w H). discriminate.
  - destruct (request_once_plain params attempt w H) as [r [Hr ->]].
    cbn. intros [= <-]. exists r. rewrite Hr in H. auto.
  - rewrite (request_once_unhandled params attempt w e H He). discriminate.
Qed.

(** X6.  The loop stands before attempt number [attempt].  If the reply
    has status 200 and a body with neither ["Error Message"] nor
    ["Note"], the call returns that body after this one request: no
    line is printed and nothing is slept after the wait for a token. *)
Theorem plain_body_is_returned_at_once
    (fuel : nat) (params : positive) (attempt : Z) (todo : list Z) (w : world) :
  fetcher_ok w ->
  (25 <= fuel)%nat ->
  plain_reply (network w (sent w)) = true ->
  exists w1 polls r,
    wait_for_token fuel w = (Ret tt, w1, polls) /\
    polling polls /\
    network w (sent w) = Responds r /\
    attempts fuel params (attempt :: todo) w
    = (Ret (Some (json r)), one_more_sent w1, polls ++ [sent_request params w]).
Proof.
  intros Hok Hfuel Hplain.
  destruct (wait_returns fuel w Hok Hfuel)
    as [w1 [polls [Hwait [Hok1 [[Hh [Hn Hk]] [Hs Hp]]]]]].
  assert (sent_request params w1 = sent_request params w) as Hreq.
  { unfold sent_request. now rewrite Hh. }
  rewrite <- Hn, <- Hs in Hplain.
  destruct (request_once_plain params attempt w1 Hplain) as [r [Hr Hreq1]].
  exists w1, polls, r. rewrite <- Hn, <- Hs.
  split; [exact Hwait|]. split; [exact Hp|]. split; [exact Hr|].
  rewrite attempts_cons, Hwait, Hreq1, Hreq. reflexivity.
Qed.

Lemma attempts_returned (fuel : nat) (params : positive) (todo : list Z) :
  forall (w : world) (data : gmap string pyval),
    result_of (attempts fuel params todo w) = Ret (Some data) ->
    exists k r,
      (sent w <= k < sent (state_of (attempts fuel params todo w)))%nat /\
      network w k = Responds r /\ json r = data /\
      plain_reply (Responds r) = true.
Proof.
  induction todo as [|attempt todo IH]; intros w data; [discriminate|].
  rewrite attempts_cons.
  destruct (wait_frame fuel w) as [[Hh [Hn Hk]] [Hs _]].
  destruct (wait_for_token fuel w) as [[[[]|e|] w1] polls];
    cbn in Hh, Hn, Hk, Hs; try discriminate.
  pose proof (request_once_returned params attempt w1) as Hret.
  destruct (request_once_any params attempt w1) as [_ [[_ [Hn2 _]] [Hs2 _]]].
  destruct (request_once params attempt w1) as [[[[d| |]|e|] w2] evs];
    cbn in Hn2, Hs2; cbn zeta; try discriminate.
  - cbn. intros [= ->].
    destruct (Hret data eq_refl) as [r [Hr [Hj Hp]]].
    exists (sent w), r. rewrite <- Hn, <- Hs. split; [lia | auto].
  - intros H.
    assert (result_of (attempts fuel params todo w2) = Ret (Some data)) as H'.
    { destruct (attempts fuel params todo w2) as [[r3 w3] t3]. exact H. }
    destruct (IH w2 data H') as [k [r [Hle [Hr Hrest]]]].
    exists k, r. rewrite Hn2, Hn in Hr.
    unfold preceded_by, state_of. cbn [fst snd].
    unfold state_of in Hle. split; [lia | auto].
  - intros H.
    set (w3 := later _ w2) in *.
    assert (result_of (attempts fuel params todo w3) = Ret (Some data)) as H'.
    { destruct (attempts fuel params todo w3) as [[r3 w4] t3]. exact H. }
    destruct (IH w3 data H') as [k [r [Hle [Hr Hrest]]]].
    exists k, r. subst w3. cbn in Hr. rewrite Hn2, Hn in Hr.
    unfold preceded_by, state_of. cbn [fst snd].
    unfold state_of in Hle. cbn [sent later] in Hle. split; [lia | auto].
Qed.

(** X7.  Whatever the remote side does, a payload that [_make_request]
    returns is the body of the reply to one of the requests sent in this
    call, of status 200, and has neither the field ["Error Message"] nor
    the field ["Note"]. *)
Theorem returned_payload_is_a_plain_body
    (fuel : nat) (params : positive) (w : world) (data : gmap string pyval) :
  result_of (_make_request fuel params w) = Ret (Some data) ->
  contains data "Error Message" = false /\
  contains data "Note" = false /\
  exists k,
    (sent w <= k < sent (state_of (_make_request fuel params w)))%nat /\
    network w k = Responds {| status_code := 200; json := data |}.
Proof.
  rewrite make_request_eq. intros H.
  destruct (attempts_returned _ _ _ _ _ H) as [k [[st js] [Hle [Hr [Hj Hp]]]]].
  cbn in Hr, Hj, Hp. subst js.
  apply andb_prop in Hp as [Hp Hnote]. apply andb_prop in Hp as [Hst Herr].
  apply negb_true_iff in Herr, Hnote. apply Z.eqb_eq in Hst. subst st.
  split; [exact Herr|]. split; [exact Hnote|]. exists k. split; [exact Hle | exact Hr].
Qed.

(** X8.  The loop stands before attempt number [attempt].  An exception
    of the request that is neither a time-out nor another request error
    leaves [_make_request] as it came: there is no retry, no line and no
    sleep after it. *)
Theorem other_exception_is_let_through
    (fuel : nat) (params : positive) (attempt : Z) (todo : list Z) (w : world)
    (e : exn) :
  fetcher_ok w ->
  (25 <= fuel)%nat ->
  network w (sent w) = Fails e ->
  unhandled e = true ->
  exists w1 polls,
    wait_for_token fuel w = (Ret tt, w1, polls) /\
    polling polls /\
    attempts fuel params (attempt :: todo) w
    = (Raise e, one_more_sent w1, polls ++ [sent_request params w]).
Proof.
  intros Hok Hfuel Hnet He.
  destruct (wait_returns fuel w Hok Hfuel)
    as [w1 [polls [Hwait [Hok1 [[Hh [Hn Hk]] [Hs Hp]]]]]].
  assert (sent_request params w1 = sent_request params w) as Hreq.
  { unfold sent_request. now rewrite Hh. }
  rewrite <- Hn, <- Hs in Hnet.
  exists w1, polls. split; [exact Hwait|]. split; [exact Hp|].
  rewrite attempts_cons, Hwait, (request_once_unhandled params attempt w1 e Hnet He), Hreq.
  reflexivity.
Qed.

Lemma attempts_all_notice (fuel : nat) (params : positive) (todo : list Z) :
  (25 <= fuel)%nat ->
  forall w : world,
    fetcher_ok w ->
    (forall k, (k < length todo)%nat ->
               notice_reply (network w (sent w + k)%nat) = true) ->
    let x := attempts fuel params todo w in
    result_of x = Ret None /\
    sleeps Cooldown (events_of x) = repeat 60%Q (length todo) /\
    sleeps Backoff (events_of x) = [] /\
    length (remote_calls (events_of x)) = length todo.
Proof.
  intros Hfuel. induction todo as [|attempt todo IH]; intros w Hok Hnet; cbn zeta.
  - cbn. auto.
  - rewrite attempts_cons.
    destruct (wait_returns fuel w Hok Hfuel)
      as [w1 [polls [-> [Hok1 [[Hh [Hn Hk]] [Hs Hp]]]]]].
    destruct (polling_quiet polls Hp) as [Hq1 [Hq2 Hq3]].
    assert (notice_reply (network w1 (sent w1)) = true) as Hb.
    { rewrite Hn, Hs. specialize (Hnet 0%nat). rewrite Nat.add_0_r in Hnet.
      apply Hnet. cbn. lia. }
    destruct (request_once_notice params attempt w1 Hb) as [r [note [_ [_ ->]]]].
    set (w2 := later 60 (one_more_sent w1)).
    assert (fetcher_ok w2) as Hok2.
    { apply later_ok; [now apply one_more_sent_ok | lra]. }
    specialize (IH w2 Hok2). cbn zeta in IH.
    destruct (attempts fuel params todo w2) as [[r3 w3] t3].
    destruct IH as [H1 [H2 [H3 H4]]].
    { intros k Hlt. subst w2. cbn. rewrite Hn, Hs.
      rewrite <- Nat.add_succ_r. apply Hnet. cbn. lia. }
    cbn in *.
    rewrite !sleeps_app, !remote_calls_app, Hq1, Hq2, Hq3. cbn.
    repeat split; (congruence || lia).
Qed.


(** The polls of a wait are no more than what is missing of a token,
    counted in twenty-fourths. *)
Lemma wait_polls_at_most (k : nat) :
  forall (w : world) (fuel : nat),
    fetcher_ok w ->
    (1 <= RateLimiter.tokens
            (RateLimiter._refill (clock w) (rate_limiter (fetcher w)))
          + inject_Z (Z.of_nat k) * (1 # 24))%Q ->
    (k < fuel)%nat ->
    (length (events_of (wait_for_token fuel w)) <= k)%nat.
Proof.
  induction k as [|k IH]; intros w fuel Hok Hneed Hfuel;
    (destruct fuel as [|fuel]; [lia|]); rewrite wait_unfold;
    destruct (fst (RateLimiter.acquire _ _ _)) eqn:Hacq;
    try (cbn; lia).
  - exfalso. apply acquire_denied in Hacq as [_ Hlt].
    change (inject_Z 1) with 1%Q in Hlt.
    change (inject_Z (Z.of_nat 0)) with 0%Q in Hneed. lra.
  - pose proof Hacq as Hden. apply acquire_denied in Hden as [Hsnd Hlt].
    change (inject_Z 1) with 1%Q in Hlt.
    set (w1 := later (1 # 2) (with_bucket
       (snd (RateLimiter.acquire (clock w) 1 (rate_limiter (fetcher w)))) w)).
    assert (fetcher_ok w1) as Hok1.
    { apply later_ok; [now apply with_bucket_ok | lra]. }
    specialize (IH w1 fuel Hok1).
    destruct Hok as [Hb Hm Hf].
    assert (0 <= RateLimiter.tokens
                   (RateLimiter._refill (clock w) (rate_limiter (fetcher w))))%Q as Hnonneg.
    { apply (RateLimiterFacts.refill_ok (clock w)); [exact Hb | lra]. }
    assert (length (events_of (wait_for_token fuel w1)) <= k)%nat as Hlen.
    { apply IH; [|lia].
      subst w1. cbn [clock later with_bucket fetcher rate_limiter]. rewrite Hsnd.
      rewrite refill_again, Hm, Hf. rewrite inject_nat_succ in Hneed.
      assert (0 <= inject_Z (Z.of_nat k))%Q as Hk.
      { apply RateLimiterFacts.inject_Z_nonneg. lia. }
      change (inject_Z 5) with 5%Q.
      set (T := RateLimiter.tokens
                  (RateLimiter._refill (clock w) (rate_limiter (fetcher w)))) in *.
      destruct (Q.min_spec 5 (T + (clock w + (1 # 2) - clock w) * (5 # 60)))
        as [[_ E]|[_ E]]; lra. }
    destruct (wait_for_token fuel w1) as [[r s] t]. cbn in *. lia.
Qed.


(** X11.  With the bucket of the fetcher, [_make_request] ends by
    itself, whatever the replies, by a return or by an exception of the
    request: no wait for a token goes on for ever.  It leaves the bucket
    with its settings, within its bounds and its balance not negative. *)
Theorem make_request_ends (fuel : nat) (params : positive) (w : world) :
  fetcher_ok w ->
  (26 <= fuel)%nat ->
  result_of (_make_request fuel params w) <> OutOfFuel /\
  fetcher_ok (state_of (_make_request fuel params w)) /\
  (0 <= RateLimiter.tokens
          (rate_limiter (fetcher (state_of (_make_request fuel params w)))))%Q.
Proof.
  intros Hok Hfuel.
  destruct (make_request_safe fuel params ltac:(lia) w Hok) as [Hr Hi].
  split; [exact Hr|]. split; [exact Hi|]. apply Hi.
Qed.

Lemma wrapper_frame (fuel : nat) (d : gmap string pyval) (w : world) :
  let x := bind (alloc d) (fun params => _make_request fuel params) w in
  (forall p old, heap w !! p = Some old -> heap (state_of x) !! p = Some old) /\
  Forall (fun q => q = <["apikey" := api_key (fetcher w)]> d)
         (remote_calls (events_of x)) /\
  (length (remote_calls (events_of x)) <= 5)%nat.
Proof.
  cbn zeta.
  set (p0 := fresh (dom (heap w))).
  set (w0 := {| clock := clock w; fetcher := fetcher w;
                heap := <[p0 := d]> (heap w);
                network := network w; elapsed := elapsed w; sent := sent w |}).
  assert (alloc d w = (Ret p0, w0, [])) as Ealloc by reflexivity.
  rewrite (bind_ret_eq _ _ _ _ _ _ Ealloc), make_request_eq.
  pose proof (attempts_frame fuel p0 (range max_retries)
                (with_item p0 "apikey" (api_key (fetcher w0)) w0)) as H.
  cbn zeta in H. destruct H as [[Hh _] [Hf Hl]].
  destruct (attempts fuel p0 (range max_retries) _) as [[r w1] evs].
  cbn in Hh, Hf, Hl. cbn.
  rewrite lookup_insert_eq in Hf. cbn in Hf.
  rewrite lookup_insert_eq in Hf. cbn in Hf.
  split; [|split; [exact Hf | exact Hl]].
  intros p old Hp. rewrite Hh.
  assert (p <> p0) as Hne.
  { intros ->. pose proof (is_fresh (dom (heap w))) as Hfresh.
    apply Hfresh. apply elem_of_dom. eauto. }
  rewrite lookup_insert_ne by congruence.
  rewrite lookup_insert_ne by congruence. exact Hp.
Qed.

(** An attempt that is made sends its request, whatever comes after. *)
Lemma attempts_send_one (fuel : nat) (params : positive) (attempt : Z)
    (todo : list Z) (w : world) :
  (25 <= fuel)%nat ->
  fetcher_ok w ->
  exists rest,
    remote_calls (events_of (attempts fuel params (attempt :: todo) w))
    = default ∅ (heap w !! params) :: rest.
Proof.
  intros Hfuel Hok. rewrite attempts_cons.
  destruct (wait_returns fuel w Hok Hfuel)
    as [w1 [polls [-> [Hok1 [[Hh [Hn Hk]] [Hs Hp]]]]]].
  destruct (polling_quiet polls Hp) as [Hq1 _].
  pose proof (request_once_any params attempt w1) as Hany. cbn zeta in Hany.
  destruct Hany as [_ [_ [_ [_ [Hcalls _]]]]]. rewrite Hh in Hcalls.
  destruct (request_once params attempt w1) as [[[[d| |]|e|] w2] evs];
    cbn [events_of snd] in Hcalls; cbn zeta;
    unfold preceded_by, events_of; cbn [fst snd];
    rewrite ?remote_calls_app, Hq1, Hcalls; cbn; eauto.
Qed.

(** The public calls send at least the request of their first attempt,
    and leave the key of the fetcher as it is. *)
Lemma wrapper_sends (fuel : nat) (d : gmap string pyval) (w : world) :
  let x := bind (alloc d) (fun params => _make_request fuel params) w in
  api_key (fetcher (state_of x)) = api_key (fetcher w) /\
  ((25 <= fuel)%nat -> fetcher_ok w ->
   <["apikey" := api_key (fetcher w)]> d ∈ remote_calls (events_of x)).
Proof.
  cbn zeta.
  set (p0 := fresh (dom (heap w))).
  set (w0 := {| clock := clock w; fetcher := fetcher w;
                heap := <[p0 := d]> (heap w);
                network := network w; elapsed := elapsed w; sent := sent w |}).
  assert (alloc d w = (Ret p0, w0, [])) as Ealloc by reflexivity.
  rewrite (bind_ret_eq _ _ _ _ _ _ Ealloc), make_request_eq.
  set (w1 := with_item p0 "apikey" (api_key (fetcher w0)) w0).
  split.
  - pose proof (attempts_frame fuel p0 (range max_retries) w1) as H.
    cbn zeta in H. destruct H as [[_ [_ Hkey]] _].
    unfold preceded_by, state_of. cbn [fst snd]. exact Hkey.
  - intros Hfuel Hok.
    assert (fetcher_ok w1) as Hok1.
    { destruct Hok as [Hb Hm Hf]. now split. }
    change (range max_retries) with (0 :: [1; 2; 3; 4]).
    destruct (attempts_send_one fuel p0 0 [1; 2; 3; 4] w1 Hfuel Hok1) as [rest Hrest].
    unfold preceded_by, events_of. cbn [fst snd app].
    unfold events_of in Hrest. rewrite Hrest.
    unfold w1 at 1. cbn [heap with_item w0]. rewrite !lookup_insert_eq. cbn.
    apply list_elem_of_here.
Qed.

(** X12.  [get_company_overview] and [get_stock_price] work on a
    dictionary of their own: every dictionary that existed before the
    call is as it was after it, and every request sent carries exactly
    the function, the symbol and the key of the fetcher; there are at
    most five. *)
Theorem public_calls_leave_dictionaries_alone
    (fuel : nat) (symbol : string) (w : world) :
  ((forall p old, heap w !! p = Some old ->
      heap (state_of (get_company_overview fuel symbol w)) !! p = Some old) /\
   Forall (fun q => q = <["apikey" := api_key (fetcher w)]>
                         (<["function" := PStr "OVERVIEW"]>
                            (<["symbol" := PStr symbol]> ∅)))
          (remote_calls (events_of (get_company_overview fuel symbol w))) /\
   (length (remote_calls (events_of (get_company_overview fuel symbol w))) <= 5)%nat)
  /\
  ((forall p old, heap w !! p = Some old ->
      heap (state_of (get_stock_price fuel symbol w)) !! p = Some old) /\
   Forall (fun q => q = <["apikey" := api_key (fetcher w)]>
                         (<["function" := PStr "GLOBAL_QUOTE"]>
                            (<["symbol" := PStr symbol]> ∅)))
          (remote_calls (events_of (get_stock_price fuel symbol w))) /\
   (length (remote_calls (events_of (get_stock_price fuel symbol w))) <= 5)%nat).
Proof.
  split; apply wrapper_frame.
Qed.

(** X26.  [get_daily_prices] works on a dictionary of its own too, and
    every request it sends carries the function [TIME_SERIES_DAILY],
    the symbol, the output size of the call and the key of the fetcher;
    there are at most five. *)
Theorem daily_prices_carry_the_output_size
    (fuel : nat) (symbol outputsize : string) (w : world) :
  (forall p old, heap w !! p = Some old ->
     heap (state_of (get_daily_prices fuel symbol outputsize w)) !! p = Some old) /\
  Forall (fun q => q = <["apikey" := api_key (fetcher w)]>
                        (<["function" := PStr "TIME_SERIES_DAILY"]>
                           (<["symbol" := PStr symbol]>
                              (<["outputsize" := PStr outputsize]> ∅))))
         (remote_calls (events_of (get_daily_prices fuel symbol outputsize w))) /\
  (length (remote_calls (events_of (get_daily_prices fuel symbol outputsize w)))
   <= 5)%nat.
Proof. apply wrapper_frame. Qed.

End FetcherMore.

(** * Rules for conditions before and after *)

Module HoareFacts.
Import Py Eff Hoare EffFacts.

Lemma result_of_preceded {S A} evs (x : res A * S * list event) :
  result_of (preceded_by evs x) = result_of x.
Proof. reflexivity. Qed.

Lemma state_of_preceded {S A} evs (x : res A * S * list event) :
  state_of (preceded_by evs x) = state_of x.
Proof. reflexivity. Qed.

Lemma events_of_preceded {S A} evs (x : res A * S * list event) :
  events_of (preceded_by evs x) = evs ++ events_of x.
Proof. reflexivity. Qed.

Section Rules.
Context {S : Type}.

Lemma hoare_weaken {A} (P P' : S -> Prop) (m : M S A) (Q Q' : res A -> S -> Prop) :
  hoare P' m Q' ->
  (forall s, P s -> P' s) ->
  (forall r s, Q' r s -> Q r s) ->
  hoare P m Q.
Proof. intros Hm HP HQ s Hs. apply HQ, Hm, HP, Hs. Qed.

Lemma hoare_bind {A B} (P : S -> Prop) (m : M S A) (k : A -> M S B)
    (Q1 : res A -> S -> Prop) (Q : res B -> S -> Prop) :
  hoare P m Q1 ->
  (forall a, hoare (Q1 (Ret a)) (k a) Q) ->
  (forall e s, Q1 (Raise e) s -> Q (Raise e) s) ->
  (forall s, Q1 OutOfFuel s -> Q OutOfFuel s) ->
  hoare P (bind m k) Q.
Proof.
  intros Hm Hk He Hf s Hs. specialize (Hm s Hs).
  destruct (m s) as [[[a|e|] s1] t1] eqn:E; cbn in Hm.
  - rewrite (bind_ret_eq _ _ _ _ _ _ E). apply (Hk a s1 Hm).
  - rewrite (bind_raise_eq _ _ _ _ _ _ E). now apply He.
  - rewrite (bind_fuel_eq _ _ _ _ _ E). now apply Hf.
Qed.

Lemma hoare_try {A} (P : S -> Prop) (m : M S A) (h : exn -> M S A)
    (Q1 Q : res A -> S -> Prop) :
  hoare P m Q1 ->
  (forall e, hoare (Q1 (Raise e)) (h e) Q) ->
  (forall a s, Q1 (Ret a) s -> Q (Ret a) s) ->
  (forall s, Q1 OutOfFuel s -> Q OutOfFuel s) ->
  hoare P (try_except m h) Q.
Proof.
  intros Hm Hh Hr Hf s Hs. specialize (Hm s Hs).
  destruct (m s) as [[[a|e|] s1] t1] eqn:E; cbn in Hm.
  - rewrite (try_ret_eq _ _ _ _ _ _ E). now apply Hr.
  - rewrite (try_raise_eq _ _ _ _ _ _ E). apply (Hh e s1 Hm).
  - rewrite (try_fuel_eq _ _ _ _ _ E). now apply Hf.
Qed.

(** A condition on the state alone, through the statements that keep
    it. *)
Lemma inv_bind {A B} (I : S -> Prop) (m : M S A) (k : A -> M S B) :
  hoare I m (fun _ => I) ->
  (forall a, hoare I (k a) (fun _ => I)) ->
  hoare I (bind m k) (fun _ => I).
Proof. intros Hm Hk. apply (hoare_bind I m k (fun _ => I)); auto. Qed.

Lemma inv_try {A} (I : S -> Prop) (m : M S A) (h : exn -> M S A) :
  hoare I m (fun _ => I) ->
  (forall e, hoare I (h e) (fun _ => I)) ->
  hoare I (try_except m h) (fun _ => I).
Proof. intros Hm Hh. apply (hoare_try I m h (fun _ => I)); auto. Qed.

Lemma inv_returns {A} (I : S -> Prop) (m : M S A) :
  returns m -> hoare I m (fun _ => I).
Proof. intros Hm s Hs. destruct (Hm s) as [-> _]. exact Hs. Qed.

Lemma hoare_seq {A B} (I : S -> Prop) (m : M S A) (k : A -> M S B)
    (Q : res B -> S -> Prop) :
  hoare I m (fun _ => I) ->
  (forall a, hoare I (k a) Q) ->
  (forall e s, I s -> Q (Raise e) s) ->
  (forall s, I s -> Q OutOfFuel s) ->
  hoare I (bind m k) Q.
Proof. intros Hm Hk He Hf. apply (hoare_bind I m k (fun _ => I)); auto. Qed.

(** A statement that changes no state, with what its value is known
    to satisfy. *)
Lemma hoare_value {A B} (I : S -> Prop) (m : M S A) (k : A -> M S B)
    (good : A -> Prop) (Q : res B -> S -> Prop) :
  returns m ->
  (forall s a, result_of (m s) = Ret a -> good a) ->
  (forall a, good a -> hoare I (k a) Q) ->
  hoare I (bind m k) Q.
Proof.
  intros Hm Hgood Hk s Hs. destruct (Hm s) as [Hst [a Ha]].
  pose proof (Hgood s a Ha) as Hg.
  destruct (m s) as [[r s1] t1] eqn:E. cbn in Hst, Ha. subst r s1.
  rewrite (bind_ret_eq _ _ _ _ _ _ E). apply (Hk a Hg s Hs).
Qed.

(** Statements that change no state. *)
Lemma returns_ret {A} (a : A) : returns (@ret S A a).
Proof. intros s. split; [reflexivity | now exists a]. Qed.

Lemma returns_print text args : returns (@print S text args).
Proof. intros s. split; [reflexivity | now exists tt]. Qed.

Lemma returns_bind {A B} (m : M S A) (k : A -> M S B) :
  returns m -> (forall a, returns (k a)) -> returns (bind m k).
Proof.
  intros Hm Hk s. destruct (Hm s) as [Hs [a Ha]].
  destruct (m s) as [[r s1] t1] eqn:E. cbn in Hs, Ha. subst r s1.
  rewrite (bind_ret_eq _ _ _ _ _ _ E). apply Hk.
Qed.

Lemma quiet_ret {A} (a : A) : quiet (@ret S A a).
Proof. intros s. now split. Qed.

Lemma quiet_raise {A} (e : exn) : quiet (@raise S A e).
Proof. intros s. now split. Qed.

Lemma quiet_read : quiet (@read S).
Proof. intros s. now split. Qed.

Lemma quiet_of_result {A} (r : result A) : quiet (@of_result S A r).
Proof. destruct r; [apply quiet_ret | apply quiet_raise]. Qed.

Lemma quiet_bind {A B} (m : M S A) (k : A -> M S B) :
  quiet m -> (forall a, quiet (k a)) -> quiet (bind m k).
Proof.
  intros Hm Hk s. destruct (Hm s) as [Hs Hr].
  destruct (m s) as [[[a|e|] s1] t1] eqn:E; cbn in Hs, Hr; subst s1.
  - rewrite (bind_ret_eq _ _ _ _ _ _ E). apply Hk.
  - rewrite (bind_raise_eq _ _ _ _ _ _ E). now split.
  - now contradiction Hr.
Qed.

Lemma returns_try {A} (m : M S A) (h : exn -> M S A) :
  quiet m -> (forall e, returns (h e)) -> returns (try_except m h).
Proof.
  intros Hm Hh s. destruct (Hm s) as [Hs Hr].
  destruct (m s) as [[[a|e|] s1] t1] eqn:E; cbn in Hs, Hr; subst s1.
  - rewrite (try_ret_eq _ _ _ _ _ _ E). split; [reflexivity | now exists a].
  - rewrite (try_raise_eq _ _ _ _ _ _ E). apply Hh.
  - now contradiction Hr.
Qed.

End Rules.

End HoareFacts.

(** * Further properties of the pipeline *)

Module PipelineMore.
Import Py Eff Hoare Integrity Keeps Pipeline EffFacts HoareFacts.

Create HintDb quiet.
#[local] Hint Resolve quiet_ret quiet_raise quiet_read quiet_of_result quiet_bind
  returns_ret returns_print returns_bind : quiet.

Section WithEnvironment.
Context {float : Type}.
Variable float_ : pyval -> result float.
Variable now_ : Q -> nat -> datetime.
Variable storage_accepts : database float -> bool.

(** ** Transform *)

Lemma transform_stock_returns {S} (symbol : string)
    (company_data : option (gmap string pyval)) :
  returns (@transform_stock S symbol company_data).
Proof.
  unfold transform_stock. apply returns_bind; [apply returns_print|]. intros _.
  destruct company_data as [data|]; [|apply returns_ret].
  destruct (negb _); [apply returns_ret|].
  apply returns_try; [|auto with quiet].
  apply quiet_bind; [|auto with quiet].
  destruct (truthy _); auto with quiet.
Qed.

Lemma quote_get_quiet {S} (quote : pyval) (key : string) :
  quiet (@quote_get S quote key).
Proof. destruct quote; cbn; auto with quiet. Qed.

Lemma transform_price_returns (stock_id : Z)
    (quote_data : option (gmap string pyval)) :
  returns (transform_price float_ now_ stock_id quote_data).
Proof.
  pose proof (@quote_get_quiet (state float)).
  unfold transform_price.
  destruct quote_data as [data|]; [|apply returns_ret].
  destruct (_ || _); [apply returns_ret|].
  apply returns_try; [|auto with quiet].
  repeat (apply quiet_bind; [now auto with quiet|]; intros ?).
  apply quiet_ret.
Qed.

Lemma transform_fundamental_returns (stock_id : Z)
    (company_data : option (gmap string pyval)) :
  returns (transform_fundamental float_ now_ stock_id company_data).
Proof.
  unfold transform_fundamental.
  destruct company_data as [data|]; [|apply returns_ret].
  destruct (negb _); [apply returns_ret|].
  apply returns_try; [|auto with quiet].
  repeat (apply quiet_bind; [now auto with quiet|]; intros ?).
  apply quiet_ret.
Qed.

(** X13.  The three transforms never raise and never touch the state:
    whatever the payload, each of them returns, a record or [None], in
    the state it was called in. *)
Theorem transforms_return_and_change_nothing
    (symbol : string) (stock_id : Z) (payload : option (gmap string pyval))
    (s : state float) :
  (state_of (transform_stock symbol payload s) = s /\
   exists r, result_of (transform_stock symbol payload s) = Ret r) /\
  (state_of (transform_price float_ now_ stock_id payload s) = s /\
   exists r, result_of (transform_price float_ now_ stock_id payload s) = Ret r) /\
  (state_of (transform_fundamental float_ now_ stock_id payload s) = s /\
   exists r,
     result_of (transform_fundamental float_ now_ stock_id payload s) = Ret r).
Proof.
  split; [|split].
  - apply transform_stock_returns.
  - apply transform_price_returns.
  - apply transform_fundamental_returns.
Qed.

(** X14.  Called without a payload, with [None] or with an empty
    dictionary, the three transforms make no record: [transform_stock]
    after its first line, the other two without a line. *)
Theorem transforms_without_payload
    (symbol : string) (stock_id : Z) (payload : option (gmap string pyval))
    (s : state float) :
  falsy_payload payload = true ->
  transform_stock symbol payload s
  = (Ret None, s,
     [Print "  [TRANSFORM] Processing stock data for {}..." [AStr symbol]]) /\
  transform_price float_ now_ stock_id payload s = (Ret None, s, []) /\
  transform_fundamental float_ now_ stock_id payload s = (Ret None, s, []).
Proof.
  unfold falsy_payload, transform_stock, transform_price, transform_fundamental.
  destruct payload as [data|]; intros H; [rewrite H|]; now repeat split.
Qed.

(** X15.  For a payload that is not empty and has a string that is not
    empty under ["MarketCapitalization"], a string of code points below
    256: when [int] reads the string (blanks around, a sign, decimal
    digits, single underscores between them, 4300 digits at most), the
    record has that integer as its market cap; when it does not, no
    record is made and the [ValueError] is printed. *)
Theorem transform_stock_reads_the_market_cap
    {S : Type} (symbol : string) (data : gmap string pyval) (s : S)
    (literal : string) :
  truthy (PDict data) = true ->
  data !! "MarketCapitalization" = Some (PStr literal) ->
  literal <> "" ->
  match int_of_str literal with
  | Some z =>
      exists stock,
        result_of (transform_stock symbol (Some data) s) = Ret (Some stock) /\
        Stock.market_cap stock = Some z
  | None =>
      transform_stock symbol (Some data) s
      = (Ret None, s,
         [Print "  [TRANSFORM] Processing stock data for {}..." [AStr symbol];
          Print "  [ERROR] Transform failed for {}: {}"
                [AStr symbol; AExn ValueError]])
  end.
Proof.
  intros Hdata Hcap Hlit.
  assert (String.eqb literal "" = false) as Hne.
  { apply String.eqb_neq. exact Hlit. }
  assert (get data "MarketCapitalization" (PStr "0") = PStr literal) as Hget.
  { unfold get. now rewrite Hcap. }
  destruct (int_of_str literal) as [z|] eqn:Hint;
    rewrite (PipelineFacts.transform_stock_some symbol data s Hdata); cbn zeta;
    rewrite Hget; cbn [truthy int]; rewrite Hne, Hint; cbn [negb].
  - eexists. split; reflexivity.
  - reflexivity.
Qed.

(** X16.  A quote without the five fields that are read, as the empty
    ["Global Quote"] of a symbol that is not known, is no failure:
    each absent field is read as [0], and [transform_price] makes a
    record with the four prices [float(0)] and the volume [0], for the
    given stock id and the date of the day, and prints nothing. *)
Theorem missing_quote_fields_are_zero
    (stock_id : Z) (data q : gmap string pyval) (s : state float) (zero : float) :
  data !! "Global Quote" = Some (PDict q) ->
  q !! "02. open" = None ->
  q !! "03. high" = None ->
  q !! "04. low" = None ->
  q !! "05. price" = None ->
  q !! "06. volume" = None ->
  float_ (PInt 0) = Ok zero ->
  transform_price float_ now_ stock_id (Some data) s
  = (Ret (Some {| Price.id := None;
                  Price.stock_id := stock_id;
                  Price.date := date_of (now_ (Fetcher.clock (env s)) 0%nat);
                  Price.open := zero;
                  Price.high := zero;
                  Price.low := zero;
                  Price.close := zero;
                  Price.volume := 0 |}), s, []).
Proof.
  intros Hq Hopen Hhigh Hlow Hprice Hvolume Hzero.
  assert (truthy (PDict data) = true) as Hdata.
  { cbn. apply negb_true_iff, bool_decide_eq_false. intros Hsize.
    apply map_size_empty_iff in Hsize. subst data. now rewrite lookup_empty in Hq. }
  assert (contains data "Global Quote" = true) as Hhas.
  { unfold contains. apply bool_decide_eq_true. eauto. }
  assert (get data "Global Quote" PNone = PDict q) as Hget.
  { unfold get. now rewrite Hq. }
  unfold transform_price. rewrite Hdata, Hhas, Hget. cbn [negb orb].
  unfold try_except, bind, read, quote_get, of_result, ret, get.
  rewrite Hopen, Hhigh, Hlow, Hprice, Hvolume, Hzero. reflexivity.
Qed.

(** X28.  When what the payload has under ["Global Quote"] is no
    dictionary (a null, a number, a string), the first [quote.get]
    raises: [transform_price] prints the [AttributeError] and returns
    [None]. *)
Theorem quote_that_is_no_dictionary
    (stock_id : Z) (data : gmap string pyval) (v : pyval) (s : state float) :
  data !! "Global Quote" = Some v ->
  (forall q, v <> PDict q) ->
  transform_price float_ now_ stock_id (Some data) s
  = (Ret None, s,
     [Print "  [ERROR] Transform price failed: {}" [AExn AttributeError]]).
Proof.
  intros Hq Hv.
  assert (truthy (PDict data) = true) as Hdata.
  { cbn. apply negb_true_iff, bool_decide_eq_false. intros Hsize.
    apply map_size_empty_iff in Hsize. subst data. now rewrite lookup_empty in Hq. }
  assert (contains data "Global Quote" = true) as Hhas.
  { unfold contains. apply bool_decide_eq_true. eauto. }
  assert (get data "Global Quote" PNone = v) as Hget.
  { unfold get. now rewrite Hq. }
  unfold transform_price. rewrite Hdata, Hhas, Hget. cbn [negb orb].
  destruct v as [|b|z|str|q]; try reflexivity.
  now destruct (Hv q).
Qed.

(** ** Load *)

Lemma load_price_eq (price : Price.t float) (s : state float) :
  load_price storage_accepts price s
  = preceded_by [Print "  [LOAD] Saving price data..." []]
      (let d := db s in
       let pending :=
         {| stocks := stocks d;
            prices := prices d ++
              [ {| Price.id := Some (next_price_id d);
                   Price.stock_id := Price.stock_id price;
                   Price.date := Price.date price;
                   Price.open := Price.open price;
                   Price.high := Price.high price;
                   Price.low := Price.low price;
                   Price.close := Price.close price;
                   Price.volume := Price.volume price |} ];
            fundamentals := fundamentals d;
            next_stock_id := next_stock_id d;
            next_price_id := next_price_id d + 1;
            next_fundamental_id := next_fundamental_id d |} in
       if storage_accepts pending
       then (Ret true, {| env := env s; db := pending |}, [])
       else (Ret false, s,
             [Print "  [ERROR] Load price failed: {}" [AExn StorageError]])).
Proof.
  unfold load_price. unfold bind at 1. cbn [print emit].
  unfold try_except, bind, read, commit. cbn zeta.
  now destruct (storage_accepts _).
Qed.

Lemma load_fundamental_eq (fundamental : Fundamental.t float) (s : state float) :
  load_fundamental storage_accepts fundamental s
  = preceded_by [Print "  [LOAD] Saving fundamental data..." []]
      (let d := db s in
       let pending :=
         {| stocks := stocks d;
            prices := prices d;
            fundamentals := fundamentals d ++
              [ {| Fundamental.id := Some (next_fundamental_id d);
                   Fundamental.stock_id := Fundamental.stock_id fundamental;
                   Fundamental.quarter := Fundamental.quarter fundamental;
                   Fundamental.revenue := Fundamental.revenue fundamental;
                   Fundamental.net_income := Fundamental.net_income fundamental;
                   Fundamental.eps := Fundamental.eps fundamental;
                   Fundamental.pe_ratio := Fundamental.pe_ratio fundamental;
                   Fundamental.debt_to_equity :=
                     Fundamental.debt_to_equity fundamental;
                   Fundamental.reported_at :=
                     Fundamental.reported_at fundamental |} ];
            next_stock_id := next_stock_id d;
            next_price_id := next_price_id d;
            next_fundamental_id := next_fundamental_id d + 1 |} in
       if storage_accepts pending
       then (Ret true, {| env := env s; db := pending |}, [])
       else (Ret false, s,
             [Print "  [ERROR] Load fundamental failed: {}" [AExn StorageError]])).
Proof.
  unfold load_fundamental. unfold bind at 1. cbn [print emit].
  unfold try_except, bind, read, commit. cbn zeta.
  now destruct (storage_accepts _).
Qed.

(** X17.  [load_price] and [load_fundamental] never raise.  Each
    returns [True] after a commit that appends exactly one row to its
    table, the given record in every field but the id, which is the next
    one of the sequence, and changes nothing else but that sequence; or
    it returns [False] after a refused commit, which leaves the state as
    it was. *)
Theorem dependent_loads_append_or_do_nothing
    (price : Price.t float) (fundamental : Fundamental.t float) (s : state float) :
  (let s' := state_of (load_price storage_accepts price s) in
   (result_of (load_price storage_accepts price s) = Ret true /\
    env s' = env s /\
    prices (db s')
    = prices (db s)
      ++ [ {| Price.id := Some (next_price_id (db s));
              Price.stock_id := Price.stock_id price;
              Price.date := Price.date price;
              Price.open := Price.open price;
              Price.high := Price.high price;
              Price.low := Price.low price;
              Price.close := Price.close price;
              Price.volume := Price.volume price |} ] /\
    next_price_id (db s') = next_price_id (db s) + 1 /\
    stocks (db s') = stocks (db s) /\
    fundamentals (db s') = fundamentals (db s) /\
    next_stock_id (db s') = next_stock_id (db s) /\
    next_fundamental_id (db s') = next_fundamental_id (db s)) \/
   (result_of (load_price storage_accepts price s) = Ret false /\ s' = s)) /\
  (let s' := state_of (load_fundamental storage_accepts fundamental s) in
   (result_of (load_fundamental storage_accepts fundamental s) = Ret true /\
    env s' = env s /\
    fundamentals (db s')
    = fundamentals (db s)
      ++ [ {| Fundamental.id := Some (next_fundamental_id (db s));
              Fundamental.stock_id := Fundamental.stock_id fundamental;
              Fundamental.quarter := Fundamental.quarter fundamental;
              Fundamental.revenue := Fundamental.revenue fundamental;
              Fundamental.net_income := Fundamental.net_income fundamental;
              Fundamental.eps := Fundamental.eps fundamental;
              Fundamental.pe_ratio := Fundamental.pe_ratio fundamental;
              Fundamental.debt_to_equity :=
                Fundamental.debt_to_equity fundamental;
              Fundamental.reported_at :=
                Fundamental.reported_at fundamental |} ] /\
    next_fundamental_id (db s') = next_fundamental_id (db s) + 1 /\
    stocks (db s') = stocks (db s) /\
    prices (db s') = prices (db s) /\
    next_stock_id (db s') = next_stock_id (db s) /\
    next_price_id (db s') = next_price_id (db s)) \/
   (result_of (load_fundamental storage_accepts fundamental s) = Ret false /\
    s' = s)).
Proof.
  split; cbn zeta.
  - rewrite load_price_eq. cbn zeta. destruct (storage_accepts _).
    + left. cbn. repeat split.
    + right. split; reflexivity.
  - rewrite load_fundamental_eq. cbn zeta. destruct (storage_accepts _).
    + left. cbn. repeat split.
    + right. split; reflexivity.
Qed.

(** ** What the tables keep *)

Lemma grows_refl (d : database float) : grows d d.
Proof. repeat split; reflexivity. Qed.

Lemma grows_trans (d1 d2 d3 : database float) :
  grows d1 d2 -> grows d2 d3 -> grows d1 d3.
Proof.
  intros [A1 [B1 C1]] [A2 [B2 C2]].
  repeat split; etransitivity; eassumption.
Qed.

Lemma kept_refl (d : database float) : kept d d.
Proof. split; [apply grows_refl | auto]. Qed.

Lemma kept_trans (d1 d2 d3 : database float) :
  kept d1 d2 -> kept d2 d3 -> kept d1 d3.
Proof.
  intros [G1 I1] [G2 I2]. split; [eapply grows_trans; eassumption | auto].
Qed.

Lemma ids_of_pairs (table : list Stock.t) :
  Stock.id <$> table = fst <$> (id_ticker <$> table).
Proof. rewrite <- list_fmap_compose. reflexivity. Qed.

Lemma tickers_of_pairs (table : list Stock.t) :
  Stock.ticker <$> table = snd <$> (id_ticker <$> table).
Proof. rewrite <- list_fmap_compose. reflexivity. Qed.

Lemma prefix_elem_of {A} (l k : list A) (x : A) :
  l `prefix_of` k -> x ∈ l -> x ∈ k.
Proof. intros [rest ->] H. apply elem_of_app. now left. Qed.

Lemma grows_has_stock (d d' : database float) (id : Z) :
  grows d d' -> has_stock d id -> has_stock d' id.
Proof.
  intros [Hp _]. unfold has_stock. rewrite !ids_of_pairs.
  apply prefix_elem_of. destruct Hp as [rest ->].
  exists (fst <$> rest). apply fmap_app.
Qed.

Lemma grows_ticker (d d' : database float) (t : string) :
  grows d d' ->
  t ∈ (Stock.ticker <$> stocks d) -> t ∈ (Stock.ticker <$> stocks d').
Proof.
  intros [Hp _]. rewrite !tickers_of_pairs.
  apply prefix_elem_of. destruct Hp as [rest ->].
  exists (snd <$> rest). apply fmap_app.
Qed.

(** The constraints after a step that keeps the rows of [stocks] with
    their ids and adds rows that point to them. *)
Lemma refs_ok_step (d d' : database float) :
  grows d d' ->
  refs_ok d ->
  (forall p, p ∈ prices d' -> p ∈ prices d \/ has_stock d' (Price.stock_id p)) ->
  (forall f, f ∈ fundamentals d' ->
             f ∈ fundamentals d \/ has_stock d' (Fundamental.stock_id f)) ->
  refs_ok d'.
Proof.
  intros Hg [Hp Hf] Hp' Hf'. split; apply Forall_forall.
  - intros p Hin. destruct (Hp' p Hin) as [Hold|Hnew]; [|exact Hnew].
    apply (grows_has_stock d d' _ Hg).
    now apply (proj1 (Forall_forall _ _) Hp).
  - intros f Hin. destruct (Hf' f Hin) as [Hold|Hnew]; [|exact Hnew].
    apply (grows_has_stock d d' _ Hg).
    now apply (proj1 (Forall_forall _ _) Hf).
Qed.

Lemma overwrite_keeps_pairs (table : list Stock.t) (i : nat)
    (existing stock : Stock.t) :
  table !! i = Some existing ->
  id_ticker <$> <[i := overwritten existing stock]> table = id_ticker <$> table.
Proof.
  intros Hi. rewrite list_fmap_insert.
  apply list_insert_id. rewrite list_lookup_fmap, Hi. reflexivity.
Qed.

(** [load_stock] on a state reached from [d0]: what it keeps and what
    an id it returns stands for. *)
Lemma load_stock_kept (d0 : database float) (stock : Stock.t) (s : state float) :
  kept d0 (db s) ->
  kept d0 (db (state_of (load_stock storage_accepts stock s))) /\
  env (state_of (load_stock storage_accepts stock s)) = env s /\
  exists a,
    result_of (load_stock storage_accepts stock s) = Ret a /\
    forall id, a = Some id ->
      has_stock (db (state_of (load_stock storage_accepts stock s))) id /\
      Stock.ticker stock
      ∈ (Stock.ticker <$> stocks (db (state_of (load_stock storage_accepts stock s)))).
Proof.
  intros Hkept. rewrite PipelineFacts.load_stock_eq. cbn zeta.
  rewrite state_of_preceded, result_of_preceded.
  destruct (query_stock (Stock.ticker stock) (stocks (db s)))
    as [[i existing]|] eqn:Hq.
  - pose proof Hq as Hfound. apply list_find_Some in Hfound as [Hi [Hex _]].
    destruct (storage_accepts _);
      [|split; [exact Hkept|]; split; [reflexivity|];
        exists None; split; [reflexivity | discriminate]].
    cbn [state_of result_of fst snd db env].
    pose proof (overwrite_keeps_pairs _ i existing stock Hi) as Hpairs.
    assert (grows (db s)
              (with_stocks (<[i:=overwritten existing stock]> (stocks (db s)))
                 (next_stock_id (db s)) (db s))) as Hg.
    { repeat split; cbn; [now rewrite Hpairs | reflexivity | reflexivity]. }
    split; [|split; [reflexivity|]].
    + apply (kept_trans d0 (db s)); [exact Hkept|]. split; [exact Hg|].
      intros [[Hnd Hids] Hrefs]. split; [split|].
      * cbn. rewrite tickers_of_pairs, Hpairs, <- tickers_of_pairs. exact Hnd.
      * cbn. apply Forall_insert; [exact Hids|].
        apply (proj1 (Forall_lookup _ _) Hids i existing Hi).
      * apply (refs_ok_step (db s)); [exact Hg | exact Hrefs | cbn; auto ..].
    + exists (Stock.id existing). split; [reflexivity|]. intros id Hid.
      unfold has_stock. cbn.
      rewrite ids_of_pairs, tickers_of_pairs, Hpairs, <- ids_of_pairs,
        <- tickers_of_pairs.
      split; apply list_elem_of_fmap; exists existing;
        (split; [congruence | eapply list_elem_of_lookup_2; eassumption]).
  - destruct (storage_accepts _);
      [|split; [exact Hkept|]; split; [reflexivity|];
        exists None; split; [reflexivity | discriminate]].
    cbn [state_of result_of fst snd db env].
    set (row := with_id (next_stock_id (db s)) stock).
    assert (grows (db s)
              (with_stocks (stocks (db s) ++ [row]) (next_stock_id (db s) + 1) (db s)))
      as Hg.
    { repeat split; cbn; [|reflexivity|reflexivity].
      rewrite fmap_app. now apply prefix_app_r. }
    split; [|split; [reflexivity|]].
    + apply (kept_trans d0 (db s)); [exact Hkept|]. split; [exact Hg|].
      intros [[Hnd Hids] Hrefs]. split; [split|].
      * cbn. rewrite fmap_app. apply NoDup_app. split; [exact Hnd|]. split.
        -- intros t Ht Hin. cbn in Hin. apply list_elem_of_singleton in Hin. subst t.
           apply list_elem_of_fmap in Ht as [r [Hr Hin]].
           apply PipelineFacts.query_stock_none in Hq.
           apply (proj1 (Forall_forall _ _) Hq r Hin). now symmetry.
        -- cbn. apply NoDup_singleton.
      * cbn. apply Forall_app. split.
        -- eapply Forall_impl; [exact Hids|]. cbn. intros r [j [Hj Hlt]].
           exists j. split; [exact Hj | lia].
        -- constructor; [|constructor]. exists (next_stock_id (db s)). cbn.
           split; [reflexivity | lia].
      * apply (refs_ok_step (db s)); [exact Hg | exact Hrefs | cbn; auto ..].
    + exists (Some (next_stock_id (db s))). split; [reflexivity|].
      intros id [= <-]. unfold has_stock. cbn. rewrite !fmap_app.
      split; apply elem_of_app; right; cbn; apply list_elem_of_singleton; reflexivity.
Qed.

(** The id that [load_stock] returns is the id of the row that has the
    ticker of the call. *)
Lemma load_stock_returns_its_row (stock : Stock.t) (s : state float) (id : Z) :
  result_of (load_stock storage_accepts stock s) = Ret (Some id) ->
  exists row,
    row ∈ stocks (db (state_of (load_stock storage_accepts stock s))) /\
    Stock.id row = Some id /\
    Stock.ticker row = Stock.ticker stock /\
    Stock.name row = Stock.name stock /\
    Stock.sector row = Stock.sector stock /\
    Stock.market_cap row = Stock.market_cap stock.
Proof.
  rewrite PipelineFacts.load_stock_eq. cbn zeta.
  rewrite state_of_preceded, result_of_preceded.
  destruct (query_stock (Stock.ticker stock) (stocks (db s)))
    as [[i existing]|] eqn:Hq.
  - apply list_find_Some in Hq as [Hi [Hex _]].
    destruct (storage_accepts _); [|discriminate].
    cbn [state_of result_of fst snd db]. intros [= Hid].
    exists (overwritten existing stock). split.
    + cbn. apply (list_elem_of_lookup_2 _ i).
      apply list_lookup_insert_eq. eapply lookup_lt_Some, Hi.
    + cbn. auto.
  - destruct (storage_accepts _); [|discriminate].
    cbn [state_of result_of fst snd db]. intros [= <-].
    exists (with_id (next_stock_id (db s)) stock). split.
    + cbn. apply elem_of_app. right. apply list_elem_of_here.
    + cbn. auto.
Qed.

(** X18.  [load_stock] never raises, and keeps the tables in order:
    from a [stocks] table with distinct tickers and ids below the next
    one of the sequence, and prices and fundamentals that point to rows
    of it, it leaves tables of the same kind; every row is still in its
    place with its id and its ticker; and an id it returns is the id of
    a row of the table that has the ticker, the name, the sector and the
    market cap of the call. *)
Theorem load_stock_keeps_the_constraints (stock : Stock.t) (s : state float) :
  let s' := state_of (load_stock storage_accepts stock s) in
  grows (db s) (db s') /\
  (stocks_wf (db s) /\ refs_ok (db s) -> stocks_wf (db s') /\ refs_ok (db s')) /\
  env s' = env s /\
  exists a,
    result_of (load_stock storage_accepts stock s) = Ret a /\
    forall id, a = Some id ->
      exists row,
        row ∈ stocks (db s') /\
        Stock.id row = Some id /\
        Stock.ticker row = Stock.ticker stock /\
        Stock.name row = Stock.name stock /\
        Stock.sector row = Stock.sector stock /\
        Stock.market_cap row = Stock.market_cap stock.
Proof.
  cbn zeta.
  destruct (load_stock_kept (db s) stock s (kept_refl _)) as [[Hg Hi] [He [a [Ha _]]]].
  split; [exact Hg|]. split; [exact Hi|]. split; [exact He|].
  exists a. split; [exact Ha|]. intros id ->.
  now apply load_stock_returns_its_row.
Qed.

(** ** Run *)

Lemma in_fetcher_db {A} (m : M Fetcher.world A) (s : state float) :
  db (state_of (in_fetcher m s)) = db s.
Proof.
  unfold in_fetcher, zoom. now destruct (m (env s)) as [[r w] evs].
Qed.

Lemma extract_company_info_db (fuel : nat) (symbol : string) (s : state float) :
  db (state_of (extract_company_info fuel symbol s)) = db s.
Proof.
  unfold extract_company_info.
  erewrite bind_ret_eq; [|reflexivity].
  rewrite state_of_preceded. apply in_fetcher_db.
Qed.

Lemma extract_stock_quote_db (fuel : nat) (symbol : string) (s : state float) :
  db (state_of (extract_stock_quote fuel symbol s)) = db s.
Proof.
  unfold extract_stock_quote.
  erewrite bind_ret_eq; [|reflexivity].
  rewrite state_of_preceded. apply in_fetcher_db.
Qed.

Lemma transform_stock_ticker {S} (symbol : string)
    (company_data : option (gmap string pyval)) (s : S) (stock : Stock.t) :
  result_of (transform_stock symbol company_data s) = Ret (Some stock) ->
  Stock.ticker stock = symbol.
Proof.
  destruct company_data as [data|]; [|discriminate].
  destruct (truthy (PDict data)) eqn:Hdata.
  - rewrite (PipelineFacts.transform_stock_some symbol data s Hdata). cbn zeta.
    rewrite result_of_preceded.
    destruct (truthy (get data "MarketCapitalization" (PStr "0"))).
    + destruct (int _); cbn; [|discriminate]. now intros [= <-].
    + cbn. now intros [= <-].
  - unfold transform_stock. rewrite Hdata. discriminate.
Qed.

Lemma transform_price_stock_id (stock_id : Z)
    (quote_data : option (gmap string pyval)) (s : state float)
    (price : Price.t float) :
  result_of (transform_price float_ now_ stock_id quote_data s) = Ret (Some price) ->
  Price.stock_id price = stock_id.
Proof.
  destruct quote_data as [data|]; [|discriminate].
  unfold transform_price.
  destruct (negb (truthy (PDict data)) || negb (contains data "Global Quote"));
    [discriminate|].
  unfold try_except, bind, read, quote_get, of_result, ret, raise.
  destruct (get data "Global Quote" PNone) as [|b|z|str|q]; try discriminate.
  destruct (float_ (get q "02. open" (PInt 0))); [|discriminate].
  destruct (float_ (get q "03. high" (PInt 0))); [|discriminate].
  destruct (float_ (get q "04. low" (PInt 0))); [|discriminate].
  destruct (float_ (get q "05. price" (PInt 0))); [|discriminate].
  destruct (int (get q "06. volume" (PInt 0))); [|discriminate].
  cbn. now intros [= <-].
Qed.

Lemma transform_fundamental_stock_id (stock_id : Z)
    (company_data : option (gmap string pyval)) (s : state float)
    (fundamental : Fundamental.t float) :
  result_of (transform_fundamental float_ now_ stock_id company_data s)
  = Ret (Some fundamental) ->
  Fundamental.stock_id fundamental = stock_id.
Proof.
  destruct company_data as [data|]; [|discriminate].
  destruct (truthy (PDict data)) eqn:Hdata.
  - rewrite (PipelineFacts.transform_fundamental_some float_ now_ stock_id data s Hdata).
    cbn zeta. destruct (int _); [|discriminate]. destruct (int _); [|discriminate].
    cbn. now intros [= <-].
  - unfold transform_fundamental. rewrite Hdata. discriminate.
Qed.

Lemma load_price_row_kept (d0 : database float) (symbol : string) (id : Z)
    (price : Price.t float) :
  Price.stock_id price = id ->
  hoare (row_kept d0 symbol id) (load_price storage_accepts price)
        (fun _ => row_kept d0 symbol id).
Proof.
  intros Hid s [Hkept [Hhas Hticker]]. rewrite load_price_eq. cbn zeta.
  rewrite state_of_preceded.
  destruct (storage_accepts _); cbn [state_of fst snd];
    [|split; [exact Hkept | split; [exact Hhas | exact Hticker]]].
  set (d' := {| stocks := _ |}).
  assert (grows (db s) d') as Hg.
  { repeat split; cbn; [reflexivity | now apply prefix_app_r | reflexivity]. }
  split; [|split; [exact Hhas | exact Hticker]]. cbn [db].
  apply (kept_trans d0 (db s)); [exact Hkept|]. split; [exact Hg|].
  intros [Hwf Hrefs]. split; [exact Hwf|].
  apply (refs_ok_step (db s)); [exact Hg | exact Hrefs | | cbn; auto].
  intros p Hin. cbn in Hin. apply elem_of_app in Hin as [Hin|Hin]; [now left|].
  right. apply list_elem_of_singleton in Hin. subst p. cbn. rewrite Hid. exact Hhas.
Qed.

Lemma load_fundamental_row_kept (d0 : database float) (symbol : string) (id : Z)
    (fundamental : Fundamental.t float) :
  Fundamental.stock_id fundamental = id ->
  hoare (row_kept d0 symbol id) (load_fundamental storage_accepts fundamental)
        (fun _ => row_kept d0 symbol id).
Proof.
  intros Hid s [Hkept [Hhas Hticker]]. rewrite load_fundamental_eq. cbn zeta.
  rewrite state_of_preceded.
  destruct (storage_accepts _); cbn [state_of fst snd];
    [|split; [exact Hkept | split; [exact Hhas | exact Hticker]]].
  set (d' := {| stocks := _ |}).
  assert (grows (db s) d') as Hg.
  { repeat split; cbn; [reflexivity | reflexivity | now apply prefix_app_r]. }
  split; [|split; [exact Hhas | exact Hticker]]. cbn [db].
  apply (kept_trans d0 (db s)); [exact Hkept|]. split; [exact Hg|].
  intros [Hwf Hrefs]. split; [exact Hwf|].
  apply (refs_ok_step (db s)); [exact Hg | exact Hrefs | cbn; auto |].
  intros f Hin. cbn in Hin. apply elem_of_app in Hin as [Hin|Hin]; [now left|].
  right. apply list_elem_of_singleton in Hin. subst f. cbn. rewrite Hid. exact Hhas.
Qed.

(** The steps after the load of the entity. *)
Lemma dependent_steps_keep_the_row (d0 : database float) (symbol : string) (id : Z)
    (quote_data company_data : option (gmap string pyval)) :
  hoare (row_kept d0 symbol id)
    (let* price := transform_price float_ now_ id quote_data in
     (match price with
      | Some price => load_price storage_accepts price >> ret tt
      | None => ret tt
      end) >>
     let* fundamental := transform_fundamental float_ now_ id company_data in
     (match fundamental with
      | Some fundamental => load_fundamental storage_accepts fundamental >> ret tt
      | None => ret tt
      end) >>
     print "  [DONE] {} processed successfully!" [AStr symbol] >>
     ret true)
    (fun _ => row_kept d0 symbol id).
Proof.
  apply (hoare_value _ _ _
           (fun price => forall p, price = Some p -> Price.stock_id p = id)).
  { apply transform_price_returns. }
  { intros s a Ha p ->. exact (transform_price_stock_id _ _ _ _ Ha). }
  intros price Hprice. apply inv_bind.
  { destruct price as [p|]; [|apply inv_returns, returns_ret].
    apply inv_bind; [now apply load_price_row_kept, Hprice|].
    intros _. apply inv_returns, returns_ret. }
  intros _.
  apply (hoare_value _ _ _
           (fun fundamental =>
              forall f, fundamental = Some f -> Fundamental.stock_id f = id)).
  { apply transform_fundamental_returns. }
  { intros s a Ha f ->. exact (transform_fundamental_stock_id _ _ _ _ Ha). }
  intros fundamental Hfundamental. apply inv_bind.
  { destruct fundamental as [f|]; [|apply inv_returns, returns_ret].
    apply inv_bind; [now apply load_fundamental_row_kept, Hfundamental|].
    intros _. apply inv_returns, returns_ret. }
  intros _. apply inv_returns. auto with quiet.
Qed.

(** [process_single_stock] on a state reached from [d0]. *)
Lemma process_single_stock_kept (d0 : database float) (fuel : nat) (symbol : string) :
  hoare (tables_kept d0)
    (process_single_stock float_ now_ storage_accepts fuel symbol)
    (fun r s =>
       tables_kept d0 s /\
       (r = Ret true -> symbol ∈ (Stock.ticker <$> stocks (db s)))).
Proof.
  assert (forall (r : res bool) (s : state float),
             r <> Ret true -> tables_kept d0 s ->
             tables_kept d0 s /\
             (r = Ret true -> symbol ∈ (Stock.ticker <$> stocks (db s)))) as Hno.
  { intros r s Hr Hs. split; [exact Hs | now intros ?]. }
  unfold process_single_stock.
  apply hoare_seq; [apply inv_returns, returns_print | | now auto | now auto].
  intros _.
  apply hoare_seq; [apply inv_returns, returns_print | | now auto | now auto].
  intros _.
  apply hoare_seq; [| | now auto | now auto].
  { intros s Hs. unfold tables_kept. now rewrite extract_company_info_db. }
  intros company_data.
  apply hoare_seq; [| | now auto | now auto].
  { intros s Hs. unfold tables_kept. now rewrite extract_stock_quote_db. }
  intros quote_data.
  apply (hoare_value _ _ _
           (fun stock => forall st, stock = Some st -> Stock.ticker st = symbol)).
  { apply transform_stock_returns. }
  { intros s a Ha st ->. exact (transform_stock_ticker _ _ _ _ Ha). }
  intros [stock|] Hstock.
  2:{ intros s Hs. cbn. now apply Hno. }
  specialize (Hstock stock eq_refl).
  apply (hoare_bind _ _ _
           (fun r s =>
              tables_kept d0 s /\
              forall id, r = Ret (Some id) ->
                has_stock (db s) id /\
                symbol ∈ (Stock.ticker <$> stocks (db s)))).
  - intros s Hs.
    destruct (load_stock_kept d0 stock s Hs) as [Hk [_ [a [Ha Hpost]]]].
    split; [exact Hk|]. rewrite Ha. intros id [= ->]. rewrite <- Hstock.
    now apply Hpost.
  - intros [id|].
    2:{ intros s [Hs _]. cbn. now apply Hno. }
    destruct (falsy_id (Some id)).
    { intros s [Hs _]. cbn. now apply Hno. }
    apply (hoare_weaken _ (row_kept d0 symbol id) _ _ (fun _ => row_kept d0 symbol id)).
    + apply dependent_steps_keep_the_row.
    + intros s [Hs Hpost]. destruct (Hpost id eq_refl) as [H1 H2]. now split.
    + intros r s [Hs [_ Ht]]. split; [exact Hs | now intros _].
  - intros e s [Hs _]. now apply Hno.
  - intros s [Hs _]. now apply Hno.
Qed.

Lemma run_symbol_kept (fuel : nat) (symbol : string) (r : results) (s : state float) :
  let x := run_symbol float_ now_ storage_accepts fuel symbol r s in
  kept (db s) (db (state_of x)) /\
  forall r', result_of x = Ret r' ->
    success r' = success r \/
    (success r' = success r ++ [symbol] /\
     upper symbol ∈ (Stock.ticker <$> stocks (db (state_of x)))).
Proof.
  cbn zeta.
  pose proof (process_single_stock_kept (db s) fuel (upper symbol) s (kept_refl _))
    as [Hk Ht].
  unfold run_symbol, try_except, bind.
  destruct (process_single_stock _ _ _ _ _ s) as [[[[]|e|] s1] t1];
    cbn in Hk, Ht; cbn; (split; [exact Hk|]); intros r'; try discriminate;
    intros [= <-]; cbn; auto.
Qed.

Lemma run_loop_kept (fuel : nat) (symbols : list string) :
  forall (r : results) (s : state float),
    (forall sym, sym ∈ success r -> upper sym ∈ (Stock.ticker <$> stocks (db s))) ->
    let x := run_loop float_ now_ storage_accepts fuel symbols r s in
    kept (db s) (db (state_of x)) /\
    forall r', result_of x = Ret r' ->
      forall sym, sym ∈ success r' ->
        upper sym ∈ (Stock.ticker <$> stocks (db (state_of x))).
Proof.
  induction symbols as [|symbol rest IH]; intros r s Hr; cbn zeta.
  - cbn. split; [apply kept_refl|]. now intros r' [= <-].
  - cbn [run_loop].
    destruct (run_symbol_kept fuel symbol r s) as [Hk Hpost].
    destruct (run_symbol _ _ _ _ _ _ s) as [[[r1|e|] s1] t1] eqn:E;
      cbn in Hk, Hpost.
    + rewrite (bind_ret_eq _ _ _ _ _ _ E), state_of_preceded, result_of_preceded.
      destruct (IH r1 s1) as [Hk' Hpost'].
      { intros sym Hin. destruct (Hpost r1 eq_refl) as [Hs|[Hs Hnew]].
        - rewrite Hs in Hin. apply (grows_ticker (db s)); [apply Hk | now apply Hr].
        - rewrite Hs in Hin. apply elem_of_app in Hin as [Hin|Hin].
          + apply (grows_ticker (db s)); [apply Hk | now apply Hr].
          + apply list_elem_of_singleton in Hin. now subst sym. }
      split; [eapply kept_trans; eassumption | exact Hpost'].
    + rewrite (bind_raise_eq _ _ _ _ _ _ E). cbn. split; [exact Hk | discriminate].
    + rewrite (bind_fuel_eq _ _ _ _ _ E). cbn. split; [exact Hk | discriminate].
Qed.

Lemma run_is_its_loop (fuel : nat) (symbols : list string) (s : state float) :
  state_of (run float_ now_ storage_accepts fuel symbols s)
  = state_of (run_loop float_ now_ storage_accepts fuel symbols
                {| success := []; failed := [] |} s) /\
  result_of (run float_ now_ storage_accepts fuel symbols s)
  = result_of (run_loop float_ now_ storage_accepts fuel symbols
                 {| success := []; failed := [] |} s).
Proof.
  unfold run.
  do 3 (erewrite bind_ret_eq; [|reflexivity]).
  rewrite !state_of_preceded, !result_of_preceded.
  destruct (run_loop _ _ _ _ _ _ s) as [[[r|e|] s1] t1] eqn:E.
  - rewrite (bind_ret_eq _ _ _ _ _ _ E). now split.
  - rewrite (bind_raise_eq _ _ _ _ _ _ E). now split.
  - rewrite (bind_fuel_eq _ _ _ _ _ E). now split.
Qed.

Lemma run_kept (fuel : nat) (symbols : list string) (s : state float) :
  let x := run float_ now_ storage_accepts fuel symbols s in
  kept (db s) (db (state_of x)) /\
  forall r, result_of x = Ret r ->
    forall sym, sym ∈ success r ->
      upper sym ∈ (Stock.ticker <$> stocks (db (state_of x))).
Proof.
  cbn zeta. destruct (run_is_its_loop fuel symbols s) as [-> ->].
  apply run_loop_kept. cbn. intros sym Hin. now apply elem_of_nil in Hin.
Qed.

(** X19.  A run keeps the constraints of the schema by itself: started
    on tables where the tickers are distinct, the ids of [stocks] are
    below the next one of the sequence and every price and fundamental
    points to a row of [stocks], it ends, however it ends, on tables of
    the same kind. *)
Theorem run_keeps_the_constraints
    (fuel : nat) (symbols : list string) (s : state float) :
  stocks_wf (db s) ->
  refs_ok (db s) ->
  stocks_wf (db (state_of (run float_ now_ storage_accepts fuel symbols s))) /\
  refs_ok (db (state_of (run float_ now_ storage_accepts fuel symbols s))).
Proof.
  intros Hwf Hrefs.
  destruct (run_kept fuel symbols s) as [[_ Hinv] _]. now apply Hinv.
Qed.

(** X20.  A run deletes nothing and renumbers nothing: after it, every
    row of [stocks] is in its place with its id and its ticker, and the
    rows of [prices] and [fundamentals] are the old ones followed by the
    new ones. *)
Theorem run_only_adds_rows
    (fuel : nat) (symbols : list string) (s : state float) :
  grows (db s) (db (state_of (run float_ now_ storage_accepts fuel symbols s))).
Proof. apply run_kept. Qed.

(** X21.  A symbol is reported in [success] only if the entity is
    stored: when the run returns, [stocks] has a row whose ticker is the
    upper-case form of every symbol of the [success] list. *)
Theorem success_means_stored
    (fuel : nat) (symbols : list string) (s : state float) (r : results)
    (symbol : string) :
  result_of (run float_ now_ storage_accepts fuel symbols s) = Ret r ->
  symbol ∈ success r ->
  upper symbol
  ∈ (Stock.ticker <$>
       stocks (db (state_of (run float_ now_ storage_accepts fuel symbols s)))).
Proof.
  intros Hr Hin. destruct (run_kept fuel symbols s) as [_ H]. eauto.
Qed.

Lemma transform_stock_none {S} (symbol : string)
    (payload : option (gmap string pyval)) (s : S) :
  falsy_payload payload = true ->
  transform_stock symbol payload s
  = (Ret None, s,
     [Print "  [TRANSFORM] Processing stock data for {}..." [AStr symbol]]).
Proof.
  unfold falsy_payload, transform_stock.
  destruct payload as [data|]; intros H; [rewrite H|]; reflexivity.
Qed.

Lemma events_of_in_fetcher {A} (m : M Fetcher.world A) (s : state float) :
  events_of (in_fetcher m s) = events_of (m (env s)) /\
  env (state_of (in_fetcher m s)) = state_of (m (env s)).
Proof.
  unfold in_fetcher, zoom. now destruct (m (env s)) as [[r w] evs].
Qed.

Lemma extract_company_info_key (fuel : nat) (symbol : string) (s : state float) :
  Fetcher.api_key
    (Fetcher.fetcher (env (state_of (extract_company_info fuel symbol s))))
  = Fetcher.api_key (Fetcher.fetcher (env s)).
Proof.
  unfold extract_company_info.
  erewrite bind_ret_eq; [|reflexivity].
  rewrite state_of_preceded.
  rewrite (proj2 (events_of_in_fetcher _ s)).
  apply FetcherMore.wrapper_sends.
Qed.

Lemma extract_stock_quote_sends (fuel : nat) (symbol : string) (s : state float) :
  (25 <= fuel)%nat ->
  env_ok s ->
  <["apikey" := Fetcher.api_key (Fetcher.fetcher (env s))]>
    (<["function" := PStr "GLOBAL_QUOTE"]> (<["symbol" := PStr symbol]> ∅))
  ∈ Fetcher.remote_calls (events_of (extract_stock_quote fuel symbol s)).
Proof.
  intros Hfuel Hok. unfold extract_stock_quote.
  erewrite bind_ret_eq; [|reflexivity].
  rewrite events_of_preceded. cbn [app Fetcher.remote_calls].
  rewrite (proj1 (events_of_in_fetcher _ s)).
  now apply FetcherMore.wrapper_sends.
Qed.

(** X27.  When the overview of a symbol comes back empty, as [None] or
    as an empty dictionary, [process_single_stock] still sends the
    request for the quote, with the function [GLOBAL_QUOTE], the symbol
    and the key of the fetcher, and then gives up: it writes nothing to
    the database and does not return [True]. *)
Theorem skipped_symbol_writes_nothing
    (fuel : nat) (symbol : string) (s : state float)
    (payload : option (gmap string pyval)) :
  (25 <= fuel)%nat ->
  env_ok s ->
  result_of (extract_company_info fuel symbol s) = Ret payload ->
  falsy_payload payload = true ->
  let x := process_single_stock float_ now_ storage_accepts fuel symbol s in
  db (state_of x) = db s /\
  result_of x <> Ret true /\
  <["apikey" := Fetcher.api_key (Fetcher.fetcher (env s))]>
    (<["function" := PStr "GLOBAL_QUOTE"]> (<["symbol" := PStr symbol]> ∅))
  ∈ Fetcher.remote_calls (events_of x).
Proof.
  intros Hfuel Hok Hpayload Hfalsy. cbn zeta. unfold process_single_stock.
  do 2 (erewrite bind_ret_eq; [|reflexivity]).
  rewrite !state_of_preceded, !result_of_preceded, !events_of_preceded.
  pose proof (extract_company_info_db fuel symbol s) as Hdb1.
  pose proof (extract_company_info_key fuel symbol s) as Hkey.
  pose proof (PipelineFacts.extract_company_info_safe fuel symbol Hfuel s Hok)
    as [_ Hok1].
  destruct (extract_company_info fuel symbol s) as [[r1 s1] t1] eqn:E1.
  cbn in Hpayload, Hdb1, Hkey, Hok1. subst r1.
  rewrite (bind_ret_eq _ _ _ _ _ _ E1).
  rewrite state_of_preceded, result_of_preceded, events_of_preceded.
  pose proof (extract_stock_quote_db fuel symbol s1) as Hdb2.
  pose proof (extract_stock_quote_sends fuel symbol s1 Hfuel Hok1) as Hsend.
  rewrite Hkey in Hsend.
  rewrite !FetcherFacts.remote_calls_app.
  destruct (extract_stock_quote fuel symbol s1) as [[[q|e|] s2] t2] eqn:E2;
    cbn in Hdb2, Hsend.
  - rewrite (bind_ret_eq _ _ _ _ _ _ E2).
    rewrite state_of_preceded, result_of_preceded, events_of_preceded.
    erewrite bind_ret_eq; [|apply transform_stock_none, Hfalsy].
    rewrite FetcherFacts.remote_calls_app.
    cbn. split; [congruence|]. split; [discriminate|].
    apply elem_of_app. right. apply elem_of_app. now left.
  - rewrite (bind_raise_eq _ _ _ _ _ _ E2). cbn.
    split; [congruence|]. split; [discriminate|].
    apply elem_of_app. now right.
  - rewrite (bind_fuel_eq _ _ _ _ _ E2). cbn.
    split; [congruence|]. split; [discriminate|].
    apply elem_of_app. now right.
Qed.

End WithEnvironment.

End PipelineMore.

(** * The health check *)

Module HealthCheckMore.
Import Py Eff HealthCheck.

Lemma check_postgres_connection_eq (cfg : settings) (b : backends) :
  check_postgres_connection cfg b
  = match connect b, close b with
    | Ok _, Ok _ =>
        (Ret true, b, [Print "PostgreSQL connected: {}" [AStr (database_url cfg)]])
    | Ok _, Err e =>
        (Ret false, b,
         [Print "PostgreSQL connected: {}" [AStr (database_url cfg)];
          Print "PostgreSQL failed: {}" [AExn e]])
    | Err e, _ => (Ret false, b, [Print "PostgreSQL failed: {}" [AExn e]])
    end.
Proof.
  unfold check_postgres_connection, try_except, bind, read, of_result, print, emit,
    ret, raise.
  destruct (connect b) as [[]|e]; [|reflexivity].
  destruct (close b) as [[]|e]; reflexivity.
Qed.

Lemma check_redis_connection_eq (cfg : settings) (b : backends) :
  check_redis_connection cfg b
  = match ping b with
    | Ok _ => (Ret true, b, [Print "Redis connected: {}" [AStr (redis_url cfg)]])
    | Err e => (Ret false, b, [Print "Redis failed: {}" [AExn e]])
    end.
Proof.
  unfold check_redis_connection, try_except, bind, read, of_result, print, emit,
    ret, raise.
  destruct (ping b) as [[]|e]; reflexivity.
Qed.

Lemma main_eq (cfg : settings) (b : backends) :
  main cfg b
  = let '(r1, _, evs1) := check_postgres_connection cfg b in
    match r1 with
    | Ret true =>
        let '(r2, _, evs2) := check_redis_connection cfg b in
        (Ret (Some (if r2 is Ret true then 0 else 1)), b,
         Print "Running System check for external services connection" []
         :: evs1 ++ evs2 ++ (if r2 is Ret true then [Print "Run complete" []] else []))
    | _ =>
        (Ret (Some 1), b,
         Print "Running System check for external services connection" [] :: evs1)
    end.
Proof.
  unfold main, check_postgres_connection, check_redis_connection,
    try_except, bind, read, of_result, print, emit, ret, raise.
  destruct (connect b) as [[]|e1]; [destruct (close b) as [[]|e2]|];
    try reflexivity.
  destruct (ping b) as [[]|e3]; reflexivity.
Qed.

(** X22.  The script leaves by [sys.exit], never by its [except] clause
    and never by its end, and changes nothing: the exit code is 0 when
    the connection to PostgreSQL opens and closes and Redis answers the
    ping, and 1 in every other case. *)
Theorem exit_code_tells_whether_all_are_up (cfg : settings) (b : backends) :
  result_of (main cfg b) = Ret (Some (if all_up b then 0 else 1)) /\
  state_of (main cfg b) = b.
Proof.
  rewrite main_eq, check_postgres_connection_eq, check_redis_connection_eq.
  unfold all_up.
  destruct (connect b) as [[]|e1]; [destruct (close b) as [[]|e2]|];
    try (split; reflexivity).
  destruct (ping b) as [[]|e3]; split; reflexivity.
Qed.

(** X23.  The conjunction is lazy: when the check of PostgreSQL fails,
    on the connection or on its close, the check of Redis is not run
    and the script prints no line about Redis. *)
Theorem redis_is_skipped_when_postgres_is_down
    (cfg : settings) (b : backends) (e : exn) :
  connect b = Err e \/ close b = Err e ->
  redis_lines (events_of (main cfg b)) = [].
Proof.
  intros Hdown.
  rewrite main_eq, check_postgres_connection_eq.
  destruct (connect b) as [[]|e1]; [destruct (close b) as [[]|e2]|];
    try reflexivity.
  now destruct Hdown.
Qed.

(** X24.  A connection that opens and then fails to close is reported
    twice: [check_postgres_connection] prints the line of success, then
    the line of failure with the exception of the close, and returns
    [False]. *)
Theorem failed_close_is_reported_after_connected
    (cfg : settings) (b : backends) (e : exn) :
  connect b = Ok tt ->
  close b = Err e ->
  check_postgres_connection cfg b
  = (Ret false, b,
     [Print "PostgreSQL connected: {}" [AStr (database_url cfg)];
      Print "PostgreSQL failed: {}" [AExn e]]).
Proof.
  intros Hconnect Hclose.
  now rewrite check_postgres_connection_eq, Hconnect, Hclose.
Qed.

(** X25.  The two checks catch every exception of the servers: each
    returns a boolean, [True] exactly when its server did what was
    asked, and never raises. *)
Theorem checks_never_raise (cfg : settings) (b : backends) :
  result_of (check_postgres_connection cfg b)
  = Ret (if connect b is Ok _ then (if close b is Ok _ then true else false)
         else false) /\
  result_of (check_redis_connection cfg b)
  = Ret (if ping b is Ok _ then true else false).
Proof.
  rewrite check_postgres_connection_eq, check_redis_connection_eq.
  destruct (connect b) as [[]|e1], (close b) as [[]|e2], (ping b) as [[]|e3];
    split; reflexivity.
Qed.

End HealthCheckMore.

(** * The further properties on the samples *)

Module MoreExamples.
Import Py Eff Pipeline Samples PipelineSamples.

#[local] Ltac sample_facts :=
  repeat match goal with
         | |- RateLimiter.bucket_ok _ _ => split
         | |- RateLimiter.in_bounds _ => split
         | |- Fetcher.fetcher_ok _ => split
         | |- env_ok _ => split
         end;
  cbn; try reflexivity; try lia; unfold Qle; cbn; lia.

(** The bucket of the fetcher: five calls at once, the sixth is
    denied. *)
Lemma burst_witness :
  Replay.answers (RateLimiter.__init__ 0 5 (5 # 60)) (repeat (0%Q, 1) 6)
  = [true; true; true; true; true; false].
Proof.
  apply (RateLimiterMore.burst_of_capacity_then_denied 5 (5 # 60) 0); lia.
Defined.

Lemma acquire_above_capacity_witness :
  RateLimiter.acquire 0 6 (RateLimiter.__init__ 0 5 (5 # 60))
  = (false, RateLimiter._refill 0 (RateLimiter.__init__ 0 5 (5 # 60))).
Proof.
  apply (RateLimiterMore.acquire_above_capacity_is_denied 0 0 6).
  - sample_facts.
  - unfold Qle; cbn; lia.
  - cbn; lia.
Defined.

(** Three tokens left of five, read two seconds later at one token
    every two seconds. *)
Lemma refill_witness :
  let self := snd (RateLimiter.acquire 0 2 (RateLimiter.__init__ 0 5 (1 # 2))) in
  (RateLimiter.tokens self <= RateLimiter.tokens (RateLimiter._refill 2 self))%Q /\
  (RateLimiter.tokens (RateLimiter._refill 2 self)
   <= inject_Z (RateLimiter.max_tokens self))%Q /\
  RateLimiter.last_refill_time (RateLimiter._refill 2 self) = 2%Q.
Proof.
  cbn zeta.
  apply (RateLimiterMore.refill_never_lowers_the_balance 0 2).
  - split; [| | |split]; vm_compute; discriminate.
  - vm_compute; discriminate.
  - vm_compute; discriminate.
Defined.

Lemma plain_body_witness :
  exists w1 polls r,
    Fetcher.wait_for_token 25 (world_of [body overview]) = (Ret tt, w1, polls) /\
    Fetcher.polling polls /\
    Fetcher.network (world_of [body overview])
      (Fetcher.sent (world_of [body overview])) = Fetcher.Responds r /\
    Fetcher.attempts 25 1 [0; 1; 2; 3; 4] (world_of [body overview])
    = (Ret (Some (Fetcher.json r)), Fetcher.one_more_sent w1,
       polls ++ [Fetcher.sent_request 1 (world_of [body overview])]).
Proof.
  apply (FetcherMore.plain_body_is_returned_at_once
           25 1 0 [1; 2; 3; 4] (world_of [body overview])).
  - sample_facts.
  - lia.
  - vm_compute. reflexivity.
Defined.

(** A notice first, then the body: the reply to the second of the two
    requests of the call. *)
Lemma returned_payload_witness :
  let w := world_of [notice_body; body overview] in
  contains overview "Error Message" = false /\
  contains overview "Note" = false /\
  exists k,
    (Fetcher.sent w <= k < Fetcher.sent (state_of (Fetcher._make_request 25 1 w)))%nat /\
    Fetcher.network w k
    = Fetcher.Responds {| Fetcher.status_code := 200; Fetcher.json := overview |}.
Proof.
  cbn zeta.
  apply (FetcherMore.returned_payload_is_a_plain_body
           25 1 (world_of [notice_body; body overview]) overview).
  vm_compute. reflexivity.
Defined.

Lemma other_exception_witness :
  exists w1 polls,
    Fetcher.wait_for_token 25 (world_of [Fetcher.Fails ValueError])
    = (Ret tt, w1, polls) /\
    Fetcher.polling polls /\
    Fetcher.attempts 25 1 [0; 1; 2; 3; 4] (world_of [Fetcher.Fails ValueError])
    = (Raise ValueError, Fetcher.one_more_sent w1,
       polls ++ [Fetcher.sent_request 1 (world_of [Fetcher.Fails ValueError])]).
Proof.
  apply (FetcherMore.other_exception_is_let_through
           25 1 0 [1; 2; 3; 4] (world_of [Fetcher.Fails ValueError]) ValueError).
  - sample_facts.
  - lia.
  - reflexivity.
  - reflexivity.
Defined.



Lemma make_request_ends_witness :
  let w := world_of [status 500; notice_body] in
  result_of (Fetcher._make_request 26 1 w) <> OutOfFuel /\
  Fetcher.fetcher_ok (state_of (Fetcher._make_request 26 1 w)) /\
  (0 <= RateLimiter.tokens
          (Fetcher.rate_limiter
             (Fetcher.fetcher (state_of (Fetcher._make_request 26 1 w)))))%Q.
Proof.
  cbn zeta.
  apply (FetcherMore.make_request_ends 26 1).
  - sample_facts.
  - lia.
Defined.

Lemma no_payload_witness :
  transform_stock "AAPL" (Some ∅) (state_of_replies [])
  = (Ret None, state_of_replies [],
     [Print "  [TRANSFORM] Processing stock data for {}..." [AStr "AAPL"]]) /\
  transform_price whole_float fixed_now 1 (Some ∅) (state_of_replies [])
  = (Ret None, state_of_replies [], []) /\
  transform_fundamental whole_float fixed_now 1 (Some ∅) (state_of_replies [])
  = (Ret None, state_of_replies [], []).
Proof.
  apply (PipelineMore.transforms_without_payload whole_float fixed_now
           "AAPL" 1 (Some ∅) (state_of_replies [])).
  reflexivity.
Defined.

Lemma market_cap_witness :
  exists stock,
    result_of (transform_stock "AAPL" (Some overview) tt) = Ret (Some stock) /\
    Stock.market_cap stock = Some 3000000000000.
Proof.
  apply (PipelineMore.transform_stock_reads_the_market_cap
           "AAPL" overview tt "3000000000000").
  - reflexivity.
  - reflexivity.
  - discriminate.
Defined.

(** The quote of a symbol that is not known. *)
Lemma empty_quote_witness :
  transform_price whole_float fixed_now 1
    (Some (<["Global Quote" := PDict ∅]> ∅)) (state_of_replies [])
  = (Ret (Some {| Price.id := None;
                  Price.stock_id := 1;
                  Price.date := (2024, 11, 5);
                  Price.open := 0%Q;
                  Price.high := 0%Q;
                  Price.low := 0%Q;
                  Price.close := 0%Q;
                  Price.volume := 0 |}), state_of_replies [], []).
Proof.
  apply (PipelineMore.missing_quote_fields_are_zero whole_float fixed_now 1
           (<["Global Quote" := PDict ∅]> ∅) ∅ (state_of_replies []) 0%Q);
    reflexivity.
Defined.

Lemma null_quote_witness :
  transform_price whole_float fixed_now 1
    (Some (<["Global Quote" := PNone]> ∅)) (state_of_replies [])
  = (Ret None, state_of_replies [],
     [Print "  [ERROR] Transform price failed: {}" [AExn AttributeError]]).
Proof.
  apply (PipelineMore.quote_that_is_no_dictionary whole_float fixed_now 1
           (<["Global Quote" := PNone]> ∅) PNone (state_of_replies [])).
  - reflexivity.
  - discriminate.
Defined.

(** The run of the samples, on the tables one symbol already went
    into. *)
Lemma run_constraints_witness :
  let s := state_of (run whole_float fixed_now names_not_null 25 ["msft"]
                       (state_of_replies [body overview; body quote])) in
  let s' := state_of (run whole_float fixed_now names_not_null 25 ["aapl"; "msft"]
                        s) in
  Integrity.stocks_wf (db s') /\ Integrity.refs_ok (db s').
Proof.
  cbn zeta.
  apply (PipelineMore.run_keeps_the_constraints whole_float fixed_now names_not_null).
  - vm_compute. split.
    + repeat constructor. intros H. inversion H.
    + repeat constructor. exists 1. split; reflexivity.
  - vm_compute. split; repeat constructor.
Defined.

Lemma success_witness :
  "AAPL"
  ∈ (Stock.ticker <$>
       stocks (db (state_of
         (run whole_float fixed_now names_not_null 25 ["aapl"; "msft"]
            (state_of_replies [body overview; body quote; error_body]))))).
Proof.
  apply (PipelineMore.success_means_stored whole_float fixed_now names_not_null
           25 ["aapl"; "msft"]
           (state_of_replies [body overview; body quote; error_body])
           {| success := ["aapl"]; failed := ["msft"] |} "aapl").
  - vm_compute. reflexivity.
  - constructor.
Defined.

(** The overview is refused with an error payload; the quote is asked
    for all the same. *)
Lemma skipped_symbol_witness :
  let s := state_of_replies [error_body; body quote] in
  let x := process_single_stock whole_float fixed_now names_not_null 25 "AAPL" s in
  db (state_of x) = db s /\
  result_of x <> Ret true /\
  <["apikey" := PStr "KEY"]>
    (<["function" := PStr "GLOBAL_QUOTE"]> (<["symbol" := PStr "AAPL"]> ∅))
  ∈ Fetcher.remote_calls (events_of x).
Proof.
  cbn zeta.
  apply (PipelineMore.skipped_symbol_writes_nothing whole_float fixed_now
           names_not_null 25 "AAPL" (state_of_replies [error_body; body quote]) None).
  - lia.
  - sample_facts.
  - vm_compute. reflexivity.
  - reflexivity.
Defined.

Lemma redis_skipped_witness :
  HealthCheck.redis_lines
    (events_of
       (HealthCheck.main
          (HealthCheck.mkSettings "postgresql://localhost:5432/stocks"
                                  "redis://localhost:6379")
          (HealthCheck.mkBackends (Err (OtherException "OperationalError"))
                                  (Ok tt) (Ok tt))))
  = [].
Proof.
  apply (HealthCheckMore.redis_is_skipped_when_postgres_is_down
           _ _ (OtherException "OperationalError")).
  left. reflexivity.
Defined.

Lemma failed_close_witness :
  HealthCheck.check_postgres_connection
    (HealthCheck.mkSettings "postgresql://localhost:5432/stocks"
                            "redis://localhost:6379")
    (HealthCheck.mkBackends (Ok tt) (Err (OtherException "InterfaceError")) (Ok tt))
  = (Ret false,
     HealthCheck.mkBackends (Ok tt) (Err (OtherException "InterfaceError")) (Ok tt),
     [Print "PostgreSQL connected: {}" [AStr "postgresql://localhost:5432/stocks"];
      Print "PostgreSQL failed: {}" [AExn (OtherException "InterfaceError")]]).
Proof.
  apply (HealthCheckMore.failed_close_is_reported_after_connected
           (HealthCheck.mkSettings "postgresql://localhost:5432/stocks"
                                   "redis://localhost:6379")
           (HealthCheck.mkBackends (Ok tt) (Err (OtherException "InterfaceError"))
                                   (Ok tt))).
  - reflexivity.
  - reflexivity.
Defined.

End MoreExamples.
